(** * Savings tracker: the ledger of [App.tsx] and [types.ts]

    A shallow embedding of the state, the two event handlers, the derived
    lists and totals, the rows of the two lists and the persistence of the
    page component, together with the properties the specification states
    about them and further properties of the code.

    JavaScript values are modelled as the language defines them: a string
    is a sequence of UTF-16 code units, a Number is an IEEE-754 binary64
    value ([spec_float] at precision 53), [+] on Numbers is [SFadd]. *)

From Stdlib Require Import ZArith NArith List Bool Lia Permutation Sorted.
From Stdlib Require Import String Ascii.
From Stdlib Require Import Floats.SpecFloat.
Import ListNotations.

Set Implicit Arguments.
Set Warnings "-register-all".

(** ** JavaScript strings *)

Module JS.

(** A string value: its UTF-16 code units. *)
Definition jsstring := list N.

(** Literals of the development are written as Rocq strings of ASCII
    characters. *)
Definition str (s : string) : jsstring :=
  List.map N_of_ascii (list_ascii_of_string s).

(** [a === b] on strings. *)
Fixpoint jsstring_eqb (a b : jsstring) : bool :=
  match a, b with
  | [], [] => true
  | x :: a', y :: b' => (x =? y)%N && jsstring_eqb a' b'
  | _, _ => false
  end.

(** ECMAScript [WhiteSpace] and [LineTerminator] code points, the set that
    [String.prototype.trim] and [parseFloat] strip. *)
Definition isWhiteSpace (c : N) : bool :=
  ((c =? 9) || (c =? 10) || (c =? 11) || (c =? 12) || (c =? 13) || (c =? 32)
   || (c =? 160) || (c =? 5760)
   || ((8192 <=? c) && (c <=? 8202))
   || (c =? 8232) || (c =? 8233) || (c =? 8239) || (c =? 8287)
   || (c =? 12288) || (c =? 65279))%N.

Fixpoint trimStart (s : jsstring) : jsstring :=
  match s with
  | c :: s' => if isWhiteSpace c then trimStart s' else s
  | [] => []
  end.

Definition trimEnd (s : jsstring) : jsstring := rev (trimStart (rev s)).

(** [s.trim()] *)
Definition trim (s : jsstring) : jsstring := trimEnd (trimStart s).

(** Truthiness of a string: only the empty string is falsy. *)
Definition truthy (s : jsstring) : bool :=
  match s with [] => false | _ :: _ => true end.

(** ** Numbers *)

Definition number := spec_float.

Definition prec : Z := 53.
Definition emax : Z := 1024.

Definition Number_add (x y : number) : number := SFadd prec emax x y.

Definition isNaN (x : number) : bool :=
  match x with S754_nan => true | _ => false end.

Definition isFinite (x : number) : bool :=
  match x with S754_nan | S754_infinity _ => false | _ => true end.

(** [x === y] on Numbers: IEEE equality, under which [-0] equals [+0] and
    NaN differs from itself. *)
Definition strict_eq (x y : number) : bool := SFeqb x y.

(** *** The Number value of a decimal

    The Number value of a positive fraction [P / Q]: the binary64 value
    nearest to it, ties to the even significand, infinite beyond the
    largest finite value. *)

(** [2^d * Q <= P] *)
Definition pow2_le (d P Q : Z) : bool :=
  if (0 <=? d)%Z then (Q * 2 ^ d <=? P)%Z else (Q <=? P * 2 ^ (- d))%Z.

(** The integer [d] with [2^d <= P / Q < 2^(d+1)]. *)
Definition ilog2_frac (P Q : Z) : Z :=
  let d := (Z.log2 P - Z.log2 Q)%Z in
  if pow2_le d P Q then d else (d - 1)%Z.

Definition round_half_even (num den : Z) : Z :=
  let q := (num / den)%Z in
  match (2 * (num mod den) ?= den)%Z with
  | Lt => q
  | Gt => (q + 1)%Z
  | Eq => if Z.even q then q else (q + 1)%Z
  end.

Definition round_fraction (neg : bool) (P Q : Z) : number :=
  let e := Z.max (ilog2_frac P Q - 52) (-1074) in
  let m := if (0 <=? e)%Z then round_half_even P (Q * 2 ^ e)
           else round_half_even (P * 2 ^ (- e)) Q in
  let '(m, e) := if (m =? 2 ^ 53)%Z then (2 ^ 52, e + 1)%Z else (m, e) in
  match m with
  | Zpos p => if (e <=? 971)%Z then S754_finite neg p e else S754_infinity neg
  | _ => S754_zero neg
  end.

(** The Number value of the decimal [D * 10^E] ([D >= 0]); [neg] is the
    sign of the literal, kept on a zero. *)
Definition decimal_to_number (neg : bool) (D E : Z) : number :=
  if (D <=? 0)%Z then S754_zero neg
  else if (0 <=? E)%Z then round_fraction neg (D * 10 ^ E) 1
  else round_fraction neg D (10 ^ (- E)).

(** *** [parseFloat] *)

Definition isDigit (c : N) : bool := ((48 <=? c) && (c <=? 57))%N.

Definition digitValue (c : N) : Z := Z.of_N c - 48.

(** The longest run of decimal digits at the head of [s], and what
    follows it. *)
Fixpoint spanDigits (s : jsstring) : list N * jsstring :=
  match s with
  | c :: s' =>
      if isDigit c
      then let '(ds, rest) := spanDigits s' in (c :: ds, rest)
      else ([], s)
  | [] => ([], [])
  end.

(** Value of a digit string, most significant digit first. *)
Definition digitsValue (ds : list N) : Z :=
  fold_left (fun acc c => (10 * acc + digitValue c)%Z) ds 0%Z.

Fixpoint startsWith (p s : jsstring) : bool :=
  match p, s with
  | [], _ => true
  | a :: p', b :: s' => (a =? b)%N && startsWith p' s'
  | _ :: _, [] => false
  end.

(** An optional sign; [true] for [-]. *)
Definition spanSign (s : jsstring) : bool * jsstring :=
  match s with
  | c :: s' =>
      if (c =? 45)%N then (true, s')
      else if (c =? 43)%N then (false, s')
      else (false, s)
  | [] => (false, [])
  end.

(** [ExponentPart] at the head of [s], when a complete one is there:
    [e] or [E], an optional sign, at least one digit. *)
Definition spanExponent (s : jsstring) : Z :=
  match s with
  | c :: s' =>
      if ((c =? 101) || (c =? 69))%N
      then
        let '(neg, s'') := spanSign s' in
        let '(ds, _) := spanDigits s'' in
        match ds with
        | [] => 0%Z
        | _ :: _ => if neg then (- digitsValue ds)%Z else digitsValue ds
        end
      else 0%Z
  | [] => 0%Z
  end.

(** [parseFloat(string)]: leading white space is skipped, the longest
    prefix that is a [StrDecimalLiteral] is read, and NaN is returned when
    there is none. *)
Definition parseFloat (input : jsstring) : number :=
  let '(neg, s) := spanSign (trimStart input) in
  if startsWith (str "Infinity") s then S754_infinity neg
  else
    let '(ip, s1) := spanDigits s in
    let '(fp, s2) :=
      match s1 with
      | c :: s1' => if (c =? 46)%N then spanDigits s1' else ([], s1)
      | [] => ([], s1)
      end in
    match ip, fp with
    | [], [] => S754_nan
    | _, _ =>
        decimal_to_number neg (digitsValue (ip ++ fp))
          (spanExponent s2 - Z.of_nat (List.length fp))
    end.

(** *** [Array.prototype.sort]

    [comparefn a b] is the sign information of the comparator's result:
    [None] stands for NaN, which the sort reads as [+0].  The order of the
    comparisons is left to the engine; what the language fixes is that
    the sort is stable, which for a consistent comparator determines the
    result ([stable_sort_unique] below, for the comparator of the
    component).  It is modelled by a stable insertion sort. *)
Section Sort.
Variable T : Type.
Variable comparefn : T -> T -> option Z.

(** [SortCompare]: a positive result puts [a] after [b]. *)
Definition sortsAfter (a b : T) : bool :=
  match comparefn a b with
  | Some v => (0 <? v)%Z
  | None => false
  end.

Fixpoint insert (x : T) (l : list T) : list T :=
  match l with
  | [] => [x]
  | y :: l' => if sortsAfter x y then y :: insert x l' else x :: l
  end.

Fixpoint sort (l : list T) : list T :=
  match l with
  | [] => []
  | x :: l' => insert x (sort l')
  end.
End Sort.

End JS.

Import JS.

(** ** [types.ts] *)

Inductive TransactionType : Set :=
  | MyMoney
  | DadsDebt.

(** The string value of each enum member. *)
Definition TransactionType_value (t : TransactionType) : jsstring :=
  match t with
  | MyMoney => str "myMoney"
  | DadsDebt => str "dadsDebt"
  end.

(** [a === b] on the enum. *)
Definition type_eqb (a b : TransactionType) : bool :=
  match a, b with
  | MyMoney, MyMoney | DadsDebt, DadsDebt => true
  | _, _ => false
  end.

Record Transaction : Type := mkTransaction {
  id : jsstring;
  amount : number;
  description : jsstring;
  date : jsstring;
  type : TransactionType
}.

(** ** Derived values of [App]: the two lists and the two totals *)

(** [transactions.filter(tx => tx.type === t)], the body of the [useMemo]
    that yields [myMoneyTransactions] and [dadsDebtTransactions]. *)
Definition byType (transactions : list Transaction) (t : TransactionType)
  : list Transaction :=
  filter (fun tx => type_eqb (type tx) t) transactions.

Definition myMoneyTransactions (transactions : list Transaction) :=
  byType transactions MyMoney.

Definition dadsDebtTransactions (transactions : list Transaction) :=
  byType transactions DadsDebt.

(** [list.reduce((sum, tx) => sum + tx.amount, 0)] *)
Definition reduce_sum (l : list Transaction) : number :=
  fold_left (fun sum tx => Number_add sum (amount tx)) l (S754_zero false).

Definition totalFor (transactions : list Transaction) (t : TransactionType)
  : number :=
  reduce_sum (byType transactions t).

Definition myMoneyTotal (transactions : list Transaction) : number :=
  reduce_sum (myMoneyTransactions transactions).

Definition dadsDebtTotal (transactions : list Transaction) : number :=
  reduce_sum (dadsDebtTransactions transactions).

(** ** The page component [App]: state and event handlers *)

(** The four [useState] cells of [App]. *)
Record AppState : Type := mkAppState {
  transactions : list Transaction;
  newAmount : jsstring;
  newDescription : jsstring;
  newType : TransactionType
}.

(** What the browser supplies to one run of the submit handler: the
    results of [crypto.randomUUID()] and of [new Date().toISOString()]. *)
Record Env : Type := mkEnv {
  randomUUID : jsstring;
  nowISOString : jsstring
}.

(** How a run of the submit handler ends: with the alert and an early
    return, no state being set, or with the state it sets. *)
Inductive AddOutcome : Type :=
  | Alerted
  | Added (next : AppState).

(** The value a handler call evaluates to. *)
Inductive Returned : Type :=
  | undefined
  | boolean (b : bool).

Section Handlers.

(** [new Date(s).getTime()]: the time value of a date string, in
    milliseconds since the epoch, [None] for the NaN of an invalid date.
    Which strings beside the ISO format parse is left to the engine, so
    the function is a parameter of the handlers. *)
Variable getTime : jsstring -> option Z.

(** [(a, b) => new Date(b.date).getTime() - new Date(a.date).getTime()].
    Time values are integers of magnitude at most 8.64e15, which binary64
    holds exactly; the difference of two of them is NaN when one is NaN
    and otherwise has the sign of the exact difference, which is all the
    sort reads. *)
Definition compareDates (a b : Transaction) : option Z :=
  match getTime (date b), getTime (date a) with
  | Some tb, Some ta => Some (tb - ta)%Z
  | _, _ => None
  end.

(** The record built at lines 98-104. *)
Definition newTransaction (env : Env) (st : AppState) : Transaction :=
  {| id := randomUUID env;
     amount := parseFloat (newAmount st);
     description := newDescription st;
     date := nowISOString env;
     type := newType st |}.

Definition handleAddTransaction (env : Env) (st : AppState) : AddOutcome :=
  let amount := parseFloat (newAmount st) in
  if negb (truthy (trim (newDescription st))) || isNaN amount
  then Alerted
  else
    Added
      {| transactions :=
           sort compareDates (transactions st ++ [newTransaction env st]);
         newAmount := [];
         newDescription := [];
         newType := newType st |}.

(** [confirmed] is the answer to [window.confirm]. *)
Definition handleDeleteTransaction
    (confirmed : bool) (id0 : jsstring) (st : AppState)
  : AppState * Returned :=
  (if confirmed
   then
     {| transactions :=
          filter (fun tx => negb (jsstring_eqb (id tx) id0))
            (transactions st);
        newAmount := newAmount st;
        newDescription := newDescription st;
        newType := newType st |}
   else st,
   undefined).

(** *** Commands of the view: fill the form and submit, or delete *)

Inductive Command : Type :=
  | Add (env : Env) (amount0 description0 : jsstring) (t : TransactionType)
  | Delete (confirmed : bool) (id0 : jsstring).

Definition fillForm (amount0 description0 : jsstring) (t : TransactionType)
    (st : AppState) : AppState :=
  {| transactions := transactions st;
     newAmount := amount0;
     newDescription := description0;
     newType := t |}.

Definition add (env : Env) (amount0 description0 : jsstring)
    (t : TransactionType) (st : AppState) : AddOutcome :=
  handleAddTransaction env (fillForm amount0 description0 t st).

Definition step (st : AppState) (c : Command) : AppState :=
  match c with
  | Add env a d t =>
      match add env a d t st with
      | Alerted => fillForm a d t st
      | Added next => next
      end
  | Delete confirmed id0 => fst (handleDeleteTransaction confirmed id0 st)
  end.

Definition run (cs : list Command) (st : AppState) : AppState :=
  fold_left step cs st.

End Handlers.

(** ** [Number::toString] *)

(** [Object.is] on Numbers: the same binary64 value. *)
Definition sameValue (x y : number) : bool :=
  match x, y with
  | S754_zero a, S754_zero b => Bool.eqb a b
  | S754_infinity a, S754_infinity b => Bool.eqb a b
  | S754_nan, S754_nan => true
  | S754_finite a m e, S754_finite b m' e' =>
      Bool.eqb a b && Pos.eqb m m' && Z.eqb e e'
  | _, _ => false
  end.

Fixpoint digitsOf_loop (fuel : nat) (z : Z) (acc : list N) : list N :=
  match fuel with
  | O => acc
  | S fuel' =>
      let acc' := Z.to_N (48 + z mod 10) :: acc in
      if (z <? 10)%Z then acc' else digitsOf_loop fuel' (z / 10) acc'
  end.

(** The decimal digits of [z >= 0], most significant first. *)
Definition digitsOf (z : Z) : list N :=
  digitsOf_loop (S (Z.to_nat (Z.log2 z))) z [].

(** For [P < Q]: the least [j >= j0] with [Q <= P * 10^j]. *)
Fixpoint leadingZeros (fuel : nat) (P Q j : Z) : Z :=
  match fuel with
  | O => j
  | S fuel' =>
      if (Q <=? P * 10 ^ j)%Z then j else leadingZeros fuel' P Q (j + 1)
  end.

(** The integer [n] with [10^(n-1) <= P / Q < 10^n]. *)
Definition decimalExponent (P Q : Z) : Z :=
  if (Q <=? P)%Z then Z.of_nat (List.length (digitsOf (P / Q)))
  else (1 - leadingZeros (Z.to_nat (Z.log2 Q + 1)) P Q 1)%Z.

(** The [k]-digit decimals next to [P / Q] from below and from above,
    each kept when its Number value is [x]; of two that are kept the
    nearer one is chosen, the even one when they are as near.  The
    result is a pair [(s, E)] that stands for [s * 10^E]. *)
Definition candidate (x : number) (P Q n0 k : Z) : option (Z * Z) :=
  let E := (n0 - k)%Z in
  let num := if (0 <=? E)%Z then P else (P * 10 ^ (- E))%Z in
  let den := if (0 <=? E)%Z then (Q * 10 ^ E)%Z else Q in
  let lo := (num / den)%Z in
  let hi := (lo + 1)%Z in
  let hi' := if (hi =? 10 ^ k)%Z then (10 ^ (k - 1), E + 1)%Z else (hi, E) in
  let lo_ok := sameValue (decimal_to_number false lo E) x in
  let hi_ok := sameValue (decimal_to_number false (fst hi') (snd hi')) x in
  match lo_ok, hi_ok with
  | true, true =>
      match (2 * num ?= (2 * lo + 1) * den)%Z with
      | Lt => Some (lo, E)
      | Gt => Some hi'
      | Eq => if Z.even lo then Some (lo, E) else Some hi'
      end
  | true, false => Some (lo, E)
  | false, true => Some hi'
  | false, false => None
  end.

(** The first [k], counting up, that has a candidate. *)
Fixpoint shortest (fuel : nat) (x : number) (P Q n0 k : Z) : option (Z * Z) :=
  match fuel with
  | O => None
  | S fuel' =>
      match candidate x P Q n0 k with
      | Some r => Some r
      | None => shortest fuel' x P Q n0 (k + 1)
      end
  end.

Definition zeros (n : Z) : jsstring := repeat 48%N (Z.to_nat n).

(** The text of [s * 10^E], [ds] being the digits of [s]: steps 6 to 10
    of [Number::toString]. *)
Definition formatDecimal (ds : list N) (E : Z) : jsstring :=
  let k := Z.of_nat (List.length ds) in
  let n := (E + k)%Z in
  if ((k <=? n) && (n <=? 21))%Z then ds ++ zeros (n - k)
  else if ((0 <? n) && (n <=? 21))%Z then
    firstn (Z.to_nat n) ds ++ 46%N :: skipn (Z.to_nat n) ds
  else if ((-6 <? n) && (n <=? 0))%Z then
    48%N :: 46%N :: zeros (- n) ++ ds
  else
    let exponent :=
      101%N :: (if (n - 1 <? 0)%Z then 45%N else 43%N)
            :: digitsOf (Z.abs (n - 1)) in
    match ds with
    | [d] => d :: exponent
    | d :: ds' => d :: 46%N :: ds' ++ exponent
    | [] => exponent
    end.

(** The fraction [numerator / denominator] a finite Number
    [m * 2^e] is equal to. *)
Definition numerator (m : positive) (e : Z) : Z :=
  if (0 <=? e)%Z then (Zpos m * 2 ^ e)%Z else Zpos m.

Definition denominator (e : Z) : Z :=
  if (0 <=? e)%Z then 1%Z else (2 ^ (- e))%Z.

(** [Number::toString(x)] in radix 10.  The digits are those of the
    shortest decimal whose Number value is [x]; the search for it stops at
    the latest at the length of the exact decimal expansion of [x]. *)
Definition Number_toString (x : number) : jsstring :=
  match x with
  | S754_nan => str "NaN"
  | S754_zero _ => str "0"
  | S754_infinity neg =>
      if neg then str "-Infinity" else str "Infinity"
  | S754_finite neg m e =>
      let P := numerator m e in
      let Q := denominator e in
      let n0 := decimalExponent P Q in
      let last := (n0 - Z.min e 0)%Z in
      let text :=
        match shortest (Z.to_nat last) (S754_finite false m e) P Q n0 1 with
        | Some (s, E) => formatDecimal (digitsOf s) E
        | None => []
        end in
      if neg then 45%N :: text else text
  end.

(** ** JSON *)

(** The values [JSON.parse] builds.  The members of an object are listed
    in the order in which its own property keys are enumerated. *)
Inductive JSValue : Type :=
  | JNull
  | JBool (b : bool)
  | JNumber (x : number)
  | JString (s : jsstring)
  | JArray (elements : list JSValue)
  | JObject (members : list (jsstring * JSValue)).

(** How an evaluation completes: normally with a value, or abruptly with
    a thrown exception. *)
Inductive completion (A : Type) : Type :=
  | Normal (a : A)
  | Throw.
Arguments Throw {A}.

(** [try { body } catch (error) { console.error(...); return handler; }] *)
Definition try_catch (A : Type) (body : completion A) (handler : A)
  : completion A :=
  match body with
  | Normal a => Normal a
  | Throw => Normal handler
  end.

(** *** [JSON.stringify] *)

Definition hexDigit (n : N) : N :=
  if (n <? 10)%N then (48 + n)%N else (87 + n)%N.

(** [UnicodeEscape]: a backslash, [u], and four lower-case hexadecimal
    digits. *)
Definition unicodeEscape (c : N) : jsstring :=
  [92; 117; hexDigit (c / 4096 mod 16); hexDigit (c / 256 mod 16);
   hexDigit (c / 16 mod 16); hexDigit (c mod 16)]%N.

Definition isLeadingSurrogate (c : N) : bool :=
  ((55296 <=? c) && (c <=? 56319))%N.

Definition isTrailingSurrogate (c : N) : bool :=
  ((56320 <=? c) && (c <=? 57343))%N.

(** The quoted form of a code unit that is not half of a surrogate
    pair. *)
Definition quoteUnit (c : N) : jsstring :=
  if (c =? 8)%N then [92; 98]%N
  else if (c =? 9)%N then [92; 116]%N
  else if (c =? 10)%N then [92; 110]%N
  else if (c =? 12)%N then [92; 102]%N
  else if (c =? 13)%N then [92; 114]%N
  else if (c =? 34)%N then [92; 34]%N
  else if (c =? 92)%N then [92; 92]%N
  else if (c <? 32)%N || isLeadingSurrogate c || isTrailingSurrogate c
       then unicodeEscape c
  else [c].

(** The body of [QuoteJSONString]: a surrogate pair goes through as it
    is, a lone surrogate is escaped. *)
Fixpoint quoteUnits (s : jsstring) : jsstring :=
  match s with
  | [] => []
  | c :: s' =>
      if isLeadingSurrogate c
      then
        match s' with
        | d :: s'' =>
            if isTrailingSurrogate d then c :: d :: quoteUnits s''
            else quoteUnit c ++ quoteUnits s'
        | [] => quoteUnit c
        end
      else quoteUnit c ++ quoteUnits s'
  end.

Definition QuoteJSONString (s : jsstring) : jsstring :=
  34%N :: quoteUnits s ++ [34%N].

(** [items] joined by commas. *)
Fixpoint joinComma (items : list jsstring) : jsstring :=
  match items with
  | [] => []
  | [x] => x
  | x :: rest => x ++ 44%N :: joinComma rest
  end.

(** [SerializeJSONProperty] without indentation. *)
Fixpoint JSON_stringify (v : JSValue) : jsstring :=
  match v with
  | JNull => str "null"
  | JBool true => str "true"
  | JBool false => str "false"
  | JNumber x => if isFinite x then Number_toString x else str "null"
  | JString s => QuoteJSONString s
  | JArray elements =>
      91%N :: joinComma (List.map JSON_stringify elements) ++ [93%N]
  | JObject members =>
      123%N
        :: joinComma
             (List.map
                (fun kv => QuoteJSONString (fst kv) ++ 58%N :: JSON_stringify (snd kv))
                members)
        ++ [125%N]
  end.

(** *** [JSON.parse] *)

Definition isJSONWhiteSpace (c : N) : bool :=
  ((c =? 9) || (c =? 10) || (c =? 13) || (c =? 32))%N.

Fixpoint skipWS (s : jsstring) : jsstring :=
  match s with
  | c :: s' => if isJSONWhiteSpace c then skipWS s' else s
  | [] => []
  end.

Definition hexValue (c : N) : option N :=
  if isDigit c then Some (c - 48)%N
  else if ((97 <=? c) && (c <=? 102))%N then Some (c - 87)%N
  else if ((65 <=? c) && (c <=? 70))%N then Some (c - 55)%N
  else None.

Definition hex4 (a b c d : N) : option N :=
  match hexValue a, hexValue b, hexValue c, hexValue d with
  | Some x, Some y, Some z, Some w => Some (((x * 16 + y) * 16 + z) * 16 + w)%N
  | _, _, _, _ => None
  end.

(** The character a single-character escape stands for. *)
Definition singleEscape (c : N) : option N :=
  if (c =? 34)%N then Some 34%N
  else if (c =? 92)%N then Some 92%N
  else if (c =? 47)%N then Some 47%N
  else if (c =? 98)%N then Some 8%N
  else if (c =? 102)%N then Some 12%N
  else if (c =? 110)%N then Some 10%N
  else if (c =? 114)%N then Some 13%N
  else if (c =? 116)%N then Some 9%N
  else None.

Definition consResult (c : N) (r : option (jsstring * jsstring))
  : option (jsstring * jsstring) :=
  match r with
  | Some (s, rest) => Some (c :: s, rest)
  | None => None
  end.

(** The characters of a JSON string after its opening quote, up to and
    including the closing quote; what follows is returned with them. *)
Fixpoint parseStringChars (s : jsstring) : option (jsstring * jsstring) :=
  match s with
  | [] => None
  | c :: s' =>
      if (c =? 34)%N then Some ([], s')
      else if (c =? 92)%N then
        match s' with
        | [] => None
        | e :: s'' =>
            match singleEscape e with
            | Some ch => consResult ch (parseStringChars s'')
            | None =>
                if (e =? 117)%N then
                  match s'' with
                  | h1 :: h2 :: h3 :: h4 :: s''' =>
                      match hex4 h1 h2 h3 h4 with
                      | Some u => consResult u (parseStringChars s''')
                      | None => None
                      end
                  | _ => None
                  end
                else None
            end
        end
      else if (c <? 32)%N then None
      else consResult c (parseStringChars s')
  end.

(** An optional minus sign. *)
Definition spanMinus (s : jsstring) : bool * jsstring :=
  match s with
  | c :: s' => if (c =? 45)%N then (true, s') else (false, s)
  | [] => (false, [])
  end.

(** The optional fraction of a JSON number: a point and at least one
    digit.  [None] when the point is there and the digit is not. *)
Definition parseFraction (s : jsstring) : option (list N * jsstring) :=
  match s with
  | c :: s' =>
      if (c =? 46)%N then
        let '(fp, rest) := spanDigits s' in
        match fp with
        | [] => None
        | _ :: _ => Some (fp, rest)
        end
      else Some ([], s)
  | [] => Some ([], [])
  end.

(** The optional exponent of a JSON number: [e] or [E], an optional
    sign, at least one digit.  [None] when it is begun and not
    completed. *)
Definition parseExponent (s : jsstring) : option (Z * jsstring) :=
  match s with
  | c :: s' =>
      if ((c =? 101) || (c =? 69))%N then
        let '(neg, s'') := spanSign s' in
        let '(ds, rest) := spanDigits s'' in
        match ds with
        | [] => None
        | _ :: _ =>
            Some (if neg then (- digitsValue ds)%Z else digitsValue ds, rest)
        end
      else Some (0%Z, s)
  | [] => Some (0%Z, [])
  end.

(** A JSON number at the head of [s]: an optional minus sign, an integer
    part without a superfluous leading zero, an optional fraction, an
    optional exponent. *)
Definition parseNumber (s : jsstring) : option (number * jsstring) :=
  let '(neg, s0) := spanMinus s in
  let '(ip, s1) := spanDigits s0 in
  match ip with
  | [] => None
  | d :: ip' =>
      if (d =? 48)%N && negb (Nat.eqb (List.length ip') 0) then None
      else
        match parseFraction s1 with
        | None => None
        | Some (fp, s2) =>
            match parseExponent s2 with
            | None => None
            | Some (ex, rest) =>
                Some (decimal_to_number neg (digitsValue (ip ++ fp))
                        (ex - Z.of_nat (List.length fp)),
                      rest)
            end
        end
  end.

(** A canonical array index: the decimal text of an integer below
    [2^32 - 1]. *)
Definition isArrayIndex (k : jsstring) : bool :=
  match k with
  | [] => false
  | c :: k' =>
      forallb isDigit k
      && (negb (c =? 48)%N || match k' with [] => true | _ => false end)
      && (List.length k <=? 10)%nat
      && (digitsValue k <? 4294967295)%Z
  end.

(** [CreateDataProperty] on the member list: a key that is present keeps
    its place and takes the new value; a new array index goes among the
    array indices in ascending order, ahead of the other keys; any other
    new key goes last. *)
Fixpoint defineProperty (k : jsstring) (v : JSValue)
    (members : list (jsstring * JSValue)) : list (jsstring * JSValue) :=
  match members with
  | [] => [(k, v)]
  | (k', v') :: rest =>
      if jsstring_eqb k k' then (k, v) :: rest
      else if isArrayIndex k
              && (negb (isArrayIndex k')
                  || (digitsValue k <? digitsValue k')%Z)
              && negb (existsb (fun kv => jsstring_eqb k (fst kv)) rest)
      then (k, v) :: members
      else (k', v') :: defineProperty k v rest
  end.

Definition dropPrefix (p s : jsstring) : option jsstring :=
  if startsWith p s then Some (skipn (List.length p) s) else None.

Fixpoint parseValue (fuel : nat) (s : jsstring) : option (JSValue * jsstring) :=
  match fuel with
  | O => None
  | S fuel' =>
      match skipWS s with
      | [] => None
      | c :: r =>
          if (c =? 123)%N then
            match skipWS r with
            | c' :: r' =>
                if (c' =? 125)%N then Some (JObject [], r')
                else parseMembers fuel' r []
            | [] => None
            end
          else if (c =? 91)%N then
            match skipWS r with
            | c' :: r' =>
                if (c' =? 93)%N then Some (JArray [], r')
                else parseElements fuel' r []
            | [] => None
            end
          else if (c =? 34)%N then
            match parseStringChars r with
            | Some (str0, r') => Some (JString str0, r')
            | None => None
            end
          else if (c =? 116)%N then
            match dropPrefix (str "rue") r with
            | Some r' => Some (JBool true, r')
            | None => None
            end
          else if (c =? 102)%N then
            match dropPrefix (str "alse") r with
            | Some r' => Some (JBool false, r')
            | None => None
            end
          else if (c =? 110)%N then
            match dropPrefix (str "ull") r with
            | Some r' => Some (JNull, r')
            | None => None
            end
          else
            match parseNumber (c :: r) with
            | Some (x, r') => Some (JNumber x, r')
            | None => None
            end
      end
  end

with parseElements (fuel : nat) (s : jsstring) (acc : list JSValue)
  : option (JSValue * jsstring) :=
  match fuel with
  | O => None
  | S fuel' =>
      match parseValue fuel' s with
      | Some (v, r) =>
          match skipWS r with
          | c :: r' =>
              if (c =? 44)%N then parseElements fuel' r' (v :: acc)
              else if (c =? 93)%N then Some (JArray (rev (v :: acc)), r')
              else None
          | [] => None
          end
      | None => None
      end
  end

with parseMembers (fuel : nat) (s : jsstring)
    (acc : list (jsstring * JSValue)) : option (JSValue * jsstring) :=
  match fuel with
  | O => None
  | S fuel' =>
      match skipWS s with
      | c :: r =>
          if (c =? 34)%N then
            match parseStringChars r with
            | Some (k, r1) =>
                match skipWS r1 with
                | c1 :: r2 =>
                    if (c1 =? 58)%N then
                      match parseValue fuel' r2 with
                      | Some (v, r3) =>
                          match skipWS r3 with
                          | c3 :: r4 =>
                              if (c3 =? 44)%N then
                                parseMembers fuel' r4 (defineProperty k v acc)
                              else if (c3 =? 125)%N then
                                Some (JObject (defineProperty k v acc), r4)
                              else None
                          | [] => None
                          end
                      | None => None
                      end
                    else None
                | [] => None
                end
            | None => None
            end
          else None
      | [] => None
      end
  end.

(** [JSON.parse(text)] without a reviver: the value of the text, or a
    thrown [SyntaxError] when the text is not a JSON text.  The fuel is
    twice the length of the text and two more; [parseValue_fuel_enough]
    below shows that more fuel would change nothing. *)
Definition JSON_parse (text : jsstring) : completion JSValue :=
  match parseValue (2 * List.length text + 2) text with
  | Some (v, rest) =>
      match skipWS rest with
      | [] => Normal v
      | _ :: _ => Throw
      end
  | None => Throw
  end.

(** ** Persistence: the [useState] initializer and the [useEffect] *)

(** The runtime value of a record: the object literal of lines 98-104,
    its keys in the order they are written. *)
Definition toJS (tx : Transaction) : JSValue :=
  JObject
    [ (str "id", JString (id tx));
      (str "amount", JNumber (amount tx));
      (str "description", JString (description tx));
      (str "date", JString (date tx));
      (str "type", JString (TransactionType_value (type tx))) ].

Definition toJSArray (l : list Transaction) : JSValue :=
  JArray (List.map toJS l).

(** The text the effect of lines 86-88 passes to
    [localStorage.setItem('savingsTrackerTransactions', _)]. *)
Definition savedText (l : list Transaction) : jsstring :=
  JSON_stringify (toJSArray l).

(** The initializer of lines 72-80.  [getItem] is how
    [localStorage.getItem('savingsTrackerTransactions')] completes: with
    [None] for [null], with the stored string, or with an exception when
    the storage cannot be read. *)
Definition initialTransactions (getItem : completion (option jsstring))
  : completion JSValue :=
  try_catch
    (match getItem with
     | Throw => Throw
     | Normal None => Normal (JArray [])
     | Normal (Some savedTransactions) =>
         if truthy savedTransactions then JSON_parse savedTransactions
         else Normal (JArray [])
     end)
    (JArray []).

(** The component with its storage slot: the state, and every text
    written to the slot so far, the latest first. *)
Record World : Type := mkWorld {
  state : AppState;
  setItemCalls : list jsstring
}.

(** A submit followed by the render it causes: the effect runs, and
    writes, when the handler has set [transactions]. *)
Definition submit (getTime : jsstring -> option Z) (env : Env) (w : World)
  : World :=
  match handleAddTransaction getTime env (state w) with
  | Alerted => w
  | Added next =>
      {| state := next;
         setItemCalls := savedText (transactions next) :: setItemCalls w |}
  end.

(** ** Notions the properties are stated with *)

(** The sum of the amounts of the records of type [t], added one by one
    to [acc] in the order of the collection. *)
Fixpoint sumOfType (t : TransactionType) (l : list Transaction) (acc : number)
  : number :=
  match l with
  | [] => acc
  | tx :: l' =>
      sumOfType t l'
        (if type_eqb (type tx) t then Number_add acc (amount tx) else acc)
  end.

(** [a] is not older than [b], both dates being valid. *)
Definition newerOrSame (getTime : jsstring -> option Z) (a b : Transaction)
  : Prop :=
  match getTime (date a), getTime (date b) with
  | Some ta, Some tb => (tb <= ta)%Z
  | _, _ => False
  end.

Definition validDate (getTime : jsstring -> option Z) (tx : Transaction)
  : Prop :=
  getTime (date tx) <> None.

(** Sorted by date, newest first. *)
Definition sortedByDateDesc (getTime : jsstring -> option Z)
    (l : list Transaction) : Prop :=
  Forall (validDate getTime) l /\ StronglySorted (newerOrSame getTime) l.

(** The records of [l] dated at the time value [t], in their order. *)
Definition datedAt (getTime : jsstring -> option Z) (t : Z)
    (l : list Transaction) : list Transaction :=
  filter
    (fun tx =>
       match getTime (date tx) with
       | Some t' => (t' =? t)%Z
       | None => false
       end)
    l.

(** [a] is a subsequence of [b]: the elements of [a] occur in [b] in the
    same relative order. *)
Inductive subsequence (A : Type) : list A -> list A -> Prop :=
  | subsequence_nil : subsequence [] []
  | subsequence_skip : forall x a b, subsequence a b -> subsequence a (x :: b)
  | subsequence_keep : forall x a b,
      subsequence a b -> subsequence (x :: a) (x :: b).

(** [d] is the binary exponent of the fraction [P / Q]:
    [2^d <= P / Q < 2^(d+1)]. *)
Definition binaryExponent (d P Q : Z) : Prop :=
  pow2_le d P Q = true /\ pow2_le (d + 1) P Q = false.

(** A string of decimal digits. *)
Definition digits (ds : list N) : Prop :=
  Forall (fun c => isDigit c = true) ds.

(** What may follow a number in a text: the end of the text, or a
    character that does not continue the number. *)
Definition numberEnd (rest : jsstring) : Prop :=
  match rest with
  | [] => True
  | c :: _ =>
      isDigit c = false /\ (c =? 46)%N = false
      /\ (c =? 101)%N = false /\ (c =? 69)%N = false
  end.

(** The text of a fraction part and of an exponent part. *)
Definition fractionText (fp : list N) : jsstring :=
  match fp with
  | [] => []
  | _ :: _ => 46%N :: fp
  end.

Definition exponentText (ex : option Z) : jsstring :=
  match ex with
  | None => []
  | Some z =>
      101%N :: (if (z <? 0)%Z then 45%N else 43%N) :: digitsOf (Z.abs z)
  end.

(** A Number that [JSON.stringify] writes as a number: a finite binary64
    value. *)
Definition finiteNumber (x : number) : Prop :=
  isFinite x = true /\ valid_binary prec emax x = true.

(** The Number a saved Number is read back as: [JSON.stringify] writes
    both zeros as [0]. *)
Definition readBack (x : number) : number :=
  match x with
  | S754_zero _ => S754_zero false
  | _ => x
  end.

Definition readBackRecord (tx : Transaction) : Transaction :=
  {| id := id tx; amount := readBack (amount tx);
     description := description tx; date := date tx; type := type tx |}.

(** Two records with the same fields, the amounts compared with [===]. *)
Definition sameRecord (a b : Transaction) : Prop :=
  id a = id b /\ strict_eq (amount a) (amount b) = true
  /\ description a = description b /\ date a = date b /\ type a = type b.

Definition recordTexts (l : list Transaction) : list jsstring :=
  List.map JSON_stringify (List.map toJS l).

(** The record a command adds when it is accepted. *)
Definition recordOf (c : Command) : list Transaction :=
  match c with
  | Add env a d t =>
      [ {| id := randomUUID env; amount := parseFloat a; description := d;
           date := nowISOString env; type := t |} ]
  | Delete _ _ => []
  end.

(** An [add] with valid inputs: the description is not blank, the amount
    parses, and the date the browser supplies is a date. *)
Definition validAdd (getTime : jsstring -> option Z) (c : Command) : Prop :=
  match c with
  | Add env a d t =>
      trim d <> [] /\ isNaN (parseFloat a) = false
      /\ getTime (nowISOString env) <> None
  | Delete _ _ => False
  end.

(** The id that each [add] of the run draws is not in the collection at
    that moment. *)
Fixpoint freshIds (getTime : jsstring -> option Z) (cs : list Command)
    (st : AppState) : Prop :=
  match cs with
  | [] => True
  | c :: cs' =>
      match c with
      | Add env _ _ _ => ~ In (randomUUID env) (List.map id (transactions st))
      | Delete _ _ => True
      end
      /\ freshIds getTime cs' (step getTime st c)
  end.

(** ** Sample ledgers used in the examples below *)

(** The time value of a date in the form [toISOString] writes,
    [YYYY-MM-DDTHH:mm:ss.sssZ], with the month in 01-12, the day in 01-31,
    the hour in 00-23 and the minute and the second in 00-59.  Every other
    string is taken as an invalid date here, although engines read more
    than this form (a date alone, a time without milliseconds, the hour
    24:00:00.000). *)
Definition isoTimeValue (s : jsstring) : option Z :=
  match s with
  | [y1; y2; y3; y4; 45; m1; m2; 45; d1; d2; 84;
     h1; h2; 58; n1; n2; 58; s1; s2; 46; f1; f2; f3; 90]%N =>
      if forallb isDigit
           [y1; y2; y3; y4; m1; m2; d1; d2; h1; h2; n1; n2; s1; s2; f1; f2; f3]
      then
        let y := digitsValue [y1; y2; y3; y4] in
        let m := digitsValue [m1; m2] in
        let d := digitsValue [d1; d2] in
        let y' := (if m <=? 2 then y - 1 else y)%Z in
        let era := (y' / 400)%Z in
        let yoe := (y' - era * 400)%Z in
        let doy :=
          ((153 * (if m <=? 2 then m + 9 else m - 3) + 2) / 5 + d - 1)%Z in
        let doe := (yoe * 365 + yoe / 4 - yoe / 100 + doy)%Z in
        let days := (era * 146097 + doe - 719468)%Z in
        if ((1 <=? m) && (m <=? 12) && (1 <=? d) && (d <=? 31)
            && (digitsValue [h1; h2] <=? 23)
            && (digitsValue [n1; n2] <=? 59)
            && (digitsValue [s1; s2] <=? 59))%Z
        then
          Some
            (((days * 24 + digitsValue [h1; h2]) * 60 + digitsValue [n1; n2])
               * 60000
             + digitsValue [s1; s2] * 1000 + digitsValue [f1; f2; f3])%Z
        else None
      else None
  | _ => None
  end.

Definition sampleTx (id0 amount0 description0 date0 : string)
    (t : TransactionType) : Transaction :=
  {| id := str id0;
     amount := parseFloat (str amount0);
     description := str description0;
     date := str date0;
     type := t |}.

Definition gift : Transaction :=
  sampleTx "id-1" "200" "Gift" "2024-03-01T10:00:00.000Z" MyMoney.

Definition spent : Transaction :=
  sampleTx "id-2" "-50" "Spent" "2024-03-02T09:30:00.000Z" DadsDebt.

Definition tenth : Transaction :=
  sampleTx "id-3" "0.1" "a" "2024-03-03T00:00:00.000Z" MyMoney.

Definition fifth : Transaction :=
  sampleTx "id-4" "0.2" "b" "2024-03-02T00:00:00.000Z" MyMoney.

Definition threeTenths : Transaction :=
  sampleTx "id-5" "0.3" "c" "2024-03-01T00:00:00.000Z" MyMoney.

Definition emptyForm (l : list Transaction) : AppState :=
  {| transactions := l; newAmount := []; newDescription := [];
     newType := MyMoney |}.

Definition sampleEnv (id0 date0 : string) : Env :=
  {| randomUUID := str id0; nowISOString := str date0 |}.

(** Two submits in the same millisecond, then a delete. *)
Definition sampleAdds : list Command :=
  [ Add (sampleEnv "id-6" "2024-03-05T08:00:00.000Z")
      (str "12.5") (str "Book") MyMoney;
    Add (sampleEnv "id-7" "2024-03-05T08:00:00.000Z")
      (str "-3") (str "Bus") DadsDebt ].

Definition sampleRun : list Command :=
  sampleAdds ++ [Delete true (str "id-1")].

(** ** The amount field (line 160)

    [newAmount] is set by the [onChange] of an [<input type="number">],
    with the [value] of the field, and by nothing else but the two [''] of
    lines 82 and 107.  The value of such a field is the text entered when
    that text is a valid floating-point number of HTML which converts to a
    Number without error, and the empty string otherwise. *)

(** The rules for parsing floating-point number values of HTML, on a
    valid floating-point number: an optional [-]; digits, or digits and a
    [.] with digits after it, or a [.] with digits after it; then
    optionally [e] or [E], an optional sign and digits; and nothing more.
    The conversion is an error when the value rounds to an infinity.
    [None] stands for a text that is not valid and for that error. *)
Definition floatingPointNumber (s : jsstring) : option number :=
  let '(neg, s0) := spanMinus s in
  let '(ip, s1) := spanDigits s0 in
  match parseFraction s1 with
  | Some (fp, s2) =>
      match parseExponent s2 with
      | Some (E, []) =>
          match ip, fp with
          | [], [] => None
          | _, _ =>
              let x :=
                decimal_to_number neg (digitsValue (ip ++ fp))
                  (E - Z.of_nat (List.length fp)) in
              if isFinite x then Some x else None
          end
      | _ => None
      end
  | None => None
  end.

(** [e.target.value] of the amount field when the user has entered
    [typed]. *)
Definition numberFieldValue (typed : jsstring) : jsstring :=
  match floatingPointNumber typed with
  | Some _ => typed
  | None => []
  end.

(** ** The rest of the component: the first render, deleting, the lists

    *** The effect after the first render and after a delete *)

(** The state of the first render, [l] being the collection the
    initializer yields (lines 72-84), and the first run of the effect
    (lines 86-88), which writes that collection. *)
Definition mount (l : list Transaction) : World :=
  {| state :=
       {| transactions := l; newAmount := []; newDescription := [];
          newType := MyMoney |};
     setItemCalls := [savedText l] |}.

(** The [onChange] handlers of the form (lines 156, 160 and 164): they
    set the three form cells and leave [transactions], so that the effect
    does not run. *)
Definition typeIn (amount0 description0 : jsstring) (t : TransactionType)
    (w : World) : World :=
  {| state := fillForm amount0 description0 t (state w);
     setItemCalls := setItemCalls w |}.

(** A click on a delete button followed by the render it causes.  When
    the user confirms, [setTransactions] is given the array that [filter]
    builds, which is a new array also when it holds the same records, so
    the effect runs and writes. *)
Definition pressDelete (confirmed : bool) (id0 : jsstring) (w : World)
  : World :=
  if confirmed
  then
    let next := fst (handleDeleteTransaction confirmed id0 (state w)) in
    {| state := next;
       setItemCalls := savedText (transactions next) :: setItemCalls w |}
  else w.

Definition dispatch (getTime : jsstring -> option Z) (w : World)
    (c : Command) : World :=
  match c with
  | Add env a d t => submit getTime env (typeIn a d t w)
  | Delete confirmed id0 => pressDelete confirmed id0 w
  end.

Definition runWorld (getTime : jsstring -> option Z) (cs : list Command)
    (w : World) : World :=
  fold_left (dispatch getTime) cs w.

(** The slot holds the text of the collection the component holds. *)
Definition written (w : World) : Prop :=
  exists older,
    setItemCalls w = savedText (transactions (state w)) :: older.

(** Whether a command sets [transactions]: a submit that passes the guard
    of line 93, a delete that is confirmed. *)
Definition commits (c : Command) : bool :=
  match c with
  | Add _ a d _ => truthy (trim d) && negb (isNaN (parseFloat a))
  | Delete confirmed _ => confirmed
  end.

(** What [JSON.parse] reads where [JSON.stringify] wrote a Number: the
    Number for a finite one, and [null] for an infinity or NaN, which are
    written as [null]. *)
Definition loadedAmount (x : number) : JSValue :=
  if isFinite x then JNumber (readBack x) else JNull.

Definition loadedRecord (tx : Transaction) : JSValue :=
  JObject
    [ (str "id", JString (id tx));
      (str "amount", loadedAmount (amount tx));
      (str "description", JString (description tx));
      (str "date", JString (date tx));
      (str "type", JString (TransactionType_value (type tx))) ].

(** A record dated at [tn] or later, and one dated before [tn]; both
    ask for a date that can be read. *)
Definition notOlderThan (getTime : jsstring -> option Z) (tn : Z)
    (tx : Transaction) : Prop :=
  exists t, getTime (date tx) = Some t /\ (tn <= t)%Z.

Definition olderThan (getTime : jsstring -> option Z) (tn : Z)
    (tx : Transaction) : Prop :=
  exists t, getTime (date tx) = Some t /\ (t < tn)%Z.

(** *** [TransactionList] (lines 37-67) *)

(** [x >= 0] on Numbers. *)
Definition geZero (x : number) : bool := SFleb (S754_zero false) x.

(** What one row shows, and the id its button hands to [onDelete]. *)
Record Row : Type := mkRow {
  key : jsstring;
  rowDescription : jsstring;
  rowDate : jsstring;
  amountClassName : jsstring;
  rowAmount : jsstring;
  deleteId : jsstring
}.

(** The body of a list: its rows, or the line that says there are no
    transactions yet. *)
Inductive ListBody : Type :=
  | Rows (rows : list Row)
  | NoTransactions.

Section View.

(** [new Intl.NumberFormat('he-IL', { style: 'currency', currency: 'ILS'
    }).format(x)] and [new Date(s).toLocaleDateString('he-IL')]: the
    locale data is the engine's, so the two are parameters of the view. *)
Variable formatCurrency : number -> jsstring.
Variable toLocaleDateString : jsstring -> jsstring.

Definition row (tx : Transaction) : Row :=
  {| key := id tx;
     rowDescription := description tx;
     rowDate := toLocaleDateString (date tx);
     amountClassName :=
       str "font-bold "
         ++ (if geZero (amount tx) then str "text-green-500"
             else str "text-red-500");
     rowAmount := formatCurrency (amount tx);
     deleteId := id tx |}.

Definition TransactionList (transactions0 : list Transaction) : ListBody :=
  if (0 <? List.length transactions0)%nat
  then Rows (List.map row transactions0)
  else NoTransactions.

(** The rows of a body. *)
Definition rowsOf (b : ListBody) : list Row :=
  match b with
  | Rows rows => rows
  | NoTransactions => []
  end.

End View.

(** * Properties *)

(** ** Lists *)

Section ListFacts.
Variable A : Type.

Lemma subsequence_refl : forall l : list A, subsequence l l.
Proof. induction l; constructor; assumption. Qed.

Lemma subsequence_filter :
  forall (f : A -> bool) (l : list A), subsequence (filter f l) l.
Proof.
  intros f l; induction l as [|x l IH]; simpl.
  - constructor.
  - destruct (f x); constructor; exact IH.
Qed.

Lemma filter_all :
  forall (f : A -> bool) (l : list A),
    (forall x, In x l -> f x = true) -> filter f l = l.
Proof.
  intros f l; induction l as [|x l IH]; simpl; intros H.
  - reflexivity.
  - rewrite (H x (or_introl eq_refl)), IH; auto.
Qed.

Lemma filter_none :
  forall (f : A -> bool) (l : list A),
    (forall x, In x l -> f x = false) -> filter f l = [].
Proof.
  intros f l; induction l as [|x l IH]; simpl; intros H.
  - reflexivity.
  - rewrite (H x (or_introl eq_refl)); auto.
Qed.

Lemma filter_length_lt :
  forall (f : A -> bool) (l : list A) (x : A),
    In x l -> f x = false -> (List.length (filter f l) < List.length l)%nat.
Proof.
  intros f l x; induction l as [|y l IH]; simpl; intros Hin Hx.
  - contradiction.
  - pose proof (filter_length_le f l) as Hle.
    destruct Hin as [-> | Hin].
    + rewrite Hx; lia.
    + specialize (IH Hin Hx). destruct (f y); simpl; lia.
Qed.
End ListFacts.

(** ** The sort *)

Section SortFacts.
Variable T : Type.
Variable comparefn : T -> T -> option Z.

Lemma insert_perm :
  forall (x : T) (l : list T), Permutation (insert comparefn x l) (x :: l).
Proof.
  intros x l; induction l as [|y l IH]; simpl.
  - apply Permutation_refl.
  - destruct (sortsAfter comparefn x y).
    + eapply perm_trans; [apply perm_skip, IH | apply perm_swap].
    + apply Permutation_refl.
Qed.

Lemma sort_perm : forall l : list T, Permutation (sort comparefn l) l.
Proof.
  induction l as [|x l IH]; simpl.
  - constructor.
  - eapply perm_trans; [apply insert_perm | apply perm_skip, IH].
Qed.
End SortFacts.

Section DateOrder.
Variable getTime : jsstring -> option Z.

Local Abbreviation cmp := (compareDates getTime).

Lemma sortsAfter_dates :
  forall a b,
    sortsAfter cmp a b = true <->
    exists ta tb,
      getTime (date a) = Some ta /\ getTime (date b) = Some tb /\ (ta < tb)%Z.
Proof.
  intros a b; unfold sortsAfter, compareDates.
  destruct (getTime (date b)) as [tb|], (getTime (date a)) as [ta|];
    split; try discriminate.
  - intros H; apply Z.ltb_lt in H; exists ta, tb; repeat split; lia.
  - intros (ta' & tb' & Ha & Hb & Hlt); inversion Ha; inversion Hb; subst.
    apply Z.ltb_lt; lia.
  - intros (ta' & tb' & Ha & _); discriminate.
  - intros (ta' & tb' & _ & Hb & _); discriminate.
  - intros (ta' & tb' & Ha & _); discriminate.
Qed.

Lemma newerOrSame_trans :
  forall a b c,
    newerOrSame getTime a b -> newerOrSame getTime b c ->
    newerOrSame getTime a c.
Proof.
  unfold newerOrSame; intros a b c.
  destruct (getTime (date a)), (getTime (date b)), (getTime (date c));
    try tauto; lia.
Qed.

Lemma insert_sorted :
  forall x l,
    validDate getTime x -> sortedByDateDesc getTime l ->
    sortedByDateDesc getTime (insert cmp x l).
Proof.
  intros x l Hx [Hv Hs]; split.
  - eapply Permutation_Forall;
      [apply Permutation_sym, insert_perm | constructor; assumption].
  - induction Hs as [|y l Hs IH Hy]; simpl.
    + repeat constructor.
    + inversion Hv as [|? ? Hvy Hvl]; subst.
      destruct (sortsAfter cmp x y) eqn:E.
      * constructor; [apply IH, Hvl|].
        eapply Permutation_Forall;
          [apply Permutation_sym, insert_perm|].
        constructor; [|exact Hy].
        apply sortsAfter_dates in E; destruct E as (ta & tb & Ha & Hb & Hlt).
        unfold newerOrSame; rewrite Ha, Hb; lia.
      * assert (Hxy : newerOrSame getTime x y).
        { unfold newerOrSame, validDate in *.
          destruct (getTime (date x)) as [tx|] eqn:Ex; [|congruence].
          destruct (getTime (date y)) as [ty|] eqn:Ey; [|congruence].
          destruct (Z_lt_le_dec tx ty) as [Hlt|Hle]; [|exact Hle].
          assert (sortsAfter cmp x y = true) as E'
            by (apply sortsAfter_dates; eauto).
          congruence. }
        constructor; [constructor; assumption|].
        constructor; [exact Hxy|].
        eapply Forall_impl; [|exact Hy].
        intros z Hz; eapply newerOrSame_trans; eassumption.
Qed.

(** Whatever the order of the input, the sort of records with valid
    dates is sorted, newest first. *)
Lemma sort_sorted :
  forall l,
    Forall (validDate getTime) l -> sortedByDateDesc getTime (sort cmp l).
Proof.
  induction 1 as [|x l Hx Hl IH]; simpl.
  - split; constructor.
  - apply insert_sorted; assumption.
Qed.

Lemma insert_datedAt :
  forall t x l,
    datedAt getTime t (insert cmp x l) = datedAt getTime t (x :: l).
Proof.
  intros t x l; induction l as [|y l IH].
  - reflexivity.
  - simpl insert. destruct (sortsAfter cmp x y) eqn:E; [|reflexivity].
    apply sortsAfter_dates in E; destruct E as (ta & tb & Ha & Hb & Hlt).
    unfold datedAt in *; simpl in *. rewrite IH, Ha, Hb.
    destruct (Z.eqb_spec tb t), (Z.eqb_spec ta t); try reflexivity; lia.
Qed.

Lemma datedAt_app :
  forall t l l',
    datedAt getTime t (l ++ l')
    = datedAt getTime t l ++ datedAt getTime t l'.
Proof. intros; apply filter_app. Qed.

(** Stability: the records of one date keep their order. *)
Lemma sort_datedAt :
  forall t l, datedAt getTime t (sort cmp l) = datedAt getTime t l.
Proof.
  intros t l; induction l as [|x l IH]; simpl.
  - reflexivity.
  - rewrite insert_datedAt; unfold datedAt in *; simpl; rewrite IH.
    reflexivity.
Qed.
End DateOrder.

(** ** Addition of Numbers *)

Lemma Number_add_comm : forall x y : number, Number_add x y = Number_add y x.
Proof.
  intros x y; unfold Number_add.
  destruct x as [sx|sx| |sx mx ex], y as [sy|sy| |sy my ey];
    try reflexivity;
    try (destruct sx, sy; reflexivity).
  unfold SFadd. rewrite (Z.min_comm ey ex). f_equal. apply Z.add_comm.
Qed.

Lemma Number_add_zero_l :
  forall x : number,
    Number_add (S754_zero false) x
    = match x with S754_zero _ => S754_zero false | _ => x end.
Proof. intros [[|]|s| |s m e]; reflexivity. Qed.

(** Adding two amounts to [0] in either order gives the same Number. *)
Lemma Number_add_first_two :
  forall a b : number,
    Number_add (Number_add (S754_zero false) a) b
    = Number_add (Number_add (S754_zero false) b) a.
Proof.
  intros a b; rewrite !Number_add_zero_l.
  destruct a as [sa|sa| |sa ma ea], b as [sb|sb| |sb mb eb];
    try reflexivity;
    try (destruct sa; reflexivity);
    try (destruct sb; reflexivity);
    try (destruct sa, sb; reflexivity).
  apply Number_add_comm.
Qed.

(** ** The derived lists and totals *)

Lemma type_eqb_eq : forall a b, type_eqb a b = true <-> a = b.
Proof. intros [|] [|]; simpl; split; congruence. Qed.

Lemma type_eqb_neq : forall a b, type_eqb a b = false <-> a <> b.
Proof. intros [|] [|]; simpl; split; congruence. Qed.

Lemma byType_In :
  forall s t tx, In tx (byType s t) <-> In tx s /\ type tx = t.
Proof.
  intros s t tx; unfold byType; rewrite filter_In, type_eqb_eq; tauto.
Qed.

Lemma byType_app :
  forall s s' t, byType (s ++ s') t = byType s t ++ byType s' t.
Proof. intros; apply filter_app. Qed.

Lemma reduce_from_acc :
  forall t s acc,
    fold_left (fun sum tx => Number_add sum (amount tx)) (byType s t) acc
    = sumOfType t s acc.
Proof.
  intros t s; induction s as [|tx s IH]; intros acc; simpl.
  - reflexivity.
  - destruct (type_eqb (type tx) t); simpl; apply IH.
Qed.

(** C1. [totalFor(snapshot, T)] is the sum of the amounts of exactly the
    records of type [T]: it is the running sum that starts at [0] and
    takes the amount of each record of type [T] in turn, so a record of
    type [T] appended to the snapshot adds its amount to the total and a
    record of the other type leaves the total as it is; on the empty
    snapshot, and on a snapshot without a record of type [T], it is [0].
    The two totals of the page are [totalFor] at the two types. *)
Theorem totalFor_sums_matching_records :
  forall (snapshot : list Transaction) (T : TransactionType),
    totalFor snapshot T = sumOfType T snapshot (S754_zero false)
    /\ (forall tx,
          totalFor (snapshot ++ [tx]) T
          = if type_eqb (type tx) T
            then Number_add (totalFor snapshot T) (amount tx)
            else totalFor snapshot T)
    /\ totalFor [] T = S754_zero false
    /\ ((forall tx, In tx snapshot -> type tx <> T) ->
        totalFor snapshot T = S754_zero false)
    /\ myMoneyTotal snapshot = totalFor snapshot MyMoney
    /\ dadsDebtTotal snapshot = totalFor snapshot DadsDebt.
Proof.
  intros snapshot T.
  split; [|split; [|split; [|split; [|split]]]]; try reflexivity.
  - unfold totalFor, reduce_sum; apply reduce_from_acc.
  - intros tx; unfold totalFor, reduce_sum.
    rewrite byType_app, fold_left_app; simpl.
    destruct (type_eqb (type tx) T); reflexivity.
  - intros H; unfold totalFor, byType.
    rewrite filter_none; [reflexivity|].
    intros tx Hin; apply type_eqb_neq, H, Hin.
Qed.

Lemma totalFor_sums_matching_records_witness :
  totalFor [gift; spent] MyMoney = parseFloat (str "200")
  /\ totalFor [gift; spent] DadsDebt = parseFloat (str "-50")
  /\ totalFor [spent] MyMoney = S754_zero false.
Proof.
  split; [vm_compute; reflexivity | split; [vm_compute; reflexivity |]].
  destruct (totalFor_sums_matching_records [spent] MyMoney)
    as (_ & _ & _ & H & _).
  apply H; intros tx [<- | []]; discriminate.
Defined.

(** C6. For every snapshot the two filtered lists are disjoint, each is a
    subsequence of the snapshot (it keeps the snapshot's order), and a
    record is in the snapshot exactly when it is in one of the two; the
    two lists together are a rearrangement of the snapshot. *)
Theorem byType_partition :
  forall s : list Transaction,
    (forall tx, In tx (byType s MyMoney) -> ~ In tx (byType s DadsDebt))
    /\ subsequence (byType s MyMoney) s
    /\ subsequence (byType s DadsDebt) s
    /\ (forall tx,
          In tx s <-> In tx (byType s MyMoney) \/ In tx (byType s DadsDebt))
    /\ Permutation (byType s MyMoney ++ byType s DadsDebt) s.
Proof.
  intros s; split; [|split; [|split; [|split; [split|]]]].
  - intros tx H1 H2; apply byType_In in H1, H2.
    destruct H1 as [_ H1], H2 as [_ H2]; congruence.
  - apply subsequence_filter.
  - apply subsequence_filter.
  - intros Hin; destruct (type tx) eqn:E; [left|right];
      apply byType_In; auto.
  - intros [H|H]; apply byType_In in H; tauto.
  - induction s as [|tx s IH]; simpl; [constructor|].
    destruct (type tx); simpl.
    + apply perm_skip, IH.
    + apply Permutation_sym, Permutation_cons_app, Permutation_sym, IH.
Qed.

Lemma byType_partition_witness :
  byType [gift; spent; tenth] MyMoney = [gift; tenth]
  /\ byType [gift; spent; tenth] DadsDebt = [spent]
  /\ ~ In gift (byType [gift; spent; tenth] DadsDebt).
Proof.
  split; [reflexivity | split; [reflexivity |]].
  destruct (byType_partition [gift; spent; tenth]) as (H & _).
  apply H; left; reflexivity.
Defined.

(** C9, as stated, fails: the amounts 0.1, 0.2 and 0.3 add up to
    0.6000000000000001 in this order and to 0.6 in the reverse order. *)
Lemma totalFor_changes_under_permutation :
  Permutation [tenth; fifth; threeTenths] [threeTenths; fifth; tenth]
  /\ Number_toString (totalFor [tenth; fifth; threeTenths] MyMoney)
     = str "0.6000000000000001"
  /\ Number_toString (totalFor [threeTenths; fifth; tenth] MyMoney)
     = str "0.6"
  /\ totalFor [tenth; fifth; threeTenths] MyMoney
     <> totalFor [threeTenths; fifth; tenth] MyMoney.
Proof.
  split; [|split; [|split]].
  - change [threeTenths; fifth; tenth] with (rev [tenth; fifth; threeTenths]).
    apply Permutation_rev.
  - vm_compute; reflexivity.
  - vm_compute; reflexivity.
  - vm_compute; discriminate.
Qed.

(** C9, amended. [totalFor] adds the amounts of the records of type [T]
    to [0] one at a time, in the order of the snapshot, each step being one
    binary64 addition.  The total therefore does not change under a
    permutation that keeps the records of type [T] in their relative
    order, nor when the first two records are exchanged. *)
Theorem totalFor_order_independence :
  forall (T : TransactionType) (s s' : list Transaction),
    (Permutation s s' -> byType s T = byType s' T ->
     totalFor s T = totalFor s' T)
    /\ (forall a b,
          totalFor (a :: b :: s) T = totalFor (b :: a :: s) T)
    /\ (forall tx,
          type tx = T ->
          totalFor (s ++ [tx]) T = Number_add (totalFor s T) (amount tx)).
Proof.
  intros T s s'; split; [|split].
  - intros _ H; unfold totalFor; rewrite H; reflexivity.
  - intros a b; unfold totalFor, reduce_sum, byType; cbn [filter].
    destruct (type_eqb (type a) T), (type_eqb (type b) T);
      cbn [fold_left]; try reflexivity.
    rewrite Number_add_first_two; reflexivity.
  - intros tx H; unfold totalFor, reduce_sum.
    rewrite byType_app, fold_left_app; simpl.
    apply type_eqb_eq in H; rewrite H; reflexivity.
Qed.

Lemma totalFor_order_independence_witness :
  totalFor [gift; spent; tenth] MyMoney = totalFor [spent; gift; tenth] MyMoney
  /\ totalFor [tenth; fifth; threeTenths] MyMoney
     = totalFor [fifth; tenth; threeTenths] MyMoney.
Proof.
  split.
  - destruct (totalFor_order_independence MyMoney
                [gift; spent; tenth] [spent; gift; tenth]) as (H & _).
    apply H; [apply perm_swap | reflexivity].
  - destruct (totalFor_order_independence MyMoney [threeTenths] [])
      as (_ & H & _).
    apply H.
Defined.

(** ** Deleting *)

Lemma jsstring_eqb_eq : forall a b, jsstring_eqb a b = true <-> a = b.
Proof.
  induction a as [|x a IH]; intros [|y b]; simpl;
    try (split; [discriminate | congruence]).
  - tauto.
  - rewrite andb_true_iff, N.eqb_eq, IH; split.
    + intros [-> ->]; reflexivity.
    + intros H; inversion H; auto.
Qed.

Lemma jsstring_eqb_neq : forall a b, jsstring_eqb a b = false <-> a <> b.
Proof.
  intros a b; rewrite <- jsstring_eqb_eq.
  destruct (jsstring_eqb a b); split; congruence.
Qed.

Lemma appState_eta :
  forall st,
    {| transactions := transactions st; newAmount := newAmount st;
       newDescription := newDescription st; newType := newType st |} = st.
Proof. intros []; reflexivity. Qed.

(** C4, as stated, fails twice over: the handler evaluates to
    [undefined], never to [true] or [false], also when it removes a
    record; and it removes nothing, although the id is present, when the
    user declines the prompt. *)
Lemma delete_returns_no_boolean_and_needs_consent :
  handleDeleteTransaction true (str "id-1") (emptyForm [gift; spent])
  = (emptyForm [spent], undefined)
  /\ snd (handleDeleteTransaction true (str "id-1") (emptyForm [gift; spent]))
     <> boolean true
  /\ snd (handleDeleteTransaction true (str "none") (emptyForm [gift; spent]))
     <> boolean false
  /\ handleDeleteTransaction false (str "id-1") (emptyForm [gift; spent])
     = (emptyForm [gift; spent], undefined).
Proof.
  split; [vm_compute; reflexivity|].
  split; [vm_compute; discriminate|].
  split; [vm_compute; discriminate|].
  vm_compute; reflexivity.
Qed.

(** C4, amended.  When the user confirms, [delete(id)] keeps exactly the
    records whose id differs from [id], in their order; when no record has
    that id, and when the user declines, the state is left as it is.  The
    handler evaluates to [undefined]; that a record was removed shows in
    the collection, which changes exactly when the user confirmed and a
    record had the id. *)
Theorem handleDeleteTransaction_removes_matching :
  forall (confirmed : bool) (id0 : jsstring) (st : AppState),
    let after := fst (handleDeleteTransaction confirmed id0 st) in
    snd (handleDeleteTransaction confirmed id0 st) = undefined
    /\ (confirmed = true ->
        (forall tx,
           In tx (transactions after) <->
           In tx (transactions st) /\ id tx <> id0)
        /\ subsequence (transactions after) (transactions st))
    /\ ((forall tx, In tx (transactions st) -> id tx <> id0) -> after = st)
    /\ (confirmed = false -> after = st)
    /\ (transactions after <> transactions st <->
        confirmed = true /\ exists tx, In tx (transactions st) /\ id tx = id0).
Proof.
  intros confirmed id0 st after; subst after.
  split; [reflexivity|].
  split; [|split; [|split]].
  - intros ->; simpl; split.
    + intros tx; rewrite filter_In, negb_true_iff, jsstring_eqb_neq; tauto.
    + apply subsequence_filter.
  - intros H; destruct confirmed; simpl; [|reflexivity].
    rewrite filter_all; [apply appState_eta|].
    intros tx Hin; apply negb_true_iff, jsstring_eqb_neq, H, Hin.
  - intros ->; reflexivity.
  - destruct confirmed; simpl.
    + split.
      * intros Hne; split; [reflexivity|].
        destruct (existsb (fun tx => jsstring_eqb (id tx) id0)
                    (transactions st)) eqn:E.
        -- apply existsb_exists in E; destruct E as (tx & Hin & He).
           exists tx; split; [exact Hin | apply jsstring_eqb_eq, He].
        -- exfalso; apply Hne, filter_all.
           intros tx Hin; apply negb_true_iff.
           destruct (jsstring_eqb (id tx) id0) eqn:He; [|reflexivity].
           rewrite <- E; symmetry; apply existsb_exists; eauto.
      * intros (_ & tx & Hin & He) Heq.
        assert (Hlt := filter_length_lt
                         (fun tx => negb (jsstring_eqb (id tx) id0))
                         (transactions st) tx Hin).
        rewrite Heq in Hlt.
        assert (jsstring_eqb (id tx) id0 = true) as Hb
          by (apply jsstring_eqb_eq, He).
        rewrite Hb in Hlt; specialize (Hlt eq_refl); lia.
    + split; [intros H; contradiction H; reflexivity|].
      intros [H _]; discriminate.
Qed.

Lemma handleDeleteTransaction_removes_matching_witness :
  fst (handleDeleteTransaction true (str "none") (emptyForm [gift; spent]))
  = emptyForm [gift; spent]
  /\ In spent
       (transactions
          (fst (handleDeleteTransaction true (str "id-1")
                  (emptyForm [gift; spent])))).
Proof.
  split.
  - destruct (handleDeleteTransaction_removes_matching
                true (str "none") (emptyForm [gift; spent]))
      as (_ & _ & H & _).
    apply H; intros tx [<- | [<- | []]]; vm_compute; discriminate.
  - destruct (handleDeleteTransaction_removes_matching
                true (str "id-1") (emptyForm [gift; spent]))
      as (_ & H & _).
    destruct (H eq_refl) as [H' _]; apply H'.
    split; [right; left; reflexivity | vm_compute; discriminate].
Defined.

Unset Implicit Arguments.

(** *** What a stable sort yields is determined *)

Section StableSortUnique.
Variable getTime : jsstring -> option Z.

Lemma datedAt_head :
  forall x l t,
    getTime (date x) = Some t ->
    datedAt getTime t (x :: l) = x :: datedAt getTime t l.
Proof.
  intros x l t H; unfold datedAt; simpl. rewrite H, Z.eqb_refl. reflexivity.
Qed.

Lemma datedAt_skip :
  forall x l t t',
    getTime (date x) = Some t -> t <> t' ->
    datedAt getTime t' (x :: l) = datedAt getTime t' l.
Proof.
  intros x l t t' H Hne; unfold datedAt; simpl. rewrite H.
  destruct (Z.eqb_spec t t'); [contradiction | reflexivity].
Qed.

Lemma datedAt_In :
  forall t l x,
    In x (datedAt getTime t l) <-> In x l /\ getTime (date x) = Some t.
Proof.
  intros t l x; unfold datedAt; rewrite filter_In.
  destruct (getTime (date x)) as [t'|]; [|split; intros [_ H]; discriminate].
  rewrite Z.eqb_eq; split; intros [H1 H2]; split; congruence.
Qed.

(** Two lists sorted by date, newest first, in which the records of each
    date are the same and in the same order, are the same list. *)
Lemma sorted_stable_unique :
  forall r r',
    sortedByDateDesc getTime r -> sortedByDateDesc getTime r' ->
    (forall t, datedAt getTime t r = datedAt getTime t r') ->
    r = r'.
Proof.
  induction r as [|x r IH]; intros r' [Hv Hs] [Hv' Hs'] Hd.
  - destruct r' as [|y r']; [reflexivity|].
    inversion Hv' as [|? ? Hy _]; subst.
    unfold validDate in Hy.
    destruct (getTime (date y)) as [ty|] eqn:Ey; [|congruence].
    specialize (Hd ty). rewrite (datedAt_head y r' ty Ey) in Hd. discriminate.
  - inversion Hv as [|? ? Hx Hvr]; subst.
    inversion Hs as [|? ? Hsr Hxr]; subst.
    unfold validDate in Hx.
    destruct (getTime (date x)) as [tx|] eqn:Ex; [|congruence].
    destruct r' as [|y r'].
    { specialize (Hd tx). rewrite (datedAt_head x r tx Ex) in Hd.
      discriminate. }
    inversion Hv' as [|? ? Hy Hvr']; subst.
    inversion Hs' as [|? ? Hsr' Hyr']; subst.
    unfold validDate in Hy.
    destruct (getTime (date y)) as [ty|] eqn:Ey; [|congruence].
    assert (Hle1 : (ty <= tx)%Z).
    { assert (Hin : In y (x :: r)).
      { apply (datedAt_In ty (x :: r) y). rewrite Hd.
        apply datedAt_In; split; [left; reflexivity | exact Ey]. }
      destruct Hin as [<- | Hin]; [rewrite Ex in Ey; inversion Ey; lia|].
      rewrite Forall_forall in Hxr. specialize (Hxr y Hin).
      unfold newerOrSame in Hxr. rewrite Ex, Ey in Hxr. exact Hxr. }
    assert (Hle2 : (tx <= ty)%Z).
    { assert (Hin : In x (y :: r')).
      { apply (datedAt_In tx (y :: r') x). rewrite <- Hd.
        apply datedAt_In; split; [left; reflexivity | exact Ex]. }
      destruct Hin as [<- | Hin]; [rewrite Ex in Ey; inversion Ey; lia|].
      rewrite Forall_forall in Hyr'. specialize (Hyr' x Hin).
      unfold newerOrSame in Hyr'. rewrite Ex, Ey in Hyr'. exact Hyr'. }
    assert (ty = tx) by lia; subst ty.
    pose proof (Hd tx) as Hd0.
    rewrite (datedAt_head x r tx Ex), (datedAt_head y r' tx Ey) in Hd0.
    injection Hd0 as Hxy Hrest. subst y.
    f_equal. apply IH; [split; assumption | split; assumption |].
    intros t. destruct (Z.eq_dec tx t) as [<-|Hne]; [exact Hrest|].
    specialize (Hd t).
    rewrite (datedAt_skip x r tx t Ex Hne), (datedAt_skip x r' tx t Ey Hne)
      in Hd.
    exact Hd.
Qed.

(** So the list a stable sort yields does not depend on how the engine
    sorts: every rearrangement of records with valid dates that is sorted
    by date, newest first, and keeps the records of each date in their
    order is the one [sort] computes. *)
Lemma stable_sort_unique :
  forall l r,
    Forall (validDate getTime) l ->
    sortedByDateDesc getTime r ->
    (forall t, datedAt getTime t r = datedAt getTime t l) ->
    r = sort (compareDates getTime) l.
Proof.
  intros l r Hl Hr Hd.
  apply sorted_stable_unique; [exact Hr | apply sort_sorted, Hl |].
  intros t; rewrite Hd, sort_datedAt; reflexivity.
Qed.

End StableSortUnique.

(** ** Adding *)

Section AddFacts.
Variable getTime : jsstring -> option Z.

Lemma handleAddTransaction_cases :
  forall env st,
    (handleAddTransaction getTime env st = Alerted
     /\ (trim (newDescription st) = []
         \/ isNaN (parseFloat (newAmount st)) = true))
    \/ (handleAddTransaction getTime env st
        = Added
            {| transactions :=
                 sort (compareDates getTime)
                   (transactions st ++ [newTransaction env st]);
               newAmount := [];
               newDescription := [];
               newType := newType st |}
        /\ trim (newDescription st) <> []
        /\ isNaN (parseFloat (newAmount st)) = false).
Proof.
  intros env st; unfold handleAddTransaction.
  destruct (trim (newDescription st)) as [|c d] eqn:Ed; simpl.
  - left; auto.
  - destruct (isNaN (parseFloat (newAmount st))) eqn:En.
    + left; auto.
    + right; repeat split; congruence.
Qed.

Lemma added_transactions :
  forall env st next,
    handleAddTransaction getTime env st = Added next ->
    transactions next
    = sort (compareDates getTime) (transactions st ++ [newTransaction env st])
    /\ trim (newDescription st) <> []
    /\ isNaN (parseFloat (newAmount st)) = false.
Proof.
  intros env st next H.
  destruct (handleAddTransaction_cases env st) as [[E _] | (E & Hd & Hn)];
    rewrite E in H; [discriminate|].
  inversion H; subst; simpl; auto.
Qed.

Lemma added_permutation :
  forall env st next,
    handleAddTransaction getTime env st = Added next ->
    Permutation (transactions next) (newTransaction env st :: transactions st).
Proof.
  intros env st next H; apply added_transactions in H; destruct H as [-> _].
  eapply perm_trans; [apply sort_perm|].
  apply Permutation_sym, Permutation_cons_append.
Qed.

Lemma step_valid_add :
  forall st c,
    validAdd getTime c ->
    transactions (step getTime st c)
    = sort (compareDates getTime) (transactions st ++ recordOf c).
Proof.
  intros st [env a d t | confirmed id0]; simpl; [|contradiction].
  intros (Hd & Hn & _); unfold add.
  destruct (handleAddTransaction_cases env (fillForm a d t st))
    as [[_ [E | E]] | (E & _)]; simpl in *; try congruence.
  rewrite E; reflexivity.
Qed.

Lemma validDate_recordOf :
  forall c, validAdd getTime c -> Forall (validDate getTime) (recordOf c).
Proof.
  intros [env a d t | ? ?]; simpl; [|contradiction].
  intros (_ & _ & H); constructor; [exact H | constructor].
Qed.

(** X16. The order is set up anew by each accepted submit: whatever the order
    of the collection before, if its dates and the new one are valid the
    collection after is sorted by date, newest first. *)
Lemma add_sorts_whole_collection :
  forall env st next,
    Forall (validDate getTime) (transactions st) ->
    getTime (nowISOString env) <> None ->
    handleAddTransaction getTime env st = Added next ->
    sortedByDateDesc getTime (transactions next).
Proof.
  intros env st next Hv Hnow H.
  apply added_transactions in H; destruct H as [-> _].
  apply sort_sorted, Forall_app; split; [exact Hv|].
  constructor; [exact Hnow | constructor].
Qed.

(** C2. From a collection sorted by date, newest first, every sequence of
    [add] calls with valid inputs leaves a collection sorted by date,
    newest first; and the records of any one date stand in it in the order
    in which they were in the initial collection and then were added. *)
Theorem adds_keep_sorted_by_date :
  forall (cs : list Command) (st : AppState),
    sortedByDateDesc getTime (transactions st) ->
    Forall (validAdd getTime) cs ->
    sortedByDateDesc getTime (transactions (run getTime cs st))
    /\ forall t,
         datedAt getTime t (transactions (run getTime cs st))
         = datedAt getTime t (transactions st ++ flat_map recordOf cs).
Proof.
  induction cs as [|c cs IH]; intros st Hs Hv.
  - simpl; rewrite app_nil_r; auto.
  - inversion Hv as [|? ? Hc Hcs]; subst.
    assert (E := step_valid_add st c Hc).
    assert (Hs' : sortedByDateDesc getTime (transactions (step getTime st c))).
    { rewrite E; apply sort_sorted, Forall_app; split;
        [apply Hs | apply validDate_recordOf, Hc]. }
    destruct (IH (step getTime st c) Hs' Hcs) as [IH1 IH2].
    split; [exact IH1|].
    intros t; simpl; change (fold_left (step getTime) cs (step getTime st c))
      with (run getTime cs (step getTime st c)).
    rewrite IH2, E, !datedAt_app, sort_datedAt, datedAt_app, app_assoc.
    reflexivity.
Qed.

Lemma filter_map_NoDup :
  forall (f : Transaction -> bool) (l : list Transaction),
    NoDup (List.map id l) -> NoDup (List.map id (filter f l)).
Proof.
  intros f l; induction l as [|x l IH]; simpl; intros H.
  - constructor.
  - inversion H as [|? ? Hx Hl]; subst.
    destruct (f x); simpl; [|apply IH, Hl].
    constructor; [|apply IH, Hl].
    intros Hin; apply Hx.
    apply in_map_iff in Hin; destruct Hin as (y & Hy & Hin).
    apply in_map_iff; exists y; split; [exact Hy|].
    apply filter_In in Hin; tauto.
Qed.

Lemma step_keeps_ids_unique :
  forall st c,
    NoDup (List.map id (transactions st)) ->
    match c with
    | Add env _ _ _ => ~ In (randomUUID env) (List.map id (transactions st))
    | Delete _ _ => True
    end ->
    NoDup (List.map id (transactions (step getTime st c))).
Proof.
  intros st [env a d t | confirmed id0] Hnd Hfresh; simpl.
  - unfold add.
    destruct (handleAddTransaction getTime env (fillForm a d t st))
      as [|next] eqn:E; [exact Hnd|].
    apply added_permutation in E.
    eapply Permutation_NoDup;
      [apply Permutation_sym, Permutation_map, E|].
    simpl; constructor; assumption.
  - destruct confirmed; simpl; [|exact Hnd].
    apply filter_map_NoDup, Hnd.
Qed.

(** C5. When every id that [add] draws is different from the ids in the
    collection at that moment, a collection whose ids are pairwise
    different keeps them so through every sequence of [add] and [delete]
    operations. *)
Theorem ids_stay_unique :
  forall (cs : list Command) (st : AppState),
    NoDup (List.map id (transactions st)) ->
    freshIds getTime cs st ->
    NoDup (List.map id (transactions (run getTime cs st))).
Proof.
  induction cs as [|c cs IH]; intros st Hnd Hfresh; simpl.
  - exact Hnd.
  - destruct Hfresh as [Hc Hcs].
    apply IH; [apply step_keeps_ids_unique; assumption | exact Hcs].
Qed.

End AddFacts.

(** ** Examples of runs *)

Ltac decide_by_computation :=
  repeat match goal with
         | |- _ /\ _ => split
         | |- True => exact I
         | |- Forall _ _ => constructor
         | |- StronglySorted _ _ => constructor
         | |- ~ _ => let H := fresh in intro H; vm_compute in H
         | |- _ -> False => let H := fresh in intro H
         | |- _ <> _ => let H := fresh in intro H; vm_compute in H
         | H : _ \/ _ |- _ => destruct H
         | H : False |- _ => contradiction
         | H : _ = _ |- _ => discriminate H
         | |- _ = _ => vm_compute; reflexivity
         | |- validDate _ _ => unfold validDate
         | |- newerOrSame _ _ _ => vm_compute; discriminate
         | |- validAdd _ _ => unfold validAdd
         end.

Example sampleAdds_result :
  List.map id (transactions (run isoTimeValue sampleAdds (emptyForm [spent; gift])))
  = [str "id-6"; str "id-7"; str "id-2"; str "id-1"].
Proof. vm_compute; reflexivity. Qed.

Lemma adds_keep_sorted_by_date_witness :
  sortedByDateDesc isoTimeValue
    (transactions (run isoTimeValue sampleAdds (emptyForm [spent; gift]))).
Proof.
  apply (adds_keep_sorted_by_date isoTimeValue sampleAdds
           (emptyForm [spent; gift])).
  - unfold sortedByDateDesc; simpl; decide_by_computation.
  - unfold sampleAdds; decide_by_computation.
Defined.

Lemma ids_stay_unique_witness :
  NoDup
    (List.map id
       (transactions (run isoTimeValue sampleRun (emptyForm [spent; gift])))).
Proof.
  apply (ids_stay_unique isoTimeValue sampleRun (emptyForm [spent; gift])).
  - simpl; repeat constructor; decide_by_computation.
  - vm_compute; decide_by_computation.
Defined.

(** ** Validation *)

Lemma trimStart_nil :
  forall s, trimStart s = [] <-> forallb isWhiteSpace s = true.
Proof.
  induction s as [|c s IH]; simpl.
  - tauto.
  - destruct (isWhiteSpace c); simpl; [exact IH|].
    split; discriminate.
Qed.

Lemma trimStart_head :
  forall s c r, trimStart s = c :: r -> isWhiteSpace c = false.
Proof.
  induction s as [|d s IH]; simpl; intros c r H.
  - discriminate.
  - destruct (isWhiteSpace d) eqn:E; [eapply IH, H|].
    inversion H; subst; exact E.
Qed.

Lemma forallb_rev :
  forall (f : N -> bool) (l : list N), forallb f (rev l) = forallb f l.
Proof.
  intros f l; induction l as [|x l IH]; simpl.
  - reflexivity.
  - rewrite forallb_app, IH; simpl; rewrite andb_true_r; apply andb_comm.
Qed.

(** A string trims to the empty string exactly when all its code units
    are white space. *)
Lemma trim_nil :
  forall s, trim s = [] <-> forallb isWhiteSpace s = true.
Proof.
  intros s; unfold trim, trimEnd; split.
  - intros H.
    assert (H' : trimStart (rev (trimStart s)) = []).
    { destruct (trimStart (rev (trimStart s))) as [|c0 l0]; [reflexivity|].
      simpl in H; destruct (rev l0); discriminate. }
    apply trimStart_nil in H'; rewrite forallb_rev in H'.
    destruct (trimStart s) as [|c r] eqn:E; [apply trimStart_nil, E|].
    apply trimStart_head in E; simpl in H'; rewrite E in H'; discriminate.
  - intros H; apply trimStart_nil in H; rewrite H; reflexivity.
Qed.

(** The guard by itself lets an infinity through: a handler that found
    such a text in [newAmount] would accept it.  The amount field never
    holds one ([numberFieldValue_samples] below). *)
Lemma add_accepts_infinite_amount :
  isFinite (parseFloat (str "Infinity")) = false
  /\ isFinite (parseFloat (str "1e999")) = false
  /\ add isoTimeValue (sampleEnv "id-8" "2024-03-06T00:00:00.000Z")
       (str "Infinity") (str "Prize") MyMoney (emptyForm [])
     = Added
         (emptyForm
            [ {| id := str "id-8"; amount := S754_infinity false;
                 description := str "Prize";
                 date := str "2024-03-06T00:00:00.000Z"; type := MyMoney |} ])
  /\ add isoTimeValue (sampleEnv "id-8" "2024-03-06T00:00:00.000Z")
       (str "1e999") (str "Prize") MyMoney (emptyForm [])
     <> Alerted.
Proof.
  split; [reflexivity|].
  split; [vm_compute; reflexivity|].
  split; [vm_compute; reflexivity|].
  vm_compute; discriminate.
Qed.


(** C10. A submit whose description is not made of white space only and
    whose amount parses is accepted, and the record it adds carries the
    description exactly as it was entered, leading and trailing white
    space included; the other records are those of before. *)
Theorem add_stores_description_verbatim :
  forall (getTime : jsstring -> option Z) (env : Env)
         (amount0 description0 : jsstring) (t : TransactionType)
         (st : AppState),
    forallb isWhiteSpace description0 = false ->
    isNaN (parseFloat amount0) = false ->
    exists next created,
      add getTime env amount0 description0 t st = Added next
      /\ In created (transactions next)
      /\ id created = randomUUID env
      /\ description created = description0
      /\ Permutation (transactions next) (created :: transactions st).
Proof.
  intros getTime env a d t st Hd Hn; unfold add.
  destruct (handleAddTransaction_cases getTime env (fillForm a d t st))
    as [[_ [E | E]] | (E & _)]; simpl in E.
  - apply trim_nil in E; congruence.
  - congruence.
  - eexists; exists (newTransaction env (fillForm a d t st)).
    split; [exact E|].
    assert (P := added_permutation getTime env (fillForm a d t st) _ E).
    split; [|split; [reflexivity | split; [reflexivity | exact P]]].
    eapply Permutation_in; [apply Permutation_sym, P | left; reflexivity].
Qed.

Lemma add_stores_description_verbatim_witness :
  exists next created,
    add isoTimeValue (sampleEnv "id-8" "2024-03-06T00:00:00.000Z")
      (str "200") (str "  Gift  ") MyMoney (emptyForm [spent])
    = Added next
    /\ In created (transactions next)
    /\ id created = str "id-8"
    /\ description created = str "  Gift  "
    /\ Permutation (transactions next) (created :: [spent]).
Proof.
  apply (add_stores_description_verbatim isoTimeValue
           (sampleEnv "id-8" "2024-03-06T00:00:00.000Z")
           (str "200") (str "  Gift  ") MyMoney (emptyForm [spent]));
    vm_compute; reflexivity.
Defined.

(** ** Loading *)

(** C8, as stated, fails: a stored text that parses is returned as it was
    parsed, whatever its shape.  The text [[1]] yields an array that holds
    a number where a record is expected, the text [{}] yields an object,
    the text [null] yields [null]; none of them yields the empty
    collection. *)
Lemma load_returns_unvalidated_value :
  initialTransactions (Normal (Some (str "[1]")))
  = Normal (JArray [JNumber (parseFloat (str "1"))])
  /\ initialTransactions (Normal (Some (str "{}"))) = Normal (JObject [])
  /\ initialTransactions (Normal (Some (str "null"))) = Normal JNull
  /\ initialTransactions (Normal (Some (str "[1]"))) <> Normal (JArray []).
Proof.
  split; [vm_compute; reflexivity|].
  split; [vm_compute; reflexivity|].
  split; [vm_compute; reflexivity|].
  vm_compute; discriminate.
Qed.

(** C8, amended.  The initializer never completes abruptly.  It yields
    the empty collection when the slot is missing, when it holds the
    empty string, when it holds a text that [JSON.parse] rejects, and when
    reading the slot throws; a text that parses yields the parsed value,
    which is not checked against the shape of a record. *)
Theorem initialTransactions_recovers :
  forall getItem : completion (option jsstring),
    (exists v, initialTransactions getItem = Normal v)
    /\ (getItem = Throw \/ getItem = Normal None \/ getItem = Normal (Some []) ->
        initialTransactions getItem = Normal (JArray []))
    /\ (forall text,
          getItem = Normal (Some text) -> JSON_parse text = Throw ->
          initialTransactions getItem = Normal (JArray []))
    /\ (forall text v,
          getItem = Normal (Some text) -> text <> [] ->
          JSON_parse text = Normal v ->
          initialTransactions getItem = Normal v).
Proof.
  intros getItem; split; [|split; [|split]].
  - unfold initialTransactions, try_catch.
    destruct getItem as [[text|]|]; [|eexists; reflexivity..].
    destruct (truthy text); [|eexists; reflexivity].
    destruct (JSON_parse text); eexists; reflexivity.
  - intros [-> | [-> | ->]]; reflexivity.
  - intros text -> H; unfold initialTransactions.
    destruct (truthy text); [rewrite H|]; reflexivity.
  - intros text v -> Hne H; unfold initialTransactions.
    destruct text; [congruence|].
    cbn [truthy]; rewrite H; reflexivity.
Qed.

Lemma initialTransactions_recovers_witness :
  initialTransactions (Normal (Some (str "[{oops")))  = Normal (JArray [])
  /\ initialTransactions (Normal (Some (str "[]"))) = Normal (JArray []).
Proof.
  split.
  - destruct (initialTransactions_recovers (Normal (Some (str "[{oops"))))
      as (_ & _ & H & _).
    apply (H (str "[{oops")); [reflexivity | vm_compute; reflexivity].
  - destruct (initialTransactions_recovers (Normal (Some (str "[]"))))
      as (_ & _ & _ & H).
    apply (H (str "[]")); [reflexivity | discriminate | vm_compute; reflexivity].
Defined.

(** ** The text of a Number *)

Section NumberText.
Local Open Scope Z_scope.

(** *** Rounding a fraction to a Number *)

Lemma pow2_pos : forall n, 0 < 2 ^ n \/ (n < 0 /\ 2 ^ n = 0).
Proof.
  intros n; destruct (Z_lt_le_dec n 0) as [H|H].
  - right; split; [exact H | apply Z.pow_neg_r, H].
  - left; apply Z.pow_pos_nonneg; lia.
Qed.

Lemma pow2_le_shift :
  forall d P Q K,
    0 <= K -> 0 <= d + K ->
    (pow2_le d P Q = true <-> Q * 2 ^ (d + K) <= P * 2 ^ K).
Proof.
  intros d P Q K HK HdK; unfold pow2_le.
  assert (HX : 0 < 2 ^ K) by (apply Z.pow_pos_nonneg; lia).
  destruct (Z.leb_spec 0 d) as [Hd|Hd]; rewrite Z.leb_le.
  - rewrite Z.pow_add_r by lia.
    replace (Q * (2 ^ d * 2 ^ K)) with (Q * 2 ^ d * 2 ^ K) by ring.
    split; [apply Z.mul_le_mono_nonneg_r; lia|].
    apply Z.mul_le_mono_pos_r, HX.
  - assert (HY : 0 < 2 ^ (d + K)) by (apply Z.pow_pos_nonneg; lia).
    replace K with (- d + (d + K)) at 2 by ring.
    rewrite (Z.pow_add_r 2 (- d)) by lia.
    replace (P * (2 ^ (- d) * 2 ^ (d + K))) with (P * 2 ^ (- d) * 2 ^ (d + K))
      by ring.
    split; [apply Z.mul_le_mono_nonneg_r; lia|].
    apply Z.mul_le_mono_pos_r, HY.
Qed.

Lemma pow2_le_antitone :
  forall d d' P Q,
    0 < Q -> d <= d' -> pow2_le d' P Q = true -> pow2_le d P Q = true.
Proof.
  intros d d' P Q HQ Hle H.
  set (K := Z.abs d + Z.abs d').
  apply (pow2_le_shift d P Q K); [lia | lia |].
  apply (pow2_le_shift d' P Q K) in H; [|lia|lia].
  eapply Z.le_trans; [|exact H].
  apply Z.mul_le_mono_nonneg_l; [lia|].
  apply Z.pow_le_mono_r; lia.
Qed.

Lemma pow2_le_scale :
  forall c d P Q, 0 < c -> pow2_le d (c * P) (c * Q) = pow2_le d P Q.
Proof.
  intros c d P Q Hc; unfold pow2_le.
  destruct (0 <=? d).
  - replace (c * Q * 2 ^ d) with (c * (Q * 2 ^ d)) by ring.
    apply eq_true_iff_eq; rewrite !Z.leb_le.
    symmetry; apply Z.mul_le_mono_pos_l, Hc.
  - replace (c * P * 2 ^ (- d)) with (c * (P * 2 ^ (- d))) by ring.
    apply eq_true_iff_eq; rewrite !Z.leb_le.
    symmetry; apply Z.mul_le_mono_pos_l, Hc.
Qed.

Lemma binaryExponent_unique :
  forall d d' P Q,
    0 < Q -> binaryExponent d P Q -> binaryExponent d' P Q -> d = d'.
Proof.
  intros d d' P Q HQ [H1 H2] [H1' H2'].
  destruct (Z.lt_total d d') as [H|[H|H]]; [|exact H|].
  - rewrite (pow2_le_antitone (d + 1) d' P Q HQ) in H2; [discriminate|lia|exact H1'].
  - rewrite (pow2_le_antitone (d' + 1) d P Q HQ) in H2'; [discriminate|lia|exact H1].
Qed.

Lemma ilog2_frac_spec :
  forall P Q, 0 < P -> 0 < Q -> binaryExponent (ilog2_frac P Q) P Q.
Proof.
  intros P Q HP HQ; unfold ilog2_frac.
  destruct (Z.log2_spec P HP) as [Pa Pb].
  destruct (Z.log2_spec Q HQ) as [Qa Qb].
  pose proof (Z.log2_nonneg P) as Ha.
  pose proof (Z.log2_nonneg Q) as Hb.
  set (a := Z.log2 P) in *; set (b := Z.log2 Q) in *.
  assert (Hlow : pow2_le (a - b - 1) P Q = true).
  { apply (pow2_le_shift (a - b - 1) P Q (b + 1)); [lia|lia|].
    replace (a - b - 1 + (b + 1)) with a by ring.
    rewrite Z.pow_succ_r in Qb by lia. fold (Z.succ b) in Qb.
    replace (b + 1) with (Z.succ b) by lia. rewrite (Z.pow_succ_r 2 b) by lia.
    assert (0 < 2 ^ a) by (apply Z.pow_pos_nonneg; lia).
    nia. }
  assert (Hhigh : pow2_le (a - b + 1) P Q = false).
  { apply not_true_is_false; intros H.
    apply (pow2_le_shift (a - b + 1) P Q b) in H; [|lia|lia].
    replace (a - b + 1 + b) with (Z.succ a) in H by ring.
    assert (0 < 2 ^ b) by (apply Z.pow_pos_nonneg; lia).
    nia. }
  destruct (pow2_le (a - b) P Q) eqn:E; split; auto.
  replace (a - b - 1 + 1) with (a - b) by ring; exact E.
Qed.

Lemma ilog2_frac_scale :
  forall c P Q,
    0 < c -> 0 < P -> 0 < Q -> ilog2_frac (c * P) (c * Q) = ilog2_frac P Q.
Proof.
  intros c P Q Hc HP HQ.
  apply (binaryExponent_unique _ _ P Q HQ); [|apply ilog2_frac_spec; assumption].
  destruct (ilog2_frac_spec (c * P) (c * Q)) as [H1 H2]; [nia|nia|].
  rewrite pow2_le_scale in H1, H2 by exact Hc; split; assumption.
Qed.

Lemma compare_scale :
  forall c a b, 0 < c -> (c * a ?= c * b) = (a ?= b).
Proof.
  intros c a b Hc; destruct (Z.compare_spec a b) as [H|H|H].
  - subst; apply Z.compare_refl.
  - apply Z.compare_lt_iff; nia.
  - apply Z.compare_gt_iff; nia.
Qed.

Lemma round_half_even_scale :
  forall c num den,
    0 < c -> 0 < den ->
    round_half_even (c * num) (c * den) = round_half_even num den.
Proof.
  intros c num den Hc Hden; unfold round_half_even.
  rewrite Z.div_mul_cancel_l by lia.
  rewrite Z.mul_mod_distr_l by lia.
  replace (2 * (c * (num mod den))) with (c * (2 * (num mod den))) by ring.
  rewrite compare_scale by exact Hc.
  reflexivity.
Qed.

Lemma round_fraction_scale :
  forall neg c P Q,
    0 < c -> 0 < P -> 0 < Q ->
    round_fraction neg (c * P) (c * Q) = round_fraction neg P Q.
Proof.
  intros neg c P Q Hc HP HQ; unfold round_fraction.
  rewrite ilog2_frac_scale by assumption.
  set (e := Z.max (ilog2_frac P Q - 52) (-1074)).
  destruct (Z.leb_spec 0 e) as [He|He].
  - replace (c * Q * 2 ^ e) with (c * (Q * 2 ^ e)) by ring.
    rewrite round_half_even_scale; [reflexivity|exact Hc|].
    apply Z.mul_pos_pos; [exact HQ | apply Z.pow_pos_nonneg; lia].
  - replace (c * P * 2 ^ (- e)) with (c * (P * 2 ^ (- e))) by ring.
    rewrite round_half_even_scale; [reflexivity|exact Hc|exact HQ].
Qed.

(** The Number value depends on the value of the fraction only. *)
Lemma round_fraction_ext :
  forall neg P Q P' Q',
    0 < P -> 0 < Q -> 0 < P' -> 0 < Q' -> P * Q' = P' * Q ->
    round_fraction neg P Q = round_fraction neg P' Q'.
Proof.
  intros neg P Q P' Q' HP HQ HP' HQ' H.
  rewrite <- (round_fraction_scale neg Q' P Q) by assumption.
  rewrite <- (round_fraction_scale neg Q P' Q') by assumption.
  f_equal; lia.
Qed.

Lemma digits2_pos_size : forall m, digits2_pos m = Pos.size m.
Proof. induction m; simpl; congruence. Qed.

Lemma digits2_pos_log2 :
  forall m, Zpos (digits2_pos m) = Z.log2 (Zpos m) + 1.
Proof.
  intros m; rewrite digits2_pos_size.
  destruct m; simpl; try reflexivity; rewrite Pos.add_1_r; reflexivity.
Qed.

(** A finite binary64 value in its canonical form. *)
Lemma bounded_inv :
  forall m e,
    bounded prec emax m e = true ->
    e = Z.max (Z.log2 (Zpos m) + e - 52) (-1074) /\ e <= 971.
Proof.
  intros m e H; unfold bounded, canonical_mantissa, fexp, SpecFloat.emin in H.
  apply andb_true_iff in H; destruct H as [H1 H2].
  apply Z.eqb_eq in H1; apply Z.leb_le in H2.
  rewrite digits2_pos_log2 in H1; unfold prec, emax in *; lia.
Qed.

Lemma round_half_even_exact :
  forall m den, 0 < den -> round_half_even (m * den) den = m.
Proof.
  intros m den H; unfold round_half_even.
  rewrite Z.div_mul, Z.mod_mul by lia.
  destruct (Z.compare_spec (2 * 0) den); try lia; reflexivity.
Qed.

(** Rounding the exact value of a finite Number gives that Number. *)
Lemma round_fraction_exact :
  forall neg m e P Q,
    bounded prec emax m e = true ->
    0 < P -> 0 < Q ->
    (if 0 <=? e then P = Zpos m * 2 ^ e * Q else P * 2 ^ (- e) = Zpos m * Q) ->
    round_fraction neg P Q = S754_finite neg m e.
Proof.
  intros neg m e P Q Hb HP HQ Hval.
  destruct (bounded_inv m e Hb) as [Hcan Hmax].
  set (P0 := if 0 <=? e then Zpos m * 2 ^ e else Zpos m).
  set (Q0 := if 0 <=? e then 1 else 2 ^ (- e)).
  assert (HP0 : 0 < P0).
  { unfold P0; destruct (Z.leb_spec 0 e); [|lia].
    apply Z.mul_pos_pos; [lia | apply Z.pow_pos_nonneg; lia]. }
  assert (HQ0 : 0 < Q0).
  { unfold Q0; destruct (Z.leb_spec 0 e); [lia|].
    apply Z.pow_pos_nonneg; lia. }
  rewrite (round_fraction_ext neg P Q P0 Q0) by
    (try assumption; unfold P0, Q0; destruct (0 <=? e); lia).
  destruct (Z.log2_spec (Zpos m)) as [La Lb]; [lia|].
  pose proof (Z.log2_nonneg (Zpos m)) as Ln.
  set (a := Z.log2 (Zpos m)) in *.
  assert (Hd : ilog2_frac P0 Q0 = a + e).
  { apply (binaryExponent_unique _ _ P0 Q0 HQ0);
      [apply ilog2_frac_spec; assumption|].
    unfold P0, Q0; destruct (Z.leb_spec 0 e) as [He|He]; split.
    - apply (pow2_le_shift (a + e) _ _ 0); [lia|lia|].
      rewrite Z.add_0_r, Z.pow_add_r by lia.
      assert (0 < 2 ^ e) by (apply Z.pow_pos_nonneg; lia). nia.
    - apply not_true_is_false; intros H.
      apply (pow2_le_shift (a + e + 1) _ _ 0) in H; [|lia|lia].
      rewrite Z.add_0_r in H.
      replace (a + e + 1) with (Z.succ a + e) in H by lia.
      rewrite Z.pow_add_r in H by lia.
      assert (0 < 2 ^ e) by (apply Z.pow_pos_nonneg; lia). nia.
    - apply (pow2_le_shift (a + e) _ _ (- e)); [lia|lia|].
      replace (a + e + - e) with a by ring.
      assert (0 < 2 ^ (- e)) by (apply Z.pow_pos_nonneg; lia). nia.
    - apply not_true_is_false; intros H.
      apply (pow2_le_shift (a + e + 1) _ _ (- e)) in H; [|lia|lia].
      replace (a + e + 1 + - e) with (Z.succ a) in H by ring.
      assert (0 < 2 ^ (- e)) by (apply Z.pow_pos_nonneg; lia). nia. }
  unfold round_fraction; rewrite Hd, <- Hcan.
  assert (Hm : (if 0 <=? e then round_half_even P0 (Q0 * 2 ^ e)
                else round_half_even (P0 * 2 ^ (- e)) Q0) = Zpos m).
  { unfold P0, Q0; destruct (Z.leb_spec 0 e) as [He|He].
    - rewrite Z.mul_1_l; apply round_half_even_exact.
      apply Z.pow_pos_nonneg; lia.
    - apply round_half_even_exact. apply Z.pow_pos_nonneg; lia. }
  rewrite Hm.
  assert (Hlt : Zpos m < 2 ^ 53).
  { eapply Z.lt_le_trans; [exact Lb|].
    apply Z.pow_le_mono_r; lia. }
  destruct (Z.eqb_spec (Zpos m) (2 ^ 53)) as [E|E]; [lia|].
  destruct (Z.leb_spec e 971); [reflexivity|lia].
Qed.

Ltac positivity :=
  repeat first
    [ assumption | lia
    | apply Z.mul_pos_pos | apply Z.pow_pos_nonneg ].

(** The fraction a decimal stands for. *)
Lemma decimal_to_number_fraction :
  forall neg D E P Q,
    0 < D -> 0 < P -> 0 < Q ->
    (if 0 <=? E then D * 10 ^ E * Q = P else D * Q = P * 10 ^ (- E)) ->
    decimal_to_number neg D E = round_fraction neg P Q.
Proof.
  intros neg D E P Q HD HP HQ H; unfold decimal_to_number.
  destruct (Z.leb_spec D 0); [lia|].
  destruct (Z.leb_spec 0 E) as [HE|HE].
  - apply round_fraction_ext; [positivity..|lia].
  - apply round_fraction_ext; [positivity..|lia].
Qed.

(** Trailing zeros of the digits can be moved into the exponent. *)
Lemma decimal_to_number_shift :
  forall neg D E j,
    0 < D -> 0 <= j ->
    decimal_to_number neg (D * 10 ^ j) (E - j) = decimal_to_number neg D E.
Proof.
  intros neg D E j HD Hj.
  assert (Hpj : 0 < 10 ^ j) by positivity.
  destruct (Z.leb_spec 0 E) as [HE|HE].
  - assert (E1 : decimal_to_number neg D E = round_fraction neg (D * 10 ^ E) 1).
    { apply decimal_to_number_fraction; [positivity..|].
      destruct (Z.leb_spec 0 E); lia. }
    rewrite E1.
    apply decimal_to_number_fraction; [positivity..|].
    destruct (Z.leb_spec 0 (E - j)) as [H|H].
    + replace E with (j + (E - j)) at 2 by ring.
      rewrite Z.pow_add_r by lia; ring.
    + replace j with (E + - (E - j)) at 1 by ring.
      rewrite Z.pow_add_r by lia; ring.
  - assert (E1 : decimal_to_number neg D E = round_fraction neg D (10 ^ (- E))).
    { apply decimal_to_number_fraction; [positivity..|].
      destruct (Z.leb_spec 0 E); lia. }
    rewrite E1.
    apply decimal_to_number_fraction; [positivity..|].
    destruct (Z.leb_spec 0 (E - j)) as [H|H]; [lia|].
    replace (- (E - j)) with (j + - E) by ring.
    rewrite Z.pow_add_r by lia; ring.
Qed.

Lemma round_fraction_sign :
  forall P Q, round_fraction true P Q = SFopp (round_fraction false P Q).
Proof.
  intros P Q; unfold round_fraction.
  set (e := Z.max (ilog2_frac P Q - 52) (-1074)).
  set (m := if 0 <=? e then round_half_even P (Q * 2 ^ e)
            else round_half_even (P * 2 ^ (- e)) Q).
  destruct (m =? 2 ^ 53).
  - change (2 ^ 52) with (Zpos (Z.to_pos (2 ^ 52))).
    cbv iota beta. destruct (e + 1 <=? 971); reflexivity.
  - destruct m; try reflexivity.
    destruct (e <=? 971); reflexivity.
Qed.

Lemma decimal_to_number_sign :
  forall D E,
    decimal_to_number true D E = SFopp (decimal_to_number false D E).
Proof.
  intros D E; unfold decimal_to_number.
  destruct (D <=? 0); [reflexivity|].
  destruct (0 <=? E); apply round_fraction_sign.
Qed.

(** *** Decimal digits *)

Lemma isDigit_spec : forall c, isDigit c = true <-> (48 <= c <= 57)%N.
Proof.
  intros c; unfold isDigit; rewrite andb_true_iff, !N.leb_le; tauto.
Qed.

Lemma digitsValue_from :
  forall ds a,
    fold_left (fun acc c => 10 * acc + digitValue c) ds a
    = a * 10 ^ Z.of_nat (List.length ds) + digitsValue ds.
Proof.
  unfold digitsValue; induction ds as [|d ds IH]; intros a.
  - simpl; ring.
  - cbn [fold_left List.length]. rewrite IH, (IH (10 * 0 + digitValue d)).
    rewrite Nat2Z.inj_succ, Z.pow_succ_r by lia; ring.
Qed.

Lemma digitsValue_cons :
  forall d ds,
    digitsValue (d :: ds)
    = digitValue d * 10 ^ Z.of_nat (List.length ds) + digitsValue ds.
Proof.
  intros d ds; unfold digitsValue at 1; cbn [fold_left].
  rewrite digitsValue_from; ring.
Qed.

Lemma digitsValue_app :
  forall a b,
    digitsValue (a ++ b)
    = digitsValue a * 10 ^ Z.of_nat (List.length b) + digitsValue b.
Proof.
  intros a b; unfold digitsValue at 1.
  rewrite fold_left_app, digitsValue_from; reflexivity.
Qed.

Lemma zeros_length : forall n, List.length (zeros n) = Z.to_nat n.
Proof. intros; apply repeat_length. Qed.

Lemma zeros_digits : forall n, Forall (fun c => isDigit c = true) (zeros n).
Proof.
  intros n; unfold zeros; induction (Z.to_nat n); simpl; constructor; auto.
Qed.

Lemma zeros_value : forall n, digitsValue (zeros n) = 0.
Proof.
  intros n; unfold zeros; induction (Z.to_nat n) as [|k IH]; simpl.
  - reflexivity.
  - change (48%N :: repeat 48%N k) with ([48%N] ++ repeat 48%N k).
    rewrite digitsValue_app, IH; reflexivity.
Qed.

(** What the loop computes, when the fuel is enough for [z]. *)
Lemma digitsOf_loop_spec :
  forall fuel z acc,
    0 <= z < 2 ^ Z.of_nat fuel ->
    Forall (fun c => isDigit c = true) acc ->
    let ds := digitsOf_loop fuel z acc in
    Forall (fun c => isDigit c = true) ds
    /\ digitsValue ds
       = z * 10 ^ Z.of_nat (List.length acc) + digitsValue acc
    /\ (0 < z -> exists d ds', ds = d :: ds' /\ d <> 48%N).
Proof.
  induction fuel as [|fuel IH]; intros z acc Hz Hacc.
  - simpl in *. assert (z = 0) by lia; subst.
    split; [exact Hacc|]. split; [ring | lia].
  - cbn [digitsOf_loop].
    assert (Hmod := Z.mod_pos_bound z 10 ltac:(lia)).
    assert (Hd : isDigit (Z.to_N (48 + z mod 10)) = true)
      by (apply isDigit_spec; lia).
    assert (Hv : digitValue (Z.to_N (48 + z mod 10)) = z mod 10)
      by (unfold digitValue; lia).
    destruct (Z.ltb_spec z 10) as [Hlt|Hge].
    + split; [constructor; assumption|].
      split.
      * rewrite digitsValue_cons, Hv, Z.mod_small by lia; reflexivity.
      * intros Hpos; eexists; eexists; split; [reflexivity|].
        rewrite Z.mod_small by lia; lia.
    + assert (Hq : 0 <= z / 10 < 2 ^ Z.of_nat fuel).
      { rewrite Nat2Z.inj_succ, Z.pow_succ_r in Hz by lia.
        split; [apply Z.div_pos; lia|].
        apply Z.div_lt_upper_bound; lia. }
      destruct (IH (z / 10) (Z.to_N (48 + z mod 10) :: acc) Hq
                  ltac:(constructor; assumption)) as (I1 & I2 & I3).
      split; [exact I1|]. split.
      * rewrite I2, digitsValue_cons, Hv. cbn [List.length].
        rewrite Nat2Z.inj_succ, Z.pow_succ_r by lia.
        rewrite (Z.div_mod z 10) at 3 by lia. ring.
      * intros _; apply I3.
        apply Z.div_str_pos; lia.
Qed.

Lemma digitsOf_spec :
  forall z,
    0 <= z ->
    Forall (fun c => isDigit c = true) (digitsOf z)
    /\ digitsValue (digitsOf z) = z
    /\ (0 < z -> exists d ds', digitsOf z = d :: ds' /\ d <> 48%N).
Proof.
  intros z Hz; unfold digitsOf.
  assert (Hb : 0 <= z < 2 ^ Z.of_nat (S (Z.to_nat (Z.log2 z)))).
  { split; [exact Hz|].
    rewrite Nat2Z.inj_succ, Z2Nat.id by apply Z.log2_nonneg.
    destruct (Z.eq_dec z 0) as [->|Hne]; [reflexivity|].
    apply Z.log2_spec; lia. }
  destruct (digitsOf_loop_spec _ z [] Hb (Forall_nil _)) as (H1 & H2 & H3).
  split; [exact H1|]. split; [|exact H3].
  rewrite H2; simpl; unfold digitsValue; simpl; ring.
Qed.

Lemma digitsOf_loop_length :
  forall fuel z acc,
    (List.length acc <= List.length (digitsOf_loop fuel z acc))%nat.
Proof.
  induction fuel as [|fuel IH]; intros z acc; cbn [digitsOf_loop].
  - lia.
  - destruct (z <? 10); [simpl; lia|].
    eapply Nat.le_trans; [|apply IH]. simpl; lia.
Qed.

Lemma digitsOf_length : forall z, (1 <= List.length (digitsOf z))%nat.
Proof.
  intros z; unfold digitsOf; cbn [digitsOf_loop].
  destruct (z <? 10); [simpl; lia|].
  eapply Nat.le_trans; [|apply digitsOf_loop_length]. simpl; lia.
Qed.

(** *** The shortest decimal of a Number *)

Lemma sameValue_eq : forall x y, sameValue x y = true -> x = y.
Proof.
  intros [a|a| |a m e] [b|b| |b m' e']; simpl; try discriminate;
    try reflexivity.
  - intros H; apply eqb_prop in H; congruence.
  - intros H; apply eqb_prop in H; congruence.
  - rewrite !andb_true_iff; intros [[H1 H2] H3].
    apply eqb_prop in H1; apply Pos.eqb_eq in H2; apply Z.eqb_eq in H3.
    congruence.
Qed.

Lemma sameValue_refl : forall x, sameValue x x = true.
Proof.
  intros [a|a| |a m e]; simpl; try reflexivity; try apply eqb_reflx.
  rewrite eqb_reflx, Pos.eqb_refl, Z.eqb_refl; reflexivity.
Qed.

Lemma candidate_sound :
  forall x P Q n0 k s E,
    candidate x P Q n0 k = Some (s, E) -> decimal_to_number false s E = x.
Proof.
  intros x P Q n0 k s E; unfold candidate.
  set (E0 := n0 - k).
  set (num := if 0 <=? E0 then P else P * 10 ^ (- E0)).
  set (den := if 0 <=? E0 then Q * 10 ^ E0 else Q).
  set (lo := num / den).
  set (hi' := if lo + 1 =? 10 ^ k then (10 ^ (k - 1), E0 + 1) else (lo + 1, E0)).
  set (lo_ok := sameValue (decimal_to_number false lo E0) x).
  set (hi_ok := sameValue (decimal_to_number false (fst hi') (snd hi')) x).
  intros H.
  assert (Hcase : (lo_ok = true /\ (s, E) = (lo, E0))
                  \/ (hi_ok = true /\ (s, E) = hi')).
  { destruct lo_ok, hi_ok; try discriminate.
    - destruct (2 * num ?= (2 * lo + 1) * den); [destruct (Z.even lo)|..];
        inversion H; auto.
    - inversion H; auto.
    - inversion H; auto. }
  destruct Hcase as [[Hok Heq] | [Hok Heq]]; apply sameValue_eq in Hok.
  - injection Heq as -> ->; exact Hok.
  - rewrite <- Heq in Hok; exact Hok.
Qed.

Lemma candidate_of_lower :
  forall x P Q n0 k,
    sameValue
      (decimal_to_number false
         ((if 0 <=? n0 - k then P else P * 10 ^ (- (n0 - k)))
          / (if 0 <=? n0 - k then Q * 10 ^ (n0 - k) else Q))
         (n0 - k)) x = true ->
    candidate x P Q n0 k <> None.
Proof.
  intros x P Q n0 k H; unfold candidate.
  rewrite H.
  match goal with |- context [sameValue ?a x] =>
    match a with
    | decimal_to_number false (fst _) _ => destruct (sameValue a x)
    end
  end; [|discriminate].
  match goal with |- context [?a ?= ?b] => destruct (a ?= b) end;
    try discriminate.
  match goal with |- context [Z.even ?a] => destruct (Z.even a) end;
    discriminate.
Qed.

Lemma shortest_sound :
  forall fuel x P Q n0 k s E,
    shortest fuel x P Q n0 k = Some (s, E) ->
    decimal_to_number false s E = x.
Proof.
  induction fuel as [|fuel IH]; intros x P Q n0 k s E; cbn [shortest].
  - discriminate.
  - destruct (candidate x P Q n0 k) as [[s' E']|] eqn:Hc.
    + intros H; inversion H; subst. eapply candidate_sound, Hc.
    + apply IH.
Qed.

Lemma shortest_complete :
  forall fuel x P Q n0 k kx,
    k <= kx < k + Z.of_nat fuel ->
    candidate x P Q n0 kx <> None ->
    shortest fuel x P Q n0 k <> None.
Proof.
  induction fuel as [|fuel IH]; intros x P Q n0 k kx Hk Hc; cbn [shortest].
  - lia.
  - destruct (candidate x P Q n0 k) eqn:E; [discriminate|].
    apply (IH x P Q n0 (k + 1) kx); [|exact Hc].
    destruct (Z.eq_dec k kx) as [->|Hne]; [congruence|lia].
Qed.

Lemma leadingZeros_le :
  forall fuel P Q j J,
    j <= J -> Q <= P * 10 ^ J -> leadingZeros fuel P Q j <= J.
Proof.
  induction fuel as [|fuel IH]; intros P Q j J Hj HJ; cbn [leadingZeros].
  - exact Hj.
  - destruct (Z.leb_spec Q (P * 10 ^ j)) as [H|H]; [exact Hj|].
    apply IH; [|exact HJ].
    destruct (Z.eq_dec j J) as [->|Hne]; lia.
Qed.

Lemma numerator_pos : forall m e, 0 < numerator m e.
Proof.
  intros m e; unfold numerator; destruct (Z.leb_spec 0 e); positivity.
Qed.

Lemma denominator_pos : forall e, 0 < denominator e.
Proof.
  intros e; unfold denominator; destruct (Z.leb_spec 0 e); positivity.
Qed.

Lemma last_digit_count_pos :
  forall m e,
    1 <= decimalExponent (numerator m e) (denominator e) - Z.min e 0.
Proof.
  intros m e; unfold decimalExponent.
  pose proof (numerator_pos m e) as HP.
  destruct (Z.leb_spec (denominator e) (numerator m e)) as [H|H].
  - pose proof (digitsOf_length (numerator m e / denominator e)). lia.
  - unfold numerator, denominator in *.
    destruct (Z.leb_spec 0 e) as [He|He]; [lia|].
    assert (leadingZeros (Z.to_nat (Z.log2 (2 ^ (- e)) + 1)) (Zpos m)
              (2 ^ (- e)) 1 <= - e); [|lia].
    apply leadingZeros_le; [lia|].
    assert (2 ^ (- e) <= 10 ^ (- e)) by (apply Z.pow_le_mono_l; lia).
    assert (0 < 10 ^ (- e)) by positivity.
    nia.
Qed.

Lemma candidate_exact :
  forall m e n0,
    bounded prec emax m e = true ->
    candidate (S754_finite false m e) (numerator m e) (denominator e) n0
      (n0 - Z.min e 0) <> None.
Proof.
  intros m e n0 Hb; apply candidate_of_lower.
  replace (n0 - (n0 - Z.min e 0)) with (Z.min e 0) by ring.
  match goal with |- sameValue ?a ?b = true =>
    replace a with b; [apply sameValue_refl|] end.
  symmetry; unfold numerator, denominator.
  destruct (Z.leb_spec 0 e) as [He|He].
  - rewrite Z.min_r by lia. cbn [Z.leb Z.compare Z.pow Z.pow_pos Pos.iter].
    rewrite !Z.mul_1_r, Z.div_1_r.
    assert (0 < Zpos m * 2 ^ e) by positivity.
    rewrite (decimal_to_number_fraction false _ 0 (Zpos m * 2 ^ e) 1);
      [|positivity..|simpl; ring].
    apply round_fraction_exact; [exact Hb|positivity..|].
    destruct (Z.leb_spec 0 e); lia.
  - rewrite Z.min_l by lia.
    destruct (Z.leb_spec 0 e) as [He'|_]; [lia|].
    assert (E10 : 10 ^ (- e) = 5 ^ (- e) * 2 ^ (- e))
      by (change 10 with (5 * 2); apply Z.pow_mul_l).
    assert (0 < 2 ^ (- e)) by positivity.
    assert (0 < 5 ^ (- e)) by positivity.
    rewrite E10, Z.mul_assoc, Z.div_mul by lia.
    rewrite (decimal_to_number_fraction false _ e (Zpos m) (2 ^ (- e)));
      [|positivity..|].
    + apply round_fraction_exact; [exact Hb|positivity..|].
      destruct (Z.leb_spec 0 e); lia.
    + destruct (Z.leb_spec 0 e); [lia|]. rewrite E10; ring.
Qed.

(** The digits [Number::toString] settles on denote the Number. *)
Lemma Number_toString_finite :
  forall neg m e,
    bounded prec emax m e = true ->
    exists s E,
      0 < s
      /\ decimal_to_number false s E = S754_finite false m e
      /\ Number_toString (S754_finite neg m e)
         = (if neg then [45%N] else []) ++ formatDecimal (digitsOf s) E.
Proof.
  intros neg m e Hb; unfold Number_toString.
  fold (numerator m e); fold (denominator e).
  set (n0 := decimalExponent (numerator m e) (denominator e)).
  pose proof (last_digit_count_pos m e) as Hlast; fold n0 in Hlast.
  destruct (shortest (Z.to_nat (n0 - Z.min e 0)) (S754_finite false m e)
              (numerator m e) (denominator e) n0 1) as [[s E]|] eqn:Hs.
  - exists s, E.
    pose proof (shortest_sound _ _ _ _ _ _ _ _ Hs) as Hv.
    split; [|split; [exact Hv|destruct neg; reflexivity]].
    destruct (Z.leb_spec s 0) as [Hle|]; [|assumption].
    unfold decimal_to_number in Hv.
    destruct (Z.leb_spec s 0); [discriminate|lia].
  - exfalso; revert Hs.
    apply (shortest_complete _ _ _ _ _ _ (n0 - Z.min e 0)); [lia|].
    apply candidate_exact, Hb.
Qed.

(** *** Reading back the text of a Number *)

Lemma spanDigits_app :
  forall ds rest,
    digits ds ->
    match rest with [] => True | c :: _ => isDigit c = false end ->
    spanDigits (ds ++ rest) = (ds, rest).
Proof.
  induction ds as [|d ds IH]; intros rest Hd Hr.
  - destruct rest as [|c r]; simpl; [reflexivity|]. rewrite Hr; reflexivity.
  - inversion Hd as [|? ? Hd1 Hd2]; subst.
    simpl; rewrite Hd1, (IH rest Hd2 Hr); reflexivity.
Qed.

Lemma numberEnd_notDigit :
  forall rest,
    numberEnd rest ->
    match rest with [] => True | c :: _ => isDigit c = false end.
Proof. intros [|c r]; simpl; tauto. Qed.

Lemma parseExponent_text :
  forall ex rest,
    numberEnd rest ->
    parseExponent (exponentText ex ++ rest)
    = Some (match ex with Some z => z | None => 0 end, rest).
Proof.
  intros [z|] rest Hr; simpl.
  - destruct (digitsOf_spec (Z.abs z) (Z.abs_nonneg z)) as (Hd & Hv & _).
    pose proof (digitsOf_length (Z.abs z)) as Hl.
    destruct (Z.ltb_spec z 0) as [Hz|Hz]; simpl;
      rewrite (spanDigits_app _ rest Hd (numberEnd_notDigit _ Hr));
      destruct (digitsOf (Z.abs z)) eqn:E; simpl in Hl; try lia;
      rewrite Hv; do 2 f_equal; lia.
  - destruct rest as [|c r]; simpl; [reflexivity|].
    destruct Hr as (_ & _ & -> & ->); reflexivity.
Qed.

Lemma parseFraction_text :
  forall fp ex rest,
    digits fp -> numberEnd rest ->
    parseFraction (fractionText fp ++ exponentText ex ++ rest)
    = Some (fp, exponentText ex ++ rest).
Proof.
  intros fp ex rest Hd Hr.
  assert (He : match exponentText ex ++ rest with
               | [] => True
               | c :: _ => isDigit c = false /\ (c =? 46)%N = false
               end).
  { destruct ex; simpl; [split; reflexivity|].
    destruct rest; simpl in *; tauto. }
  destruct fp as [|f fp].
  - cbn [fractionText app].
    destruct (exponentText ex ++ rest) as [|c r]; [reflexivity|].
    cbn [app parseFraction]; destruct He as [_ ->]; reflexivity.
  - cbn [fractionText app parseFraction]. rewrite N.eqb_refl.
    change (f :: fp ++ exponentText ex ++ rest)
      with ((f :: fp) ++ exponentText ex ++ rest).
    rewrite (spanDigits_app (f :: fp) _ Hd); [reflexivity|].
    destruct (exponentText ex ++ rest); tauto.
Qed.

Lemma isDigit_not_minus : forall d, isDigit d = true -> (d =? 45)%N = false.
Proof.
  intros d H; apply isDigit_spec in H; apply N.eqb_neq; lia.
Qed.

(** A number put together from its parts is read back as these parts. *)
Lemma parseNumber_parts :
  forall (neg : bool) d ip' fp ex rest,
    digits (d :: ip') -> (d <> 48%N \/ ip' = []) -> digits fp ->
    numberEnd rest ->
    parseNumber
      ((if neg then [45%N] else [])
         ++ (d :: ip') ++ fractionText fp ++ exponentText ex ++ rest)
    = Some
        (decimal_to_number neg (digitsValue ((d :: ip') ++ fp))
           (match ex with Some z => z | None => 0 end
            - Z.of_nat (List.length fp)),
         rest).
Proof.
  intros neg d ip' fp ex rest Hip Hlead Hfp Hr; unfold parseNumber.
  assert (Hsign :
    spanMinus ((if neg then [45%N] else [])
                 ++ (d :: ip') ++ fractionText fp ++ exponentText ex ++ rest)
    = (neg, (d :: ip') ++ fractionText fp ++ exponentText ex ++ rest)).
  { destruct neg; simpl; [reflexivity|].
    inversion Hip; subst. rewrite isDigit_not_minus by assumption.
    reflexivity. }
  rewrite Hsign.
  rewrite (spanDigits_app (d :: ip') _ Hip).
  2:{ destruct fp; simpl; [|reflexivity].
      destruct ex; simpl; [reflexivity|]. apply numberEnd_notDigit, Hr. }
  assert (Hz : (d =? 48)%N && negb (Nat.eqb (List.length ip') 0) = false).
  { destruct Hlead as [H| ->]; [|apply andb_false_r].
    apply N.eqb_neq in H; rewrite H; reflexivity. }
  rewrite Hz, parseFraction_text, parseExponent_text by assumption.
  reflexivity.
Qed.

Lemma digits_app : forall a b, digits a -> digits b -> digits (a ++ b).
Proof. intros a b Ha Hb; apply Forall_app; split; assumption. Qed.

Lemma digits_firstn : forall n ds, digits ds -> digits (firstn n ds).
Proof.
  intros n ds H; unfold digits in *; rewrite Forall_forall in *.
  intros c Hc; apply H. eapply In_nth_error in Hc. destruct Hc as [i Hi].
  rewrite <- (firstn_skipn n ds); apply in_or_app; left.
  eapply nth_error_In, Hi.
Qed.

Lemma digits_skipn : forall n ds, digits ds -> digits (skipn n ds).
Proof.
  intros n ds H; unfold digits in *; rewrite Forall_forall in *.
  intros c Hc; apply H.
  rewrite <- (firstn_skipn n ds); apply in_or_app; right; exact Hc.
Qed.

Ltac same_text :=
  repeat rewrite <- app_assoc; cbn [Datatypes.app];
  repeat rewrite <- app_assoc; reflexivity.

Ltac read_with H :=
  match goal with
  | |- parseNumber ?t = _ =>
      match type of H with
      | _ -> _ -> _ -> _ -> parseNumber ?u = _ =>
          replace t with u by same_text
      end
  end;
  rewrite H; clear H.

(** The text of a decimal is read back as that decimal. *)
Lemma parseNumber_formatDecimal :
  forall (neg : bool) s E rest,
    0 < s -> numberEnd rest ->
    parseNumber
      ((if neg then [45%N] else []) ++ formatDecimal (digitsOf s) E ++ rest)
    = Some (decimal_to_number neg s E, rest).
Proof.
  intros neg s E rest Hs Hr.
  destruct (digitsOf_spec s ltac:(lia)) as (Hd & Hv & Hh).
  destruct (Hh Hs) as (d & ds' & Eds & Hd48).
  unfold formatDecimal; rewrite Eds in *.
  set (k := Z.of_nat (List.length (d :: ds'))).
  assert (Hk : k = Z.of_nat (List.length ds') + 1)
    by (unfold k; cbn [List.length]; lia).
  set (n := E + k).
  assert (Hd' : digits (d :: ds')) by exact Hd.
  assert (Hd1 : isDigit d = true) by (inversion Hd'; assumption).
  assert (Hdt : digits ds') by (inversion Hd'; assumption).
  destruct ((k <=? n) && (n <=? 21)) eqn:B1.
  { (* the integer followed by zeros *)
    apply andb_true_iff in B1; destruct B1 as [B1 _]; apply Z.leb_le in B1.
    pose proof (parseNumber_parts neg d (ds' ++ zeros (n - k)) [] None rest)
      as H.
    read_with H;
      [| constructor; [exact Hd1
                      | apply digits_app; [exact Hdt | apply zeros_digits]]
       | left; exact Hd48 | constructor | exact Hr].
    do 2 f_equal. rewrite app_nil_r.
    change (d :: ds' ++ zeros (n - k)) with ((d :: ds') ++ zeros (n - k)).
    rewrite digitsValue_app, Hv, zeros_value, zeros_length.
    rewrite Z2Nat.id, Z.add_0_r by lia.
    replace (0 - Z.of_nat (List.length (@nil N))) with (E - (n - k))
      by (unfold n; simpl; lia).
    apply decimal_to_number_shift; lia. }
  destruct ((0 <? n) && (n <=? 21)) eqn:B2.
  { (* a point inside the digits *)
    apply andb_true_iff in B2; destruct B2 as [B2 B2'].
    apply Z.ltb_lt in B2; apply Z.leb_le in B2'.
    apply andb_false_iff in B1.
    assert (Hnk : n < k) by (destruct B1 as [B1|B1];
      [apply Z.leb_gt in B1; exact B1 | apply Z.leb_gt in B1; lia]).
    destruct (Z.to_nat n) as [|n'] eqn:En; [lia|].
    cbn [firstn skipn].
    assert (Hfp : skipn n' ds' <> []).
    { intros Hnil. apply (f_equal (@List.length N)) in Hnil.
      rewrite length_skipn in Hnil; simpl in Hnil; lia. }
    pose proof (parseNumber_parts neg d (firstn n' ds') (skipn n' ds') None rest)
      as H.
    assert (Hft : fractionText (skipn n' ds') = 46%N :: skipn n' ds')
      by (destruct (skipn n' ds'); [congruence | reflexivity]).
    rewrite Hft in H.
    read_with H;
      [| constructor; [exact Hd1 | apply digits_firstn, Hdt]
       | left; exact Hd48
       | apply digits_skipn, Hdt
       | exact Hr].
    do 2 f_equal; f_equal.
    - rewrite <- app_comm_cons, firstn_skipn. exact Hv.
    - rewrite length_skipn. cbv beta iota. unfold n in *. lia. }
  destruct ((-6 <? n) && (n <=? 0)) eqn:B3.
  { (* zeros after the point *)
    apply andb_true_iff in B3; destruct B3 as [_ B3]; apply Z.leb_le in B3.
    pose proof (parseNumber_parts neg 48%N [] (zeros (- n) ++ d :: ds') None rest)
      as H.
    assert (Hft : fractionText (zeros (- n) ++ d :: ds')
                  = 46%N :: zeros (- n) ++ d :: ds').
    { destruct (zeros (- n) ++ d :: ds') eqn:Ez; [|reflexivity].
      destruct (zeros (- n)); discriminate. }
    rewrite Hft in H.
    read_with H;
      [| repeat constructor | right; reflexivity
       | apply digits_app; [apply zeros_digits | exact Hd'] | exact Hr].
    do 2 f_equal; f_equal.
    - change ([48%N] ++ zeros (- n) ++ d :: ds')
        with ([48%N] ++ (zeros (- n) ++ d :: ds')).
      rewrite !digitsValue_app, zeros_value, Hv.
      unfold digitsValue; simpl; ring.
    - rewrite length_app, zeros_length. cbv beta iota. unfold n, k in *.
      lia. }
  (* exponent notation *)
  pose proof (parseNumber_parts neg d [] ds' (Some (n - 1)) rest) as H.
  assert (Hex : exponentText (Some (n - 1))
                = 101%N :: (if n - 1 <? 0 then 45%N else 43%N)
                        :: digitsOf (Z.abs (n - 1))) by reflexivity.
  rewrite Hex in H; clear Hex.
  destruct ds' as [|d2 ds''].
  - cbn [fractionText] in H.
    read_with H;
      [| exact Hd' | right; reflexivity | constructor | exact Hr].
    do 2 f_equal; f_equal;
      [rewrite app_nil_r; exact Hv | unfold n, k; simpl; lia].
  - cbn [fractionText] in H.
    read_with H;
      [| constructor; [exact Hd1 | constructor]
       | right; reflexivity | exact Hdt | exact Hr].
    do 2 f_equal; f_equal;
      [exact Hv | unfold n, k; cbn [List.length]; lia].
Qed.

(** *** The Numbers that parsing yields are binary64 values *)

Lemma round_half_even_bounds :
  forall num den,
    0 < den ->
    num / den <= round_half_even num den <= num / den + 1.
Proof.
  intros num den H; unfold round_half_even.
  destruct (2 * (num mod den) ?= den); [destruct (Z.even (num / den))|..]; lia.
Qed.

Lemma div_bounds :
  forall num den lo hi,
    0 < den -> lo * den <= num -> num < hi * den -> lo <= num / den < hi.
Proof.
  intros num den lo hi Hden Hlo Hhi; split.
  - apply Z.div_le_lower_bound; lia.
  - apply Z.div_lt_upper_bound; lia.
Qed.

Lemma bounded_normal :
  forall m e,
    2 ^ 52 <= Zpos m < 2 ^ 53 -> -1074 <= e <= 971 ->
    bounded prec emax m e = true.
Proof.
  intros m e Hm He; unfold bounded, canonical_mantissa, fexp, SpecFloat.emin.
  rewrite digits2_pos_log2.
  assert (Z.log2 (Zpos m) = 52).
  { apply Z.log2_unique; lia. }
  unfold prec, emax. apply andb_true_iff; split;
    [apply Z.eqb_eq | apply Z.leb_le]; lia.
Qed.

Lemma bounded_subnormal :
  forall m, Zpos m < 2 ^ 52 -> bounded prec emax m (-1074) = true.
Proof.
  intros m Hm; unfold bounded, canonical_mantissa, fexp, SpecFloat.emin.
  rewrite digits2_pos_log2.
  assert (Z.log2 (Zpos m) < 52) by (apply Z.log2_lt_pow2; lia).
  unfold prec, emax. apply andb_true_iff; split;
    [apply Z.eqb_eq | apply Z.leb_le]; lia.
Qed.

Lemma round_fraction_valid :
  forall neg P Q,
    0 < P -> 0 < Q -> valid_binary prec emax (round_fraction neg P Q) = true.
Proof.
  intros neg P Q HP HQ; unfold round_fraction.
  destruct (ilog2_frac_spec P Q HP HQ) as [Hlo Hhi].
  set (d := ilog2_frac P Q) in *.
  set (e := Z.max (d - 52) (-1074)).
  set (m := if 0 <=? e then round_half_even P (Q * 2 ^ e)
            else round_half_even (P * 2 ^ (- e)) Q).
  (* the scaled fraction num / den *)
  set (num := if 0 <=? e then P else P * 2 ^ (- e)).
  set (den := if 0 <=? e then Q * 2 ^ e else Q).
  assert (Hm : m = round_half_even num den)
    by (unfold m, num, den; destruct (0 <=? e); reflexivity).
  assert (Hden : 0 < den)
    by (unfold den; destruct (Z.leb_spec 0 e); positivity).
  assert (Hnum : 0 < num)
    by (unfold num; destruct (Z.leb_spec 0 e); positivity).
  (* num / den is P / Q scaled by 2^(-e) *)
  assert (Hscale : forall j, 0 <= j ->
            (pow2_le (j + e) P Q = true <-> den * 2 ^ j <= num)).
  { intros j Hj. unfold num, den.
    destruct (Z.leb_spec 0 e) as [He|He].
    - rewrite (pow2_le_shift (j + e) P Q 0) by lia.
      rewrite Z.add_0_r, Z.pow_0_r, Z.mul_1_r.
      rewrite (Z.add_comm j e), Z.pow_add_r, Z.mul_assoc by lia.
      reflexivity.
    - rewrite (pow2_le_shift (j + e) P Q (- e)) by lia.
      replace (j + e + - e) with j by ring. reflexivity. }
  assert (Hfloor_hi : e = d - 52 -> 2 ^ 52 <= num / den < 2 ^ 53).
  { intros He.
    apply div_bounds; [exact Hden|..].
    - replace d with (52 + e) in Hlo by lia.
      apply (Hscale 52) in Hlo; lia.
    - apply Z.nle_gt; intros Hc.
      assert (Hhi' : pow2_le (53 + e) P Q = true)
        by (apply (Hscale 53); lia).
      replace (53 + e) with (d + 1) in Hhi' by lia. congruence. }
  assert (Hfloor_lo : d - 52 < e -> num / den < 2 ^ 52).
  { intros He.
    apply Z.div_lt_upper_bound; [exact Hden|].
    apply Z.nle_gt; intros Hc.
    assert (Hhi' : pow2_le (52 + e) P Q = true)
      by (apply (Hscale 52); lia).
    assert (pow2_le (d + 1) P Q = true); [|congruence].
    apply (pow2_le_antitone (d + 1) (52 + e) P Q HQ); [lia | exact Hhi']. }
  pose proof (round_half_even_bounds num den Hden) as Hr; rewrite <- Hm in Hr.
  assert (Hq0 : 0 <= num / den) by (apply Z.div_pos; lia).
  destruct (Z.eqb_spec m (2 ^ 53)) as [E53|N53].
  - change (2 ^ 52) with (Zpos (Z.to_pos (2 ^ 52))). cbv iota beta.
    destruct (Z.leb_spec (e + 1) 971); [|reflexivity].
    apply bounded_normal; [simpl; lia | lia].
  - destruct m as [|p|p] eqn:Ep; try reflexivity.
    destruct (Z.leb_spec e 971); [|reflexivity].
    destruct (Z.eq_dec e (d - 52)) as [He|He].
    + apply bounded_normal; [|lia].
      specialize (Hfloor_hi He). lia.
    + assert (He' : e = -1074) by lia.
      specialize (Hfloor_lo ltac:(lia)).
      destruct (Z.eq_dec (Zpos p) (2 ^ 52)) as [E52|N52].
      * rewrite He'. apply bounded_normal; lia.
      * rewrite He'. apply bounded_subnormal. lia.
Qed.

Lemma decimal_to_number_valid :
  forall neg D E, valid_binary prec emax (decimal_to_number neg D E) = true.
Proof.
  intros neg D E; unfold decimal_to_number.
  destruct (Z.leb_spec D 0); [reflexivity|].
  destruct (Z.leb_spec 0 E); apply round_fraction_valid; positivity.
Qed.

(** Whatever the input, [parseFloat] yields a binary64 value. *)
Lemma parseFloat_valid :
  forall input, valid_binary prec emax (parseFloat input) = true.
Proof.
  intros input; unfold parseFloat.
  destruct (spanSign (trimStart input)) as [neg s].
  destruct (startsWith (str "Infinity") s); [reflexivity|].
  destruct (spanDigits s) as [ip s1].
  destruct (match s1 with
            | [] => ([], s1)
            | c :: s1' => if (c =? 46)%N then spanDigits s1' else ([], s1)
            end) as [fp s2].
  destruct ip, fp; try reflexivity; apply decimal_to_number_valid.
Qed.

Lemma parseNumber_valid :
  forall s x rest,
    parseNumber s = Some (x, rest) -> valid_binary prec emax x = true.
Proof.
  intros s x rest; unfold parseNumber.
  destruct (spanMinus s) as [neg s0].
  destruct (spanDigits s0) as [[|d ip] s1]; [discriminate|].
  destruct ((d =? 48)%N && negb (Nat.eqb (List.length ip) 0));
    [discriminate|].
  destruct (parseFraction s1) as [[fp s2]|]; [|discriminate].
  destruct (parseExponent s2) as [[ex r]|]; [|discriminate].
  intros H; inversion H; subst. apply decimal_to_number_valid.
Qed.

End NumberText.

(** ** JSON texts

    *** Reading back a quoted string *)

Lemma hexValue_hexDigit :
  forall n, (n < 16)%N -> hexValue (hexDigit n) = Some n.
Proof.
  intros n H.
  assert (Hn : In n [0; 1; 2; 3; 4; 5; 6; 7; 8; 9; 10; 11; 12; 13; 14; 15]%N).
  { destruct n as [|p]; [left; reflexivity|].
    do 4 (destruct p as [p|p|]; try lia; simpl; try tauto).  }
  simpl in Hn.
  repeat (destruct Hn as [<- | Hn]; [reflexivity|]); contradiction.
Qed.

Lemma hex4_unicodeEscape :
  forall c,
    (c < 65536)%N ->
    hex4 (hexDigit (c / 4096 mod 16)) (hexDigit (c / 256 mod 16))
      (hexDigit (c / 16 mod 16)) (hexDigit (c mod 16))
    = Some c.
Proof.
  intros c Hc; unfold hex4.
  rewrite !hexValue_hexDigit by (apply N.mod_lt; discriminate).
  f_equal.
  replace (c / 256)%N with (c / 16 / 16)%N
    by (rewrite N.Div0.div_div; reflexivity).
  replace (c / 4096)%N with (c / 16 / 16 / 16)%N
    by (rewrite !N.Div0.div_div; reflexivity).
  pose proof (N.div_mod c 16 ltac:(discriminate)) as H1.
  pose proof (N.div_mod (c / 16) 16 ltac:(discriminate)) as H2.
  pose proof (N.div_mod (c / 16 / 16) 16 ltac:(discriminate)) as H3.
  assert (H4 : (c / 16 / 16 / 16 < 16)%N).
  { rewrite !N.Div0.div_div. apply N.Div0.div_lt_upper_bound. exact Hc. }
  rewrite (N.mod_small _ _ H4).
  lia.
Qed.

Lemma parse_unicodeEscape :
  forall c tail,
    (c < 65536)%N ->
    parseStringChars (unicodeEscape c ++ tail)
    = consResult c (parseStringChars tail).
Proof.
  intros c tail Hc; unfold unicodeEscape.
  cbn [Datatypes.app parseStringChars].
  change (92 =? 34)%N with false; change (92 =? 92)%N with true.
  cbv iota. change (singleEscape 117) with (@None N).
  cbv iota. change (117 =? 117)%N with true. cbv iota.
  rewrite hex4_unicodeEscape by exact Hc. reflexivity.
Qed.

(** One quoted code unit is read back as that code unit. *)
Lemma parse_quoteUnit :
  forall c tail,
    parseStringChars (quoteUnit c ++ tail)
    = consResult c (parseStringChars tail).
Proof.
  intros c tail; unfold quoteUnit.
  destruct (N.eqb_spec c 8) as [->|H8]; [reflexivity|].
  destruct (N.eqb_spec c 9) as [->|H9]; [reflexivity|].
  destruct (N.eqb_spec c 10) as [->|H10]; [reflexivity|].
  destruct (N.eqb_spec c 12) as [->|H12]; [reflexivity|].
  destruct (N.eqb_spec c 13) as [->|H13]; [reflexivity|].
  destruct (N.eqb_spec c 34) as [->|H34]; [reflexivity|].
  destruct (N.eqb_spec c 92) as [->|H92]; [reflexivity|].
  destruct ((c <? 32)%N || isLeadingSurrogate c || isTrailingSurrogate c)
    eqn:E.
  - apply parse_unicodeEscape.
    unfold isLeadingSurrogate, isTrailingSurrogate in E.
    rewrite !orb_true_iff, !andb_true_iff, N.ltb_lt, !N.leb_le in E. lia.
  - apply orb_false_iff in E; destruct E as [E _].
    apply orb_false_iff in E; destruct E as [E _].
    cbn [Datatypes.app parseStringChars].
    apply N.eqb_neq in H34, H92; rewrite H34, H92, E. reflexivity.
Qed.

Lemma parse_raw_surrogate :
  forall c tail,
    (55296 <= c)%N ->
    parseStringChars (c :: tail) = consResult c (parseStringChars tail).
Proof.
  intros c tail H; cbn [parseStringChars].
  assert ((c =? 34)%N = false) as -> by (apply N.eqb_neq; lia).
  assert ((c =? 92)%N = false) as -> by (apply N.eqb_neq; lia).
  assert ((c <? 32)%N = false) as -> by (apply N.ltb_ge; lia).
  reflexivity.
Qed.

Lemma parseStringChars_closing :
  forall rest, parseStringChars (34%N :: rest) = Some ([], rest).
Proof. reflexivity. Qed.

Lemma parseStringChars_quoteUnits_bounded :
  forall n s rest,
    (List.length s <= n)%nat ->
    parseStringChars (quoteUnits s ++ 34%N :: rest) = Some (s, rest).
Proof.
  induction n as [|n IH]; intros s rest Hn.
  - destruct s; [reflexivity | simpl in Hn; lia].
  - destruct s as [|c s']; [reflexivity|].
    simpl in Hn. cbn [quoteUnits].
    destruct (isLeadingSurrogate c) eqn:Ec.
    + destruct s' as [|d s''].
      * rewrite parse_quoteUnit; reflexivity.
      * destruct (isTrailingSurrogate d) eqn:Ed.
        -- unfold isLeadingSurrogate, isTrailingSurrogate in Ec, Ed.
           rewrite andb_true_iff, !N.leb_le in Ec, Ed.
           cbn [Datatypes.app].
           rewrite !parse_raw_surrogate by lia.
           rewrite IH by (simpl in Hn; lia). reflexivity.
        -- rewrite <- app_assoc, parse_quoteUnit, IH by lia. reflexivity.
    + rewrite <- app_assoc, parse_quoteUnit, IH by lia. reflexivity.
Qed.

(** A quoted string is read back as the string, whatever follows the
    closing quote. *)
Lemma parseStringChars_quoteUnits :
  forall s rest,
    parseStringChars (quoteUnits s ++ 34%N :: rest) = Some (s, rest).
Proof.
  intros s rest; apply (parseStringChars_quoteUnits_bounded (List.length s)).
  apply Nat.le_refl.
Qed.

(** *** Reading back the saved text *)

Lemma parseNumber_Number_toString :
  forall x rest,
    finiteNumber x -> numberEnd rest ->
    parseNumber (Number_toString x ++ rest) = Some (readBack x, rest).
Proof.
  intros x rest [Hf Hv] Hr.
  destruct x as [sz|si| |neg m e]; try discriminate.
  - pose proof (parseNumber_parts false 48%N [] [] None rest) as H.
    cbn [fractionText exponentText Datatypes.app] in H.
    change (Number_toString (S754_zero sz)) with [48%N].
    cbn [Datatypes.app].
    rewrite H; [reflexivity| repeat constructor | right; reflexivity
               | constructor | exact Hr].
  - destruct (Number_toString_finite neg m e Hv) as (s & E & Hs & Hval & Ht).
    rewrite Ht, <- app_assoc.
    rewrite parseNumber_formatDecimal by assumption.
    do 2 f_equal. destruct neg; [|exact Hval].
    rewrite decimal_to_number_sign, Hval; reflexivity.
Qed.

Lemma parseNumber_head :
  forall t x rest,
    parseNumber t = Some (x, rest) ->
    exists c r, t = c :: r /\ ((c =? 45)%N = true \/ isDigit c = true).
Proof.
  intros [|c r] x rest; [discriminate|].
  intros H; exists c, r; split; [reflexivity|].
  destruct (c =? 45)%N eqn:E; [left; reflexivity | right].
  unfold parseNumber in H; cbn [spanMinus] in H; rewrite E in H.
  cbn [spanDigits] in H.
  destruct (isDigit c); [reflexivity | discriminate].
Qed.

Lemma parseValue_number :
  forall fuel t x rest,
    parseNumber t = Some (x, rest) ->
    parseValue (S fuel) t = Some (JNumber x, rest).
Proof.
  intros fuel t x rest H.
  destruct (parseNumber_head t x rest H) as (c & r & -> & Hc).
  assert (Hrange : (c = 45 \/ 48 <= c <= 57)%N).
  { destruct Hc as [Hc|Hc]; [left; apply N.eqb_eq, Hc|].
    right; apply isDigit_spec, Hc. }
  cbn [parseValue skipWS].
  assert (isJSONWhiteSpace c = false) as ->.
  { unfold isJSONWhiteSpace; rewrite !orb_false_iff, !N.eqb_neq; lia. }
  assert ((c =? 123)%N = false) as -> by (apply N.eqb_neq; lia).
  assert ((c =? 91)%N = false) as -> by (apply N.eqb_neq; lia).
  assert ((c =? 34)%N = false) as -> by (apply N.eqb_neq; lia).
  assert ((c =? 116)%N = false) as -> by (apply N.eqb_neq; lia).
  assert ((c =? 102)%N = false) as -> by (apply N.eqb_neq; lia).
  assert ((c =? 110)%N = false) as -> by (apply N.eqb_neq; lia).
  rewrite H; reflexivity.
Qed.

Lemma parseValue_string :
  forall fuel s rest,
    parseValue (S fuel) (QuoteJSONString s ++ rest) = Some (JString s, rest).
Proof.
  intros fuel s rest; unfold QuoteJSONString.
  rewrite <- app_comm_cons, <- app_assoc.
  cbn [parseValue skipWS Datatypes.app].
  change (isJSONWhiteSpace 34) with false. cbv iota.
  change (34 =? 123)%N with false; change (34 =? 91)%N with false.
  change (34 =? 34)%N with true. cbv iota.
  rewrite parseStringChars_quoteUnits; reflexivity.
Qed.

(** One member of an object, followed by a comma or by the closing
    brace. *)
Lemma parseMembers_member :
  forall fuel key vtext v (sep : N) more acc,
    (sep = 44 \/ sep = 125)%N ->
    parseValue fuel (vtext ++ sep :: more) = Some (v, sep :: more) ->
    parseMembers (S fuel)
      (QuoteJSONString key ++ 58%N :: vtext ++ sep :: more) acc
    = if (sep =? 44)%N
      then parseMembers fuel more (defineProperty key v acc)
      else Some (JObject (defineProperty key v acc), more).
Proof.
  intros fuel key vtext v sep more acc Hsep Hv; unfold QuoteJSONString.
  rewrite <- app_comm_cons, <- app_assoc.
  cbn [parseMembers skipWS Datatypes.app].
  change (isJSONWhiteSpace 34) with false. cbv iota.
  rewrite parseStringChars_quoteUnits.
  cbn [skipWS]. change (isJSONWhiteSpace 58) with false. cbv iota.
  rewrite Hv.
  destruct Hsep as [-> | ->]; reflexivity.
Qed.

Lemma stringify_record :
  forall tx,
    isFinite (amount tx) = true ->
    JSON_stringify (toJS tx)
    = 123%N
        :: QuoteJSONString (str "id") ++ 58%N
        :: QuoteJSONString (id tx) ++ 44%N
        :: QuoteJSONString (str "amount") ++ 58%N
        :: Number_toString (amount tx) ++ 44%N
        :: QuoteJSONString (str "description") ++ 58%N
        :: QuoteJSONString (description tx) ++ 44%N
        :: QuoteJSONString (str "date") ++ 58%N
        :: QuoteJSONString (date tx) ++ 44%N
        :: QuoteJSONString (str "type") ++ 58%N
        :: QuoteJSONString (TransactionType_value (type tx)) ++ [125%N].
Proof.
  intros tx Hf; unfold toJS.
  cbn [JSON_stringify List.map joinComma fst snd]. rewrite Hf.
  repeat (rewrite <- app_assoc; cbn [Datatypes.app]).
  reflexivity.
Qed.

Lemma numberEnd_comma : forall more, numberEnd (44%N :: more).
Proof. intros; repeat split. Qed.

(** A saved record is read back as the record, with the Number it is
    read back with. *)
Lemma parseValue_record :
  forall fuel tx (sep : N) more,
    finiteNumber (amount tx) ->
    parseValue (7 + fuel) (JSON_stringify (toJS tx) ++ sep :: more)
    = Some (toJS (readBackRecord tx), sep :: more).
Proof.
  intros fuel tx sep more Hfin.
  rewrite stringify_record by apply Hfin.
  cbn [Datatypes.app]; repeat (rewrite <- app_assoc; cbn [Datatypes.app]).
  change (7 + fuel)%nat with (S (S (S (S (S (S (S fuel))))))).
  cbn [parseValue skipWS]. change (isJSONWhiteSpace 123) with false.
  cbv iota. change (123 =? 123)%N with true. cbv iota.
  assert (Hq : forall k t,
    skipWS (QuoteJSONString k ++ t) = QuoteJSONString k ++ t) by reflexivity.
  rewrite Hq. unfold QuoteJSONString at 1. cbn [Datatypes.app]. cbv iota.
  fold (QuoteJSONString (str "id")).
  change (34%N :: (quoteUnits (str "id") ++ [34%N]) ++ ?t)
    with (QuoteJSONString (str "id") ++ t).
  rewrite (parseMembers_member _ (str "id") _ (JString (id tx)) 44%N _ _
             (or_introl eq_refl) (parseValue_string _ _ _)).
  change (44 =? 44)%N with true; cbv iota.
  rewrite (parseMembers_member _ (str "amount") _
             (JNumber (readBack (amount tx))) 44%N _ _ (or_introl eq_refl)
             (parseValue_number _ _ _ _
                (parseNumber_Number_toString _ _ Hfin (numberEnd_comma _)))).
  change (44 =? 44)%N with true; cbv iota.
  rewrite (parseMembers_member _ (str "description") _
             (JString (description tx)) 44%N _ _
             (or_introl eq_refl) (parseValue_string _ _ _)).
  change (44 =? 44)%N with true; cbv iota.
  rewrite (parseMembers_member _ (str "date") _ (JString (date tx)) 44%N _ _
             (or_introl eq_refl) (parseValue_string _ _ _)).
  change (44 =? 44)%N with true; cbv iota.
  rewrite (parseMembers_member _ (str "type") _
             (JString (TransactionType_value (type tx))) 125%N _ _
             (or_intror eq_refl) (parseValue_string _ _ _)).
  reflexivity.
Qed.

Lemma parseElements_records :
  forall l fuel acc more,
    Forall (fun tx => finiteNumber (amount tx)) l ->
    l <> [] ->
    parseElements (List.length l + 7 + fuel)
      (joinComma (recordTexts l) ++ 93%N :: more) acc
    = Some (JArray (rev acc ++ List.map toJS (List.map readBackRecord l)),
            more).
Proof.
  induction l as [|tx l IH]; intros fuel acc more Hfin Hne; [congruence|].
  inversion Hfin as [|? ? Htx Hl]; subst.
  destruct l as [|tx2 l'].
  - change (List.length [tx] + 7 + fuel)%nat with (S (7 + fuel)).
    cbn [recordTexts List.map joinComma parseElements].
    rewrite (parseValue_record fuel tx 93%N more Htx).
    reflexivity.
  - change (joinComma (recordTexts (tx :: tx2 :: l')))
      with (JSON_stringify (toJS tx)
              ++ 44%N :: joinComma (recordTexts (tx2 :: l'))).
    rewrite <- app_assoc. cbn [Datatypes.app].
    change (List.length (tx :: tx2 :: l') + 7 + fuel)%nat
      with (S (List.length (tx2 :: l') + 7 + fuel)).
    cbn [parseElements].
    replace (List.length (tx2 :: l') + 7 + fuel)%nat
      with (7 + (List.length (tx2 :: l') + fuel))%nat at 1 by lia.
    rewrite (parseValue_record _ tx 44%N _ Htx).
    cbn [skipWS]. change (isJSONWhiteSpace 44) with false. cbv iota.
    rewrite (IH fuel (toJS (readBackRecord tx) :: acc) more Hl)
      by discriminate.
    cbn [rev List.map]. rewrite <- app_assoc. reflexivity.
Qed.

Lemma stringify_record_length :
  forall tx, (4 <= List.length (JSON_stringify (toJS tx)))%nat.
Proof.
  intros tx; unfold toJS; cbn [JSON_stringify List.map joinComma fst snd].
  cbn [List.length]. rewrite length_app. simpl. lia.
Qed.

Lemma joinComma_length :
  forall items,
    Forall (fun x => (4 <= List.length x)%nat) items ->
    (4 * List.length items <= List.length (joinComma items))%nat.
Proof.
  induction 1 as [|x items Hx Hitems IH]; [simpl; lia|].
  cbn [joinComma]. destruct items as [|y ys]; [simpl; lia|].
  rewrite length_app. cbn [List.length] in *. lia.
Qed.

(** The text the effect writes is read back by [JSON.parse] as the
    collection it was written from. *)
Lemma JSON_parse_savedText :
  forall l,
    Forall (fun tx => finiteNumber (amount tx)) l ->
    JSON_parse (savedText l) = Normal (toJSArray (List.map readBackRecord l)).
Proof.
  intros l Hfin; destruct l as [|tx l]; [reflexivity|].
  unfold JSON_parse, savedText, toJSArray.
  cbn [JSON_stringify]. fold (recordTexts (tx :: l)).
  remember (joinComma (recordTexts (tx :: l))) as text eqn:Etext.
  assert (Hlen : (4 * List.length (tx :: l) <= List.length text)%nat).
  { rewrite Etext.
    replace (List.length (tx :: l)) with (List.length (recordTexts (tx :: l)))
      by (unfold recordTexts; rewrite !length_map; reflexivity).
    apply joinComma_length. unfold recordTexts.
    apply Forall_map, Forall_map, Forall_forall.
    intros; apply stringify_record_length. }
  assert (Hhead : exists r, text ++ [93%N] = 123%N :: r).
  { rewrite Etext. cbn [recordTexts List.map joinComma].
    destruct (List.map _ l); unfold toJS; cbn [JSON_stringify Datatypes.app];
      eexists; reflexivity. }
  destruct Hhead as [r Hr].
  replace (2 * List.length (91%N :: text ++ [93%N]) + 2)%nat
    with (S (List.length (tx :: l) + 7
             + (2 * List.length (91%N :: text ++ [93%N]) + 1
                - (List.length (tx :: l) + 7))))
    by (cbn [List.length] in *; rewrite length_app; simpl; lia).
  cbn [parseValue skipWS].
  change (isJSONWhiteSpace 91) with false. cbv iota.
  change (91 =? 123)%N with false; change (91 =? 91)%N with true. cbv iota.
  rewrite Hr. cbn [skipWS]. change (isJSONWhiteSpace 123) with false.
  cbv iota. rewrite <- Hr, Etext.
  rewrite (parseElements_records (tx :: l) _ [] [] Hfin) by discriminate.
  reflexivity.
Qed.

(** *** The fuel of [JSON_parse] is enough *)

Lemma skipWS_length :
  forall s, (List.length (skipWS s) <= List.length s)%nat.
Proof.
  induction s as [|c s IH]; simpl; [lia|].
  destruct (isJSONWhiteSpace c); simpl; lia.
Qed.

Lemma spanDigits_length :
  forall s ds rest,
    spanDigits s = (ds, rest) ->
    List.length s = (List.length ds + List.length rest)%nat.
Proof.
  induction s as [|c s IH]; intros ds rest; simpl.
  - intros H; inversion H; reflexivity.
  - destruct (isDigit c).
    + destruct (spanDigits s) as [ds' rest'] eqn:E.
      intros H; inversion H; subst; simpl.
      rewrite (IH ds' rest eq_refl); reflexivity.
    + intros H; inversion H; reflexivity.
Qed.

Lemma parseStringChars_length :
  forall s x rest,
    parseStringChars s = Some (x, rest) ->
    (List.length rest < List.length s)%nat.
Proof.
  intros s; remember (List.length s) as n eqn:En.
  revert s En; induction n as [n IH] using lt_wf_ind; intros s En x rest.
  destruct s as [|c s']; [discriminate|]. cbn [parseStringChars].
  destruct (c =? 34)%N.
  { intros H; inversion H; subst; simpl; lia. }
  assert (Hcons : forall ch t,
            (List.length t < n)%nat ->
            consResult ch (parseStringChars t) = Some (x, rest) ->
            (List.length rest < List.length t)%nat).
  { intros ch t Ht H; unfold consResult in H.
    destruct (parseStringChars t) as [[x' r']|] eqn:E; [|discriminate].
    inversion H; subst. eapply (IH (List.length t) Ht t eq_refl), E. }
  destruct (c =? 92)%N.
  - destruct s' as [|e s'']; [discriminate|].
    destruct (singleEscape e).
    + intros H; apply Hcons in H; simpl in *; lia.
    + destruct (e =? 117)%N; [|discriminate].
      destruct s'' as [|h1 [|h2 [|h3 [|h4 s3]]]]; try discriminate.
      destruct (hex4 h1 h2 h3 h4); [|discriminate].
      intros H; apply Hcons in H; simpl in *; lia.
  - destruct (c <? 32)%N; [discriminate|].
    intros H; apply Hcons in H; simpl in *; lia.
Qed.

Lemma spanSign_length :
  forall s neg rest,
    spanSign s = (neg, rest) -> (List.length rest <= List.length s)%nat.
Proof.
  intros [|c s] neg rest; simpl.
  - intros H; inversion H; simpl; lia.
  - destruct (c =? 45)%N; [intros H; inversion H; simpl; lia|].
    destruct (c =? 43)%N; intros H; inversion H; simpl; lia.
Qed.

Lemma parseNumber_length :
  forall s x rest,
    parseNumber s = Some (x, rest) ->
    (List.length rest < List.length s)%nat.
Proof.
  intros s x rest; unfold parseNumber.
  destruct (spanMinus s) as [neg s0] eqn:E0.
  assert (H0 : (List.length s0 <= List.length s)%nat).
  { destruct s as [|c s']; simpl in E0; [inversion E0; simpl; lia|].
    destruct (c =? 45)%N; inversion E0; simpl; lia. }
  destruct (spanDigits s0) as [[|d ip] s1] eqn:E1; [discriminate|].
  apply spanDigits_length in E1; simpl in E1.
  destruct ((d =? 48)%N && negb (Nat.eqb (List.length ip) 0));
    [discriminate|].
  destruct (parseFraction s1) as [[fp s2]|] eqn:E2; [|discriminate].
  assert (H2 : (List.length s2 <= List.length s1)%nat).
  { destruct s1 as [|c s1']; simpl in E2; [inversion E2; simpl; lia|].
    destruct (c =? 46)%N; [|inversion E2; simpl; lia].
    destruct (spanDigits s1') as [fp' r'] eqn:E; apply spanDigits_length in E.
    destruct fp'; inversion E2; subst; simpl in *; lia. }
  destruct (parseExponent s2) as [[ex r]|] eqn:E3; [|discriminate].
  assert (H3 : (List.length r <= List.length s2)%nat).
  { destruct s2 as [|c s2']; simpl in E3; [inversion E3; simpl; lia|].
    destruct ((c =? 101)%N || (c =? 69)%N); [|inversion E3; simpl; lia].
    destruct (spanSign s2') as [eneg s3] eqn:Es.
    apply spanSign_length in Es.
    destruct (spanDigits s3) as [ds r'] eqn:E; apply spanDigits_length in E.
    destruct ds; inversion E3; subst; simpl in *; lia. }
  intros H; inversion H; subst; lia.
Qed.

Lemma dropPrefix_length :
  forall p s rest,
    dropPrefix p s = Some rest -> (List.length rest <= List.length s)%nat.
Proof.
  intros p s rest; unfold dropPrefix.
  destruct (startsWith p s); [|discriminate].
  intros H; inversion H; subst. rewrite length_skipn; lia.
Qed.

(** Every successful call of the parser consumes input. *)
Lemma parse_consumes :
  forall fuel,
    (forall s v rest,
        parseValue fuel s = Some (v, rest) ->
        (List.length rest < List.length s)%nat)
    /\ (forall s acc v rest,
          parseElements fuel s acc = Some (v, rest) ->
          (List.length rest < List.length s)%nat)
    /\ (forall s acc v rest,
          parseMembers fuel s acc = Some (v, rest) ->
          (List.length rest < List.length s)%nat).
Proof.
  induction fuel as [|fuel (IHv & IHe & IHm)].
  - repeat split; intros; discriminate.
  - split; [|split].
    + intros s v rest; cbn [parseValue].
      pose proof (skipWS_length s) as Hs.
      destruct (skipWS s) as [|c r]; [discriminate|]. simpl in Hs.
      destruct (c =? 123)%N.
      { pose proof (skipWS_length r) as Hr.
        destruct (skipWS r) as [|c' r']; [discriminate|]. simpl in Hr.
        destruct (c' =? 125)%N.
        - intros H; inversion H; subst; lia.
        - intros H; apply IHm in H; lia. }
      destruct (c =? 91)%N.
      { pose proof (skipWS_length r) as Hr.
        destruct (skipWS r) as [|c' r']; [discriminate|]. simpl in Hr.
        destruct (c' =? 93)%N.
        - intros H; inversion H; subst; lia.
        - intros H; apply IHe in H; lia. }
      destruct (c =? 34)%N.
      { destruct (parseStringChars r) as [[x r']|] eqn:E; [|discriminate].
        apply parseStringChars_length in E.
        intros H; inversion H; subst; lia. }
      destruct (c =? 116)%N.
      { destruct (dropPrefix (str "rue") r) as [r'|] eqn:E; [|discriminate].
        apply dropPrefix_length in E. intros H; inversion H; subst; lia. }
      destruct (c =? 102)%N.
      { destruct (dropPrefix (str "alse") r) as [r'|] eqn:E; [|discriminate].
        apply dropPrefix_length in E. intros H; inversion H; subst; lia. }
      destruct (c =? 110)%N.
      { destruct (dropPrefix (str "ull") r) as [r'|] eqn:E; [|discriminate].
        apply dropPrefix_length in E. intros H; inversion H; subst; lia. }
      destruct (parseNumber (c :: r)) as [[x r']|] eqn:E; [|discriminate].
      apply parseNumber_length in E. simpl in E.
      intros H; inversion H; subst; lia.
    + intros s acc v rest; cbn [parseElements].
      destruct (parseValue fuel s) as [[v0 r]|] eqn:E; [|discriminate].
      apply IHv in E.
      pose proof (skipWS_length r) as Hr.
      destruct (skipWS r) as [|c r']; [discriminate|]. simpl in Hr.
      destruct (c =? 44)%N; [intros H; apply IHe in H; lia|].
      destruct (c =? 93)%N; [|discriminate].
      intros H; inversion H; subst; lia.
    + intros s acc v rest; cbn [parseMembers].
      pose proof (skipWS_length s) as Hs.
      destruct (skipWS s) as [|c r]; [discriminate|]. simpl in Hs.
      destruct (c =? 34)%N; [|discriminate].
      destruct (parseStringChars r) as [[k r1]|] eqn:E1; [|discriminate].
      apply parseStringChars_length in E1.
      pose proof (skipWS_length r1) as Hr1.
      destruct (skipWS r1) as [|c1 r2]; [discriminate|]. simpl in Hr1.
      destruct (c1 =? 58)%N; [|discriminate].
      destruct (parseValue fuel r2) as [[v0 r3]|] eqn:E2; [|discriminate].
      apply IHv in E2.
      pose proof (skipWS_length r3) as Hr3.
      destruct (skipWS r3) as [|c3 r4]; [discriminate|]. simpl in Hr3.
      destruct (c3 =? 44)%N; [intros H; apply IHm in H; lia|].
      destruct (c3 =? 125)%N; [|discriminate].
      intros H; inversion H; subst; lia.
Qed.

(** Beyond twice the length of the input, more fuel changes nothing. *)
Lemma parse_fuel_step :
  forall fuel,
    (forall s,
        (2 * List.length s + 2 <= fuel)%nat ->
        parseValue (S fuel) s = parseValue fuel s)
    /\ (forall s acc,
          (2 * List.length s + 3 <= fuel)%nat ->
          parseElements (S fuel) s acc = parseElements fuel s acc)
    /\ (forall s acc,
          (2 * List.length s + 3 <= fuel)%nat ->
          parseMembers (S fuel) s acc = parseMembers fuel s acc).
Proof.
  induction fuel as [|fuel (IHv & IHe & IHm)].
  - repeat split; intros; lia.
  - destruct (parse_consumes fuel) as (Cv & Ce & Cm).
    split; [|split].
    + intros s Hf. cbn [parseValue].
      pose proof (skipWS_length s) as Hs.
      destruct (skipWS s) as [|c r]; [reflexivity|]. simpl in Hs.
      pose proof (skipWS_length r) as Hr.
      destruct (c =? 123)%N.
      { destruct (skipWS r) as [|c' r']; [reflexivity|].
        destruct (c' =? 125)%N; [reflexivity|]. apply IHm; lia. }
      destruct (c =? 91)%N.
      { destruct (skipWS r) as [|c' r']; [reflexivity|].
        destruct (c' =? 93)%N; [reflexivity|]. apply IHe; lia. }
      reflexivity.
    + intros s acc Hf.
      change (parseElements (S (S fuel)) s acc)
        with (match parseValue (S fuel) s with
              | Some (v, r) =>
                  match skipWS r with
                  | c :: r' =>
                      if (c =? 44)%N then parseElements (S fuel) r' (v :: acc)
                      else if (c =? 93)%N
                           then Some (JArray (rev (v :: acc)), r')
                           else None
                  | [] => None
                  end
              | None => None
              end).
      change (parseElements (S fuel) s acc)
        with (match parseValue fuel s with
              | Some (v, r) =>
                  match skipWS r with
                  | c :: r' =>
                      if (c =? 44)%N then parseElements fuel r' (v :: acc)
                      else if (c =? 93)%N
                           then Some (JArray (rev (v :: acc)), r')
                           else None
                  | [] => None
                  end
              | None => None
              end).
      rewrite IHv by lia.
      destruct (parseValue fuel s) as [[v r]|] eqn:E; [|reflexivity].
      apply Cv in E.
      pose proof (skipWS_length r) as Hr.
      destruct (skipWS r) as [|c r']; [reflexivity|]. simpl in Hr.
      destruct (c =? 44)%N; [|reflexivity].
      apply IHe; lia.
    + intros s acc Hf.
      cbn [parseMembers].
      pose proof (skipWS_length s) as Hs.
      destruct (skipWS s) as [|c r]; [reflexivity|]. simpl in Hs.
      destruct (c =? 34)%N; [|reflexivity].
      destruct (parseStringChars r) as [[k r1]|] eqn:E1; [|reflexivity].
      apply parseStringChars_length in E1.
      pose proof (skipWS_length r1) as Hr1.
      destruct (skipWS r1) as [|c1 r2]; [reflexivity|]. simpl in Hr1.
      destruct (c1 =? 58)%N; [|reflexivity].
      rewrite IHv by lia.
      destruct (parseValue fuel r2) as [[v r3]|] eqn:E2; [|reflexivity].
      apply Cv in E2.
      pose proof (skipWS_length r3) as Hr3.
      destruct (skipWS r3) as [|c3 r4]; [reflexivity|]. simpl in Hr3.
      destruct (c3 =? 44)%N; [|reflexivity].
      apply IHm; lia.
Qed.

(** The fuel [JSON_parse] gives the parser is enough: with any greater
    fuel the parser returns what it returns with this one, so that a
    rejection is a rejection of the text. *)
Lemma parseValue_fuel_enough :
  forall text extra,
    parseValue (2 * List.length text + 2 + extra) text
    = parseValue (2 * List.length text + 2) text.
Proof.
  intros text extra; induction extra as [|extra IH].
  - rewrite Nat.add_0_r; reflexivity.
  - rewrite Nat.add_succ_r.
    destruct (parse_fuel_step (2 * List.length text + 2 + extra)) as (Hv & _).
    rewrite Hv by lia. exact IH.
Qed.

(** What the parser returns with some fuel it returns with more. *)
Lemma parse_fuel_more :
  forall fuel,
    (forall s res,
        parseValue fuel s = Some res -> parseValue (S fuel) s = Some res)
    /\ (forall s acc res,
          parseElements fuel s acc = Some res ->
          parseElements (S fuel) s acc = Some res)
    /\ (forall s acc res,
          parseMembers fuel s acc = Some res ->
          parseMembers (S fuel) s acc = Some res).
Proof.
  induction fuel as [|fuel (IHv & IHe & IHm)].
  - repeat split; intros; discriminate.
  - split; [|split].
    + intros s res. cbn [parseValue].
      destruct (skipWS s) as [|c r]; [discriminate|].
      destruct (c =? 123)%N.
      { destruct (skipWS r) as [|c' r']; [discriminate|].
        destruct (c' =? 125)%N; [auto | apply IHm]. }
      destruct (c =? 91)%N.
      { destruct (skipWS r) as [|c' r']; [discriminate|].
        destruct (c' =? 93)%N; [auto | apply IHe]. }
      auto.
    + intros s acc res.
      change (parseElements (S (S fuel)) s acc)
        with (match parseValue (S fuel) s with
              | Some (v, r) =>
                  match skipWS r with
                  | c :: r' =>
                      if (c =? 44)%N then parseElements (S fuel) r' (v :: acc)
                      else if (c =? 93)%N
                           then Some (JArray (rev (v :: acc)), r')
                           else None
                  | [] => None
                  end
              | None => None
              end).
      change (parseElements (S fuel) s acc)
        with (match parseValue fuel s with
              | Some (v, r) =>
                  match skipWS r with
                  | c :: r' =>
                      if (c =? 44)%N then parseElements fuel r' (v :: acc)
                      else if (c =? 93)%N
                           then Some (JArray (rev (v :: acc)), r')
                           else None
                  | [] => None
                  end
              | None => None
              end).
      destruct (parseValue fuel s) as [[v r]|] eqn:E; [|discriminate].
      rewrite (IHv s (v, r) E).
      destruct (skipWS r) as [|c r']; [discriminate|].
      destruct (c =? 44)%N; [apply IHe | auto].
    + intros s acc res. cbn [parseMembers].
      destruct (skipWS s) as [|c r]; [discriminate|].
      destruct (c =? 34)%N; [|discriminate].
      destruct (parseStringChars r) as [[k r1]|]; [|discriminate].
      destruct (skipWS r1) as [|c1 r2]; [discriminate|].
      destruct (c1 =? 58)%N; [|discriminate].
      destruct (parseValue fuel r2) as [[v r3]|] eqn:E; [|discriminate].
      rewrite (IHv r2 (v, r3) E).
      destruct (skipWS r3) as [|c3 r4]; [discriminate|].
      destruct (c3 =? 44)%N; [apply IHm | auto].
Qed.

Lemma parseValue_fuel_le :
  forall fuel fuel' s res,
    (fuel <= fuel')%nat ->
    parseValue fuel s = Some res -> parseValue fuel' s = Some res.
Proof.
  intros fuel fuel' s res Hle H; induction Hle as [|fuel' Hle IH].
  - exact H.
  - apply (parse_fuel_more fuel'), IH.
Qed.

(** [JSON_parse] accepts every text that the parser reads to its end
    with some fuel, and yields the value read. *)
Lemma JSON_parse_accepts :
  forall fuel text v rest,
    parseValue fuel text = Some (v, rest) -> skipWS rest = [] ->
    JSON_parse text = Normal v.
Proof.
  intros fuel text v rest H Hrest; unfold JSON_parse.
  assert (E : parseValue (2 * List.length text + 2) text = Some (v, rest)).
  { destruct (Nat.le_gt_cases fuel (2 * List.length text + 2)) as [Hle|Hgt].
    - eapply parseValue_fuel_le; eassumption.
    - rewrite <- (parseValue_fuel_enough text
                    (fuel - (2 * List.length text + 2))).
      replace (2 * List.length text + 2 + (fuel - (2 * List.length text + 2)))%nat
        with fuel by lia.
      exact H. }
  rewrite E, Hrest; reflexivity.
Qed.

(** ** Saving and loading *)

Lemma strict_eq_readBack :
  forall x, finiteNumber x -> strict_eq x (readBack x) = true.
Proof.
  intros [s|s| |s m e] [Hf _]; try discriminate.
  - reflexivity.
  - unfold strict_eq, SFeqb, readBack, SFcompare.
    destruct s; rewrite Z.compare_refl, Pos.compare_cont_refl; reflexivity.
Qed.

Lemma sameRecord_readBack :
  forall tx, finiteNumber (amount tx) -> sameRecord tx (readBackRecord tx).
Proof.
  intros tx H; unfold sameRecord; simpl.
  rewrite strict_eq_readBack by exact H; repeat split.
Qed.

Lemma readBackRecord_id :
  forall tx, amount tx <> S754_zero true -> readBackRecord tx = tx.
Proof.
  intros [i a d t ty] H; unfold readBackRecord; simpl in *.
  destruct a as [[|]| | |]; try reflexivity; congruence.
Qed.

(** The runtime value determines the collection. *)
Lemma toJSArray_injective :
  forall l l', toJSArray l = toJSArray l' -> l = l'.
Proof.
  unfold toJSArray; intros l l' H; injection H as H; revert l' H.
  induction l as [|a l IH]; intros [|b l'] H; try discriminate.
  - reflexivity.
  - simpl in H; injection H as Hid Ham Hde Hda Hty Hrest.
    rewrite (IH l' Hrest).
    destruct a as [i x d t ty], b as [i' x' d' t' ty']; simpl in *.
    subst; f_equal. destruct ty, ty'; try reflexivity; discriminate.
Qed.

(** C7. For every collection whose amounts are finite Numbers, the
    initializer run on the text the effect has written yields the runtime
    value of a collection that has the same records in the same order,
    the fields being equal and the amounts equal under [===]; so the two
    collections are equal as sets of records.  The loaded collection is
    the saved one itself when no amount is the negative zero, which is
    written as [0] and read back as the positive zero. *)
Theorem load_of_saved_collection :
  forall S : list Transaction,
    Forall (fun tx => finiteNumber (amount tx)) S ->
    exists loaded : list Transaction,
      initialTransactions (Normal (Some (savedText S)))
      = Normal (toJSArray loaded)
      /\ Forall2 sameRecord S loaded
      /\ (forall tx, In tx S -> exists tx', In tx' loaded /\ sameRecord tx tx')
      /\ (forall tx',
            In tx' loaded -> exists tx, In tx S /\ sameRecord tx tx')
      /\ (Forall (fun tx => amount tx <> S754_zero true) S -> loaded = S).
Proof.
  intros S HS; exists (List.map readBackRecord S).
  split; [|split; [|split; [|split]]].
  - unfold initialTransactions.
    assert (Ht : truthy (savedText S) = true) by reflexivity.
    rewrite Ht, JSON_parse_savedText by exact HS. reflexivity.
  - induction HS as [|tx S Htx HS IH]; simpl; constructor;
      [apply sameRecord_readBack, Htx | exact IH].
  - intros tx Hin; exists (readBackRecord tx); split.
    + apply in_map, Hin.
    + apply sameRecord_readBack.
      rewrite Forall_forall in HS; apply HS, Hin.
  - intros tx' Hin; apply in_map_iff in Hin.
    destruct Hin as (tx & <- & Hin); exists tx; split; [exact Hin|].
    apply sameRecord_readBack.
    rewrite Forall_forall in HS; apply HS, Hin.
  - intros Hnz; clear HS; induction Hnz as [|tx S Htx _ IH]; simpl.
    + reflexivity.
    + rewrite IH, readBackRecord_id by exact Htx; reflexivity.
Qed.

Lemma load_of_saved_collection_witness :
  exists loaded : list Transaction,
    initialTransactions (Normal (Some (savedText [gift; spent; tenth])))
    = Normal (toJSArray loaded)
    /\ Forall2 sameRecord [gift; spent; tenth] loaded
    /\ (forall tx,
          In tx [gift; spent; tenth] ->
          exists tx', In tx' loaded /\ sameRecord tx tx')
    /\ (forall tx',
          In tx' loaded ->
          exists tx, In tx [gift; spent; tenth] /\ sameRecord tx tx')
    /\ (Forall (fun tx => amount tx <> S754_zero true) [gift; spent; tenth] ->
        loaded = [gift; spent; tenth]).
Proof.
  apply (load_of_saved_collection [gift; spent; tenth]).
  repeat constructor.
Defined.

Example savedText_sample :
  savedText [tenth]
  = JS.str "[{" ++ QuoteJSONString (JS.str "id") ++ JS.str ":"
      ++ QuoteJSONString (JS.str "id-3") ++ JS.str ","
      ++ QuoteJSONString (JS.str "amount") ++ JS.str ":0.1,"
      ++ QuoteJSONString (JS.str "description") ++ JS.str ":"
      ++ QuoteJSONString (JS.str "a") ++ JS.str ","
      ++ QuoteJSONString (JS.str "date") ++ JS.str ":"
      ++ QuoteJSONString (JS.str "2024-03-03T00:00:00.000Z") ++ JS.str ","
      ++ QuoteJSONString (JS.str "type") ++ JS.str ":"
      ++ QuoteJSONString (JS.str "myMoney") ++ JS.str "}]".
Proof. vm_compute; reflexivity. Qed.

(** ** The amounts the component holds are binary64 values *)

Lemma filter_Forall :
  forall (P : Transaction -> Prop) (f : Transaction -> bool) l,
    Forall P l -> Forall P (filter f l).
Proof.
  intros P f l H; induction H as [|x l Hx Hl IH]; simpl.
  - constructor.
  - destruct (f x); [constructor; assumption | exact IH].
Qed.

Lemma run_keeps_amounts_valid :
  forall (getTime : jsstring -> option Z) (cs : list Command) (st : AppState),
    Forall (fun tx => valid_binary prec emax (amount tx) = true)
      (transactions st) ->
    Forall (fun tx => valid_binary prec emax (amount tx) = true)
      (transactions (run getTime cs st)).
Proof.
  intros getTime cs; induction cs as [|c cs IH]; intros st H; simpl.
  - exact H.
  - apply IH. destruct c as [env a d t | confirmed id0]; simpl.
    + unfold add.
      destruct (handleAddTransaction getTime env (fillForm a d t st))
        as [|next] eqn:E; [exact H|].
      apply added_permutation in E.
      eapply Permutation_Forall; [apply Permutation_sym, E|].
      constructor; [apply parseFloat_valid | exact H].
    + destruct confirmed; simpl; [apply filter_Forall, H | exact H].
Qed.


(** * The component as a whole *)

(** ** What is written to the storage slot *)

Lemma dispatch_state :
  forall getTime w c,
    state (dispatch getTime w c) = step getTime (state w) c.
Proof.
  intros getTime w [env a d t | confirmed id0]; simpl.
  - unfold submit, add; simpl.
    destruct (handleAddTransaction getTime env (fillForm a d t (state w)));
      reflexivity.
  - unfold pressDelete; destruct confirmed; reflexivity.
Qed.

Lemma runWorld_state :
  forall getTime cs w,
    state (runWorld getTime cs w) = run getTime cs (state w).
Proof.
  intros getTime cs; unfold runWorld, run.
  induction cs as [|c cs IH]; intros w; simpl.
  - reflexivity.
  - rewrite IH, dispatch_state; reflexivity.
Qed.

Lemma dispatch_written :
  forall getTime w c, written w -> written (dispatch getTime w c).
Proof.
  intros getTime w [env a d t | confirmed id0] [older H]; simpl.
  - unfold submit; simpl.
    destruct (handleAddTransaction getTime env (fillForm a d t (state w)))
      as [|next].
    + exists older; exact H.
    + eexists; reflexivity.
  - unfold pressDelete; destruct confirmed.
    + eexists; reflexivity.
    + exists older; exact H.
Qed.

Lemma runWorld_written :
  forall getTime cs w, written w -> written (runWorld getTime cs w).
Proof.
  intros getTime cs; unfold runWorld.
  induction cs as [|c cs IH]; intros w H; simpl.
  - exact H.
  - apply IH, dispatch_written, H.
Qed.

Lemma readBack_sameRecords :
  forall S : list Transaction,
    Forall (fun tx => finiteNumber (amount tx)) S ->
    Forall2 sameRecord S (List.map readBackRecord S).
Proof.
  intros S H; induction H as [|tx S Htx HS IH]; simpl; constructor;
    [apply sameRecord_readBack, Htx | exact IH].
Qed.

(** X1. After the first render and through every sequence of typing,
    submitting and deleting, the last text handed to [setItem] is the
    text of the collection the component holds at that moment; the state
    is the one the handlers alone produce. *)
Theorem storage_follows_collection :
  forall (getTime : jsstring -> option Z) (cs : list Command)
         (l : list Transaction),
    let w := runWorld getTime cs (mount l) in
    state w = run getTime cs (state (mount l))
    /\ exists older,
         setItemCalls w = savedText (transactions (state w)) :: older.
Proof.
  intros getTime cs l; split.
  - apply runWorld_state.
  - apply runWorld_written. exists []; reflexivity.
Qed.

(** X2. Reading the slot back at any moment gives the collection the
    component holds, as long as its amounts are finite: the same records
    in the same order, a zero amount read as [+0]. *)
Theorem reload_gives_current_collection :
  forall (getTime : jsstring -> option Z) (cs : list Command)
         (l : list Transaction),
    let w := runWorld getTime cs (mount l) in
    Forall (fun tx => finiteNumber (amount tx)) (transactions (state w)) ->
    exists text older,
      setItemCalls w = text :: older
      /\ initialTransactions (Normal (Some text))
         = Normal (toJSArray (List.map readBackRecord (transactions (state w))))
      /\ Forall2 sameRecord (transactions (state w))
           (List.map readBackRecord (transactions (state w))).
Proof.
  intros getTime cs l w Hfin.
  destruct (runWorld_written getTime cs (mount l)) as [older H].
  { exists []; reflexivity. }
  fold w in H.
  exists (savedText (transactions (state w))), older.
  split; [exact H|]. split.
  - unfold initialTransactions.
    assert (Ht : truthy (savedText (transactions (state w))) = true)
      by reflexivity.
    rewrite Ht, JSON_parse_savedText by exact Hfin. reflexivity.
  - apply readBack_sameRecords, Hfin.
Qed.

Lemma reload_gives_current_collection_witness :
  exists text older,
    setItemCalls (runWorld isoTimeValue sampleRun (mount [spent; gift]))
    = text :: older
    /\ initialTransactions (Normal (Some text))
       = Normal
           (toJSArray
              (List.map readBackRecord
                 (transactions
                    (state
                       (runWorld isoTimeValue sampleRun (mount [spent; gift]))))))
    /\ Forall2 sameRecord
         (transactions
            (state (runWorld isoTimeValue sampleRun (mount [spent; gift]))))
         (List.map readBackRecord
            (transactions
               (state
                  (runWorld isoTimeValue sampleRun (mount [spent; gift]))))).
Proof.
  apply (reload_gives_current_collection isoTimeValue sampleRun [spent; gift]).
  vm_compute; repeat constructor.
Defined.

Lemma dispatch_writes :
  forall getTime w c,
    List.length (setItemCalls (dispatch getTime w c))
    = ((if commits c then 1 else 0) + List.length (setItemCalls w))%nat.
Proof.
  intros getTime w [env a d t | confirmed id0]; simpl.
  - unfold submit, handleAddTransaction; simpl.
    destruct (truthy (trim d)); simpl; [|reflexivity].
    destruct (isNaN (parseFloat a)); reflexivity.
  - unfold pressDelete; destruct confirmed; reflexivity.
Qed.

(** X3. The slot is written once after the first render and once more for
    each submit that passes the guard and each delete the user confirms,
    whether or not the delete removes a record; typing, a rejected submit
    and a declined delete write nothing. *)
Theorem writes_are_counted :
  forall (getTime : jsstring -> option Z) (cs : list Command)
         (l : list Transaction),
    List.length (setItemCalls (runWorld getTime cs (mount l)))
    = S (List.length (filter commits cs)).
Proof.
  intros getTime cs l.
  assert (H : forall w,
             List.length (setItemCalls (runWorld getTime cs w))
             = (List.length (filter commits cs)
                + List.length (setItemCalls w))%nat).
  { unfold runWorld.
    induction cs as [|c cs IH]; intros w; simpl; [reflexivity|].
    rewrite IH, dispatch_writes.
    destruct (commits c); simpl; lia. }
  rewrite H; simpl; lia.
Qed.

(** X4. A confirmed delete of an id that no record has leaves the state as
    it is and still writes the slot again, with the text it already
    holds. *)
Theorem delete_of_unknown_id_rewrites :
  forall (id0 : jsstring) (w : World),
    ~ In id0 (List.map id (transactions (state w))) ->
    pressDelete true id0 w
    = {| state := state w;
         setItemCalls := savedText (transactions (state w)) :: setItemCalls w |}.
Proof.
  intros id0 w Hnot; unfold pressDelete, handleDeleteTransaction; simpl.
  assert (E : filter (fun tx => negb (jsstring_eqb (id tx) id0))
                (transactions (state w)) = transactions (state w)).
  { apply filter_all; intros x Hx.
    apply negb_true_iff, jsstring_eqb_neq; intros E0.
    apply Hnot; rewrite <- E0; apply in_map, Hx. }
  rewrite E; destruct (state w); reflexivity.
Qed.

Lemma delete_of_unknown_id_rewrites_witness :
  pressDelete true (str "id-9") (mount [spent; gift])
  = {| state := state (mount [spent; gift]);
       setItemCalls :=
         savedText (transactions (state (mount [spent; gift])))
           :: setItemCalls (mount [spent; gift]) |}.
Proof.
  apply (delete_of_unknown_id_rewrites (str "id-9") (mount [spent; gift])).
  vm_compute; decide_by_computation.
Defined.


(** ** Submitting twice *)

(** X5. An accepted submit empties the amount and description fields and
    keeps the selected type, so that the next submit, with nothing typed
    in between, is rejected and adds nothing. *)
Theorem second_submit_is_rejected :
  forall (getTime : jsstring -> option Z) (env env' : Env)
         (st next : AppState),
    handleAddTransaction getTime env st = Added next ->
    newAmount next = [] /\ newDescription next = []
    /\ newType next = newType st
    /\ handleAddTransaction getTime env' next = Alerted.
Proof.
  intros getTime env env' st next H.
  destruct (handleAddTransaction_cases getTime env st) as [[E _] | [E _]];
    rewrite E in H; [discriminate|].
  injection H as <-; simpl.
  repeat split; reflexivity.
Qed.

Lemma second_submit_is_rejected_witness :
  newAmount
    (step isoTimeValue (emptyForm [spent; gift])
       (Add (sampleEnv "id-6" "2024-03-05T08:00:00.000Z")
          (str "12.5") (str "Book") DadsDebt)) = []
  /\ newDescription
       (step isoTimeValue (emptyForm [spent; gift])
          (Add (sampleEnv "id-6" "2024-03-05T08:00:00.000Z")
             (str "12.5") (str "Book") DadsDebt)) = []
  /\ newType
       (step isoTimeValue (emptyForm [spent; gift])
          (Add (sampleEnv "id-6" "2024-03-05T08:00:00.000Z")
             (str "12.5") (str "Book") DadsDebt))
     = newType (fillForm (str "12.5") (str "Book") DadsDebt
                  (emptyForm [spent; gift]))
  /\ handleAddTransaction isoTimeValue
       (sampleEnv "id-7" "2024-03-05T08:00:00.001Z")
       (step isoTimeValue (emptyForm [spent; gift])
          (Add (sampleEnv "id-6" "2024-03-05T08:00:00.000Z")
             (str "12.5") (str "Book") DadsDebt))
     = Alerted.
Proof.
  apply (second_submit_is_rejected isoTimeValue
           (sampleEnv "id-6" "2024-03-05T08:00:00.000Z")
           (sampleEnv "id-7" "2024-03-05T08:00:00.001Z")
           (fillForm (str "12.5") (str "Book") DadsDebt
              (emptyForm [spent; gift]))).
  vm_compute; reflexivity.
Defined.

(** ** Where a new record goes *)

Section Placement.

Variable getTime : jsstring -> option Z.

Lemma sorted_split :
  forall (tn : Z) (l : list Transaction),
    sortedByDateDesc getTime l ->
    exists l1 l2,
      l = l1 ++ l2
      /\ Forall (notOlderThan getTime tn) l1
      /\ Forall (olderThan getTime tn) l2.
Proof.
  intros tn l [Hv Hs]; induction Hs as [|x l Hs IH Hx].
  - exists [], []; repeat split; constructor.
  - inversion Hv as [|? ? Hvx Hvl]; subst.
    unfold validDate in Hvx.
    destruct (getTime (date x)) as [tx|] eqn:Ex; [|congruence].
    destruct (Z_le_gt_dec tn tx) as [Hle | Hgt].
    + destruct (IH Hvl) as (l1 & l2 & -> & H1 & H2).
      exists (x :: l1), l2; repeat split; [|exact H2].
      constructor; [exists tx; split; [exact Ex | exact Hle] | exact H1].
    + exists [], (x :: l); repeat split; [constructor|].
      constructor; [exists tx; split; [exact Ex | lia]|].
      rewrite Forall_forall in Hx |- *; intros y Hy.
      specialize (Hx y Hy); unfold newerOrSame in Hx; rewrite Ex in Hx.
      destruct (getTime (date y)) as [ty|] eqn:Ey; [|contradiction].
      exists ty; split; [exact Ey | lia].
Qed.

Lemma datedAt_none :
  forall (P : Transaction -> Prop) (t : Z) (l : list Transaction),
    Forall P l ->
    (forall x, P x -> getTime (date x) <> Some t) ->
    datedAt getTime t l = [].
Proof.
  intros P t l H HP; unfold datedAt; apply filter_none; intros x Hx.
  rewrite Forall_forall in H; specialize (HP x (H x Hx)).
  destruct (getTime (date x)) as [t'|]; [|reflexivity].
  apply Z.eqb_neq; congruence.
Qed.

Lemma placed_sorted :
  forall (tn : Z) (x : Transaction) (l1 l2 : list Transaction),
    getTime (date x) = Some tn ->
    sortedByDateDesc getTime (l1 ++ l2) ->
    Forall (notOlderThan getTime tn) l1 ->
    Forall (olderThan getTime tn) l2 ->
    sortedByDateDesc getTime (l1 ++ x :: l2).
Proof.
  intros tn x l1 l2 Ex [Hv Hs] H1 H2; split.
  - apply Forall_app in Hv; destruct Hv as [Hv1 Hv2].
    apply Forall_app; split; [exact Hv1|].
    constructor; [unfold validDate; congruence | exact Hv2].
  - clear Hv; induction H1 as [|y l1 Hy H1 IH]; simpl in *.
    + constructor; [exact Hs|].
      rewrite Forall_forall in H2 |- *; intros y Hy.
      destruct (H2 y Hy) as (ty & Ey & Hlt).
      unfold newerOrSame; rewrite Ex, Ey; lia.
    + inversion Hs as [|? ? Hs' Hall]; subst.
      constructor; [apply IH, Hs'|].
      apply Forall_app in Hall; destruct Hall as [Ha1 Ha2].
      apply Forall_app; split; [exact Ha1|].
      constructor; [|exact Ha2].
      destruct Hy as (ty & Ey & Hle).
      unfold newerOrSame; rewrite Ey, Ex; exact Hle.
Qed.

Lemma added_between :
  forall (env : Env) (st next : AppState) (tn : Z),
    sortedByDateDesc getTime (transactions st) ->
    getTime (nowISOString env) = Some tn ->
    handleAddTransaction getTime env st = Added next ->
    exists l1 l2,
      transactions st = l1 ++ l2
      /\ transactions next = l1 ++ newTransaction env st :: l2
      /\ Forall (notOlderThan getTime tn) l1
      /\ Forall (olderThan getTime tn) l2.
Proof.
  intros env st next tn Hs En H.
  destruct (sorted_split tn (transactions st) Hs) as (l1 & l2 & E & H1 & H2).
  exists l1, l2; split; [exact E|]; split; [|split; assumption].
  apply added_transactions in H; destruct H as (-> & _ & _).
  symmetry; apply stable_sort_unique.
  - apply Forall_app; split; [apply Hs|].
    constructor; [unfold validDate; simpl; congruence | constructor].
  - apply placed_sorted with (tn := tn); try assumption.
    rewrite <- E; exact Hs.
  - intros t; rewrite E, !datedAt_app.
    change (newTransaction env st :: l2)
      with ([newTransaction env st] ++ l2).
    rewrite datedAt_app, <- app_assoc.
    f_equal.
    destruct (Z.eq_dec t tn) as [-> | Hne].
    + rewrite (datedAt_none (olderThan getTime tn) tn l2 H2).
      * rewrite app_nil_r; reflexivity.
      * intros x (tx & Ex & Hlt); rewrite Ex; intros Heq.
        injection Heq as ->; lia.
    + rewrite (datedAt_skip getTime (newTransaction env st) [] tn t En);
        [|congruence].
      simpl; rewrite app_nil_r; reflexivity.
Qed.

(** X6. When the collection is sorted newest first, an accepted submit
    leaves the records in their order and puts the new one after every
    record whose date is not older than now and before every older one:
    first in the usual case, after the records of the same millisecond
    in a tie. *)
Theorem new_record_is_placed_by_date :
  forall (env : Env) (st next : AppState) (tn : Z),
    sortedByDateDesc getTime (transactions st) ->
    getTime (nowISOString env) = Some tn ->
    handleAddTransaction getTime env st = Added next ->
    exists l1 l2,
      transactions st = l1 ++ l2
      /\ transactions next = l1 ++ newTransaction env st :: l2
      /\ Forall (notOlderThan getTime tn) l1
      /\ Forall (olderThan getTime tn) l2.
Proof. exact added_between. Qed.

Lemma byType_single_other :
  forall (x : Transaction) (T : TransactionType),
    type x <> T -> byType [x] T = [].
Proof.
  intros x T H; unfold byType; simpl.
  apply type_eqb_neq in H; rewrite H; reflexivity.
Qed.

(** X7. On a collection sorted newest first, an accepted submit leaves the
    list and the total of the other type exactly as they were. *)
Theorem add_leaves_other_type :
  forall (env : Env) (st next : AppState) (T : TransactionType),
    sortedByDateDesc getTime (transactions st) ->
    getTime (nowISOString env) <> None ->
    handleAddTransaction getTime env st = Added next ->
    T <> newType st ->
    byType (transactions next) T = byType (transactions st) T
    /\ totalFor (transactions next) T = totalFor (transactions st) T.
Proof.
  intros env st next T Hs En H HT.
  destruct (getTime (nowISOString env)) as [tn|] eqn:E; [clear En|congruence].
  destruct (added_between env st next tn Hs E H) as (l1 & l2 & E1 & E2 & _).
  assert (Hb : byType (transactions next) T = byType (transactions st) T).
  { rewrite E1, E2.
    change (newTransaction env st :: l2) with ([newTransaction env st] ++ l2).
    rewrite !byType_app, byType_single_other; [reflexivity|].
    simpl; congruence. }
  split; [exact Hb|]. unfold totalFor; rewrite Hb; reflexivity.
Qed.

(** X8. On a collection sorted newest first, a submit followed by a
    confirmed delete of the id it drew, an id no record had, gives back
    the collection as it was, whether the submit was accepted or not. *)
Theorem delete_undoes_add :
  forall (env : Env) (a d : jsstring) (t : TransactionType) (st : AppState),
    sortedByDateDesc getTime (transactions st) ->
    getTime (nowISOString env) <> None ->
    ~ In (randomUUID env) (List.map id (transactions st)) ->
    transactions
      (run getTime [Add env a d t; Delete true (randomUUID env)] st)
    = transactions st.
Proof.
  intros env a d t st Hs En Hfresh.
  assert (Hkeep :
            forall l, (forall x, In x l -> In x (transactions st)) ->
              filter (fun tx => negb (jsstring_eqb (id tx) (randomUUID env))) l
              = l).
  { intros l Hl; apply filter_all; intros x Hx.
    apply negb_true_iff, jsstring_eqb_neq; intros E0.
    apply Hfresh; rewrite <- E0; apply in_map, Hl, Hx. }
  unfold run; simpl; unfold add.
  destruct (handleAddTransaction getTime env (fillForm a d t st))
    as [|next] eqn:H; simpl.
  - apply Hkeep; auto.
  - destruct (getTime (nowISOString env)) as [tn|] eqn:E;
      [clear En|congruence].
    destruct (added_between env (fillForm a d t st) next tn Hs E H)
      as (l1 & l2 & E1 & E2 & _).
    simpl in E1; rewrite E2, E1.
    rewrite E1 in Hkeep.
    rewrite filter_app; simpl.
    rewrite (proj2 (jsstring_eqb_eq _ _) eq_refl); simpl.
    rewrite !Hkeep; [reflexivity | |];
      intros x Hx; apply in_or_app; auto.
Qed.

End Placement.

Lemma new_record_is_placed_by_date_witness :
  exists l1 l2,
    [spent; gift] = l1 ++ l2
    /\ transactions
         (step isoTimeValue (emptyForm [spent; gift])
            (Add (sampleEnv "id-6" "2024-03-01T12:00:00.000Z")
               (str "12.5") (str "Book") MyMoney))
       = l1
           ++ newTransaction (sampleEnv "id-6" "2024-03-01T12:00:00.000Z")
                (fillForm (str "12.5") (str "Book") MyMoney
                   (emptyForm [spent; gift]))
           :: l2
    /\ Forall (notOlderThan isoTimeValue 1709294400000) l1
    /\ Forall (olderThan isoTimeValue 1709294400000) l2.
Proof.
  apply (new_record_is_placed_by_date isoTimeValue
           (sampleEnv "id-6" "2024-03-01T12:00:00.000Z")
           (fillForm (str "12.5") (str "Book") MyMoney
              (emptyForm [spent; gift]))).
  - unfold sortedByDateDesc; simpl; decide_by_computation.
  - vm_compute; reflexivity.
  - vm_compute; reflexivity.
Defined.

Lemma add_leaves_other_type_witness :
  byType
    (transactions
       (step isoTimeValue (emptyForm [spent; gift])
          (Add (sampleEnv "id-6" "2024-03-01T12:00:00.000Z")
             (str "12.5") (str "Book") MyMoney)))
    DadsDebt
  = byType [spent; gift] DadsDebt
  /\ totalFor
       (transactions
          (step isoTimeValue (emptyForm [spent; gift])
             (Add (sampleEnv "id-6" "2024-03-01T12:00:00.000Z")
                (str "12.5") (str "Book") MyMoney)))
       DadsDebt
     = totalFor [spent; gift] DadsDebt.
Proof.
  apply (add_leaves_other_type isoTimeValue
           (sampleEnv "id-6" "2024-03-01T12:00:00.000Z")
           (fillForm (str "12.5") (str "Book") MyMoney
              (emptyForm [spent; gift]))).
  - unfold sortedByDateDesc; simpl; decide_by_computation.
  - decide_by_computation.
  - vm_compute; reflexivity.
  - discriminate.
Defined.

Lemma delete_undoes_add_witness :
  transactions
    (run isoTimeValue
       [Add (sampleEnv "id-6" "2024-03-01T12:00:00.000Z")
          (str "12.5") (str "Book") MyMoney;
        Delete true (str "id-6")]
       (emptyForm [spent; gift]))
  = [spent; gift].
Proof.
  apply (delete_undoes_add isoTimeValue
           (sampleEnv "id-6" "2024-03-01T12:00:00.000Z")
           (str "12.5") (str "Book") MyMoney (emptyForm [spent; gift])).
  - unfold sortedByDateDesc; simpl; decide_by_computation.
  - decide_by_computation.
  - vm_compute; decide_by_computation.
Defined.


(** ** Deleting *)

Lemma filter_filter :
  forall (f g : Transaction -> bool) (l : list Transaction),
    filter f (filter g l) = filter g (filter f l).
Proof.
  intros f g l; induction l as [|x l IH]; simpl; [reflexivity|].
  destruct (f x) eqn:Ef, (g x) eqn:Eg; simpl;
    rewrite ?Ef, ?Eg, IH; reflexivity.
Qed.

(** X9. Deletes commute, whatever the user answers to each prompt, and a
    second confirmed delete of the same id changes nothing. *)
Theorem deletes_commute :
  forall (getTime : jsstring -> option Z) (c1 c2 : bool)
         (id1 id2 : jsstring) (st : AppState),
    run getTime [Delete c1 id1; Delete c2 id2] st
    = run getTime [Delete c2 id2; Delete c1 id1] st
    /\ run getTime [Delete true id1; Delete true id1] st
       = run getTime [Delete true id1] st.
Proof.
  intros getTime c1 c2 id1 id2 st; unfold run; simpl; split.
  - destruct c1, c2; simpl; try reflexivity.
    f_equal; apply filter_filter.
  - f_equal. induction (transactions st) as [|x l IH]; simpl; [reflexivity|].
    destruct (jsstring_eqb (id x) id1) eqn:E; simpl; rewrite ?E;
      simpl; rewrite IH; reflexivity.
Qed.

(** ** The two lists on the screen *)

Section ViewFacts.

Variable formatCurrency : number -> jsstring.
Variable toLocaleDateString : jsstring -> jsstring.

Lemma rowsOf_TransactionList :
  forall l, rowsOf (TransactionList formatCurrency toLocaleDateString l)
         = List.map (row formatCurrency toLocaleDateString) l.
Proof. intros [|x l]; reflexivity. Qed.

(** X10. With pairwise different ids, pressing the delete button of a row
    and confirming removes the record of that row and no other: the
    records before it and after it stay, in their order, and the list
    and the total of the other type do not change. *)
Theorem delete_button_removes_its_row :
  forall (st : AppState) (tx : Transaction),
    NoDup (List.map id (transactions st)) ->
    In tx (transactions st) ->
    exists l1 l2,
      transactions st = l1 ++ tx :: l2
      /\ transactions
           (fst (handleDeleteTransaction true (deleteId (row formatCurrency toLocaleDateString tx)) st))
         = l1 ++ l2
      /\ forall T,
           T <> type tx ->
           byType (l1 ++ l2) T = byType (transactions st) T
           /\ totalFor (l1 ++ l2) T = totalFor (transactions st) T.
Proof.
  intros st tx Hnd Hin.
  destruct (in_split _ _ Hin) as (l1 & l2 & E).
  exists l1, l2; split; [exact E|].
  unfold handleDeleteTransaction; simpl.
  rewrite E in Hnd |- *; clear E Hin.
  rewrite map_app in Hnd; simpl in Hnd.
  pose proof (NoDup_remove_2 _ _ _ Hnd) as Hnot.
  assert (Hkeep :
            forall l, (forall x, In x l -> In x (l1 ++ l2)) ->
              filter (fun x => negb (jsstring_eqb (id x) (id tx))) l = l).
  { intros l Hl; apply filter_all; intros x Hx.
    apply negb_true_iff, jsstring_eqb_neq; intros E0.
    apply Hnot; rewrite <- E0, <- map_app; apply in_map, Hl, Hx. }
  split.
  - rewrite filter_app; simpl.
    rewrite (proj2 (jsstring_eqb_eq _ _) eq_refl); simpl.
    rewrite !Hkeep; [reflexivity | |];
      intros x Hx; apply in_or_app; auto.
  - intros T HT.
    assert (Hb : byType (l1 ++ l2) T = byType (l1 ++ tx :: l2) T).
    { change (tx :: l2) with ([tx] ++ l2).
      rewrite !byType_app, byType_single_other; [reflexivity|].
      congruence. }
    split; [exact Hb|]. unfold totalFor; rewrite Hb; reflexivity.
Qed.

(** X11. With pairwise different ids in the collection, the React keys of
    the rows of the two lists taken together are pairwise different, and
    the two lists have as many rows as the collection has records. *)
Theorem row_keys_are_unique :
  forall l : list Transaction,
    NoDup (List.map id l) ->
    NoDup
      (List.map key
         (rowsOf (TransactionList formatCurrency toLocaleDateString (myMoneyTransactions l))
          ++ rowsOf (TransactionList formatCurrency toLocaleDateString (dadsDebtTransactions l))))
    /\ List.length
         (rowsOf (TransactionList formatCurrency toLocaleDateString (myMoneyTransactions l))
          ++ rowsOf (TransactionList formatCurrency toLocaleDateString (dadsDebtTransactions l)))
       = List.length l.
Proof.
  intros l Hnd; rewrite !rowsOf_TransactionList.
  unfold myMoneyTransactions, dadsDebtTransactions, byType.
  rewrite <- map_app, map_map; simpl.
  change (fun x : Transaction => id x) with id.
  assert (Hp : Permutation
                 (filter (fun tx => type_eqb (type tx) MyMoney) l
                  ++ filter (fun tx => type_eqb (type tx) DadsDebt) l) l).
  { clear Hnd; induction l as [|x l IH]; simpl; [constructor|].
    destruct (type x); simpl.
    - constructor; exact IH.
    - eapply Permutation_trans;
        [apply Permutation_sym, Permutation_middle|].
      constructor; exact IH. }
  split.
  - eapply Permutation_NoDup;
      [apply Permutation_sym, Permutation_map, Hp | exact Hnd].
  - rewrite length_map; apply Permutation_length, Hp.
Qed.

(** X12. A list shows the line that says there is nothing to show exactly
    when the collection has no record of its type; otherwise it shows one
    row for each record of the type, in the order of the collection. *)
Theorem placeholder_iff_no_record :
  forall (l : list Transaction) (T : TransactionType),
    (TransactionList formatCurrency toLocaleDateString (byType l T) = NoTransactions
     <-> forall tx, In tx l -> type tx <> T)
    /\ (TransactionList formatCurrency toLocaleDateString (byType l T) <> NoTransactions ->
        TransactionList formatCurrency toLocaleDateString (byType l T) = Rows
            (List.map (row formatCurrency toLocaleDateString) (byType l T))).
Proof.
  intros l T; split; [split|].
  - intros H tx Hin HT.
    assert (Hb : In tx (byType l T)) by (apply byType_In; auto).
    destruct (byType l T); [contradiction | discriminate].
  - intros H.
    assert (Hb : byType l T = []).
    { apply filter_none; intros x Hx; apply type_eqb_neq, H, Hx. }
    rewrite Hb; reflexivity.
  - destruct (byType l T); [intros H; contradiction H|]; reflexivity.
Qed.

(** X13. The amount of a row is red exactly when it is below zero or not a
    number; a zero of either sign and every positive amount, infinite
    ones included, is green. *)
Theorem amount_colour :
  forall tx : Transaction,
    amountClassName (row formatCurrency toLocaleDateString tx)
    = match amount tx with
      | S754_zero _ => str "font-bold text-green-500"
      | S754_infinity neg | S754_finite neg _ _ =>
          if neg then str "font-bold text-red-500"
          else str "font-bold text-green-500"
      | S754_nan => str "font-bold text-red-500"
      end.
Proof.
  intros tx; unfold row, amountClassName, geZero; simpl.
  destruct (amount tx) as [s | s | | s m e]; try destruct s; reflexivity.
Qed.

End ViewFacts.

Lemma delete_button_removes_its_row_witness :
  exists l1 l2,
    [tenth; spent; gift] = l1 ++ spent :: l2
    /\ transactions
         (fst (handleDeleteTransaction true
                 (deleteId (row Number_toString (fun s => s) spent))
                 (emptyForm [tenth; spent; gift])))
       = l1 ++ l2
    /\ forall T,
         T <> type spent ->
         byType (l1 ++ l2) T = byType [tenth; spent; gift] T
         /\ totalFor (l1 ++ l2) T = totalFor [tenth; spent; gift] T.
Proof.
  apply (delete_button_removes_its_row Number_toString (fun s => s)
           (emptyForm [tenth; spent; gift]) spent).
  - simpl; repeat constructor; decide_by_computation.
  - simpl; auto.
Defined.

Lemma row_keys_are_unique_witness :
  NoDup
    (List.map key
       (rowsOf
          (TransactionList Number_toString (fun s => s)
             (myMoneyTransactions [tenth; spent; gift]))
        ++ rowsOf
             (TransactionList Number_toString (fun s => s)
                (dadsDebtTransactions [tenth; spent; gift]))))
  /\ List.length
       (rowsOf
          (TransactionList Number_toString (fun s => s)
             (myMoneyTransactions [tenth; spent; gift]))
        ++ rowsOf
             (TransactionList Number_toString (fun s => s)
                (dadsDebtTransactions [tenth; spent; gift])))
     = List.length [tenth; spent; gift].
Proof.
  apply (row_keys_are_unique Number_toString (fun s => s)
           [tenth; spent; gift]).
  simpl; repeat constructor; decide_by_computation.
Defined.


(** ** The amount that is read from the field *)

Lemma trimStart_whiteSpace :
  forall ws s, forallb isWhiteSpace ws = true -> trimStart (ws ++ s) = trimStart s.
Proof.
  induction ws as [|c ws IH]; intros s H; simpl in *; [reflexivity|].
  apply andb_true_iff in H; destruct H as [Hc Hws].
  rewrite Hc; apply IH, Hws.
Qed.

Lemma digit_head :
  forall d,
    isDigit d = true ->
    isWhiteSpace d = false /\ (d =? 45)%N = false /\ (d =? 43)%N = false
    /\ (73 =? d)%N = false.
Proof.
  intros d H; apply isDigit_spec in H.
  unfold isWhiteSpace.
  repeat match goal with
         | |- context [(d =? ?k)%N] =>
             rewrite (proj2 (N.eqb_neq d k)) by lia
         end.
  rewrite (proj2 (N.leb_gt 8192 d)) by lia.
  rewrite (proj2 (N.eqb_neq 73 d)) by lia.
  repeat split; reflexivity.
Qed.

Lemma spanExponent_numberEnd :
  forall rest, numberEnd rest -> spanExponent rest = 0%Z.
Proof.
  intros [|c r]; simpl; [reflexivity|].
  intros (_ & _ & He & HE); rewrite He, HE; reflexivity.
Qed.

Lemma decimal_to_number_isNaN :
  forall neg D E, isNaN (decimal_to_number neg D E) = false.
Proof.
  intros neg D E; unfold decimal_to_number.
  assert (H : forall P Q, isNaN (round_fraction neg P Q) = false).
  { intros P Q; unfold round_fraction.
    repeat match goal with
           | |- context [if ?b then _ else _] => destruct b
           | |- context [match ?m with Z0 => _ | Zpos _ => _ | Zneg _ => _ end] =>
               destruct m
           end; reflexivity. }
  destruct (D <=? 0)%Z; [reflexivity|].
  destruct (0 <=? E)%Z; apply H.
Qed.

Lemma parseFloat_digits :
  forall ds rest,
    ds <> [] -> digits ds -> numberEnd rest ->
    parseFloat (ds ++ rest) = decimal_to_number false (digitsValue ds) 0.
Proof.
  intros [|d ds] rest Hne Hd Hr; [congruence|]; clear Hne.
  pose proof Hd as Hd'; inversion Hd' as [|? ? Hd1 _]; subst.
  destruct (digit_head d Hd1) as (Hw & Hm & Hp & Hi).
  unfold parseFloat.
  assert (Et : trimStart ((d :: ds) ++ rest) = (d :: ds) ++ rest)
    by (simpl; rewrite Hw; reflexivity).
  rewrite Et.
  assert (Es : spanSign ((d :: ds) ++ rest) = (false, (d :: ds) ++ rest))
    by (simpl; rewrite Hm, Hp; reflexivity).
  rewrite Es.
  assert (Ei : startsWith (str "Infinity") ((d :: ds) ++ rest) = false).
  { change (str "Infinity") with (73%N :: str "nfinity").
    cbn [startsWith Datatypes.app]; rewrite Hi; reflexivity. }
  rewrite Ei.
  rewrite (spanDigits_app (d :: ds) rest Hd (numberEnd_notDigit rest Hr)).
  assert (Ef : match rest with
               | c :: s1' => if (c =? 46)%N then spanDigits s1' else ([], rest)
               | [] => ([], rest)
               end = ([], rest)).
  { destruct rest as [|c r]; [reflexivity|].
    destruct Hr as (_ & Hdot & _); rewrite Hdot; reflexivity. }
  rewrite Ef, app_nil_r, spanExponent_numberEnd by exact Hr.
  reflexivity.
Qed.

(** X14. The handler reads the amount as [parseFloat] does: white space
    before the number and any text after it that does not continue it are
    ignored, so that such a field gives the same outcome as the digits
    alone. *)
Theorem amount_is_read_as_a_prefix :
  forall (getTime : jsstring -> option Z) (env : Env)
         (ws ds rest description0 : jsstring) (t : TransactionType)
         (st : AppState),
    forallb isWhiteSpace ws = true ->
    ds <> [] -> digits ds -> numberEnd rest ->
    parseFloat (ws ++ ds ++ rest) = parseFloat ds
    /\ isNaN (parseFloat (ws ++ ds ++ rest)) = false
    /\ transactions
         (step getTime st (Add env (ws ++ ds ++ rest) description0 t))
       = transactions (step getTime st (Add env ds description0 t)).
Proof.
  intros getTime env ws ds rest d0 t st Hws Hne Hd Hr.
  assert (E : parseFloat (ws ++ ds ++ rest) = parseFloat ds).
  { unfold parseFloat at 1; rewrite trimStart_whiteSpace by exact Hws.
    change (parseFloat (ds ++ rest) = parseFloat ds).
    rewrite <- (app_nil_r ds) at 2.
    rewrite !parseFloat_digits by (try exact I; assumption). reflexivity. }
  split; [exact E|]. split.
  - rewrite E, <- (app_nil_r ds), parseFloat_digits
      by (try exact I; assumption).
    apply decimal_to_number_isNaN.
  - simpl; unfold add, handleAddTransaction, newTransaction; simpl.
    rewrite E.
    destruct (negb (truthy (trim d0)) || isNaN (parseFloat ds));
      reflexivity.
Qed.

Lemma amount_is_read_as_a_prefix_witness :
  parseFloat (str " 12abc") = parseFloat (str "12")
  /\ isNaN (parseFloat (str " 12abc")) = false
  /\ transactions
       (step isoTimeValue (emptyForm [gift])
          (Add (sampleEnv "id-6" "2024-03-05T08:00:00.000Z")
             (str " 12abc") (str "Book") MyMoney))
     = transactions
         (step isoTimeValue (emptyForm [gift])
            (Add (sampleEnv "id-6" "2024-03-05T08:00:00.000Z")
               (str "12") (str "Book") MyMoney)).
Proof.
  apply (amount_is_read_as_a_prefix isoTimeValue
           (sampleEnv "id-6" "2024-03-05T08:00:00.000Z")
           (str " ") (str "12") (str "abc") (str "Book") MyMoney
           (emptyForm [gift])).
  - reflexivity.
  - discriminate.
  - repeat constructor.
  - vm_compute; repeat split; reflexivity.
Defined.


(** ** The amount the field hands over *)










Example numberFieldValue_samples :
  numberFieldValue (str "Infinity") = []
  /\ numberFieldValue (str "1e999") = []
  /\ numberFieldValue (str "12abc") = []
  /\ numberFieldValue (str "+5") = []
  /\ numberFieldValue (str "5.") = []
  /\ numberFieldValue (str " 5") = []
  /\ numberFieldValue (str "") = []
  /\ numberFieldValue (str "-12.50") = str "-12.50"
  /\ numberFieldValue (str ".5") = str ".5"
  /\ numberFieldValue (str "1e-3") = str "1e-3"
  /\ numberFieldValue (str "1E+308") = str "1E+308".
Proof. vm_compute; repeat split; reflexivity. Qed.

(** ** The amounts in the collection *)

(** X15. Every amount that a submit puts into the collection is a binary64
    value other than NaN, so a collection of such amounts stays one
    through every sequence of submits and deletes. *)
Theorem amounts_stay_numbers :
  forall (getTime : jsstring -> option Z) (cs : list Command) (st : AppState),
    Forall
      (fun tx =>
         valid_binary prec emax (amount tx) = true
         /\ isNaN (amount tx) = false)
      (transactions st) ->
    Forall
      (fun tx =>
         valid_binary prec emax (amount tx) = true
         /\ isNaN (amount tx) = false)
      (transactions (run getTime cs st)).
Proof.
  intros getTime cs; unfold run.
  induction cs as [|c cs IH]; intros st H; simpl.
  - exact H.
  - apply IH. destruct c as [env a d t | confirmed id0]; simpl.
    + unfold add.
      destruct (handleAddTransaction getTime env (fillForm a d t st))
        as [|next] eqn:E; [exact H|].
      pose proof (added_transactions getTime env _ next E) as (_ & _ & Hn).
      apply added_permutation in E.
      eapply Permutation_Forall; [apply Permutation_sym, E|].
      constructor; [|exact H].
      split; [apply parseFloat_valid | exact Hn].
    + destruct confirmed; simpl; [apply filter_Forall, H | exact H].
Qed.

Lemma amounts_stay_numbers_witness :
  Forall
    (fun tx =>
       valid_binary prec emax (amount tx) = true
       /\ isNaN (amount tx) = false)
    (transactions (run isoTimeValue sampleRun (emptyForm [spent; gift]))).
Proof.
  apply (amounts_stay_numbers isoTimeValue sampleRun
           (emptyForm [spent; gift])).
  repeat constructor.
Defined.

(** ** The order of the lists *)

Lemma filter_sorted :
  forall (getTime : jsstring -> option Z) (f : Transaction -> bool)
         (l : list Transaction),
    sortedByDateDesc getTime l -> sortedByDateDesc getTime (filter f l).
Proof.
  intros getTime f l [Hv Hs]; split; [apply filter_Forall, Hv|].
  clear Hv; induction Hs as [|x l Hs IH Hx]; simpl; [constructor|].
  destruct (f x); [|exact IH].
  constructor; [exact IH|].
  rewrite Forall_forall in Hx |- *; intros y Hy.
  apply Hx; apply filter_In in Hy; tauto.
Qed.

Lemma add_sorts_whole_collection_witness :
  sortedByDateDesc isoTimeValue
    (transactions
       (step isoTimeValue (emptyForm [gift; tenth; spent])
          (Add (sampleEnv "id-6" "2024-03-01T12:00:00.000Z")
             (str "12.5") (str "Book") MyMoney))).
Proof.
  apply (add_sorts_whole_collection isoTimeValue
           (sampleEnv "id-6" "2024-03-01T12:00:00.000Z")
           (fillForm (str "12.5") (str "Book") MyMoney
              (emptyForm [gift; tenth; spent]))).
  - simpl; decide_by_computation.
  - decide_by_computation.
  - vm_compute; reflexivity.
Defined.

Section Shown.

Variable getTime : jsstring -> option Z.
Variable formatCurrency : number -> jsstring.
Variable toLocaleDateString : jsstring -> jsstring.

(** X17. When the collection is sorted newest first, so is each of the two
    lists on the screen, and a delete, confirmed or not, keeps the
    collection sorted. *)
Theorem shown_lists_are_sorted :
  forall (confirmed : bool) (id0 : jsstring) (st : AppState),
    sortedByDateDesc getTime (transactions st) ->
    sortedByDateDesc getTime (myMoneyTransactions (transactions st))
    /\ sortedByDateDesc getTime (dadsDebtTransactions (transactions st))
    /\ sortedByDateDesc getTime
         (transactions (fst (handleDeleteTransaction confirmed id0 st))).
Proof.
  intros confirmed id0 st H; repeat split; try apply filter_sorted, H;
    destruct confirmed; simpl; try apply filter_Forall; try apply H.
  apply (filter_sorted getTime _ _ H).
Qed.

(** X18. When now is later than every date of a collection sorted newest
    first, an accepted submit puts the new record first, and its row is
    the first row of the list of its type, above the rows that were
    there. *)
Theorem new_row_is_on_top :
  forall (env : Env) (st next : AppState) (tn : Z),
    sortedByDateDesc getTime (transactions st) ->
    getTime (nowISOString env) = Some tn ->
    Forall (olderThan getTime tn) (transactions st) ->
    handleAddTransaction getTime env st = Added next ->
    transactions next = newTransaction env st :: transactions st
    /\ rowsOf
         (TransactionList formatCurrency toLocaleDateString
            (byType (transactions next) (newType st)))
       = row formatCurrency toLocaleDateString (newTransaction env st)
           :: rowsOf
                (TransactionList formatCurrency toLocaleDateString
                   (byType (transactions st) (newType st))).
Proof.
  intros env st next tn Hs En Hold H.
  destruct (added_between getTime env st next tn Hs En H)
    as (l1 & l2 & E1 & E2 & H1 & _).
  assert (El : l1 = []).
  { destruct l1 as [|x l1]; [reflexivity|]. exfalso.
    inversion H1 as [|? ? (t1 & Ex1 & Hle) _]; subst.
    rewrite E1 in Hold; inversion Hold as [|? ? (t2 & Ex2 & Hlt) _]; subst.
    rewrite Ex1 in Ex2; injection Ex2 as ->; lia. }
  subst l1; simpl in E1, E2; rewrite <- E1 in E2.
  split; [exact E2|].
  rewrite E2, !rowsOf_TransactionList.
  unfold byType; simpl.
  rewrite (proj2 (type_eqb_eq _ _) eq_refl); reflexivity.
Qed.

End Shown.

Lemma shown_lists_are_sorted_witness :
  sortedByDateDesc isoTimeValue
    (myMoneyTransactions (transactions (emptyForm [tenth; spent; gift])))
  /\ sortedByDateDesc isoTimeValue
       (dadsDebtTransactions (transactions (emptyForm [tenth; spent; gift])))
  /\ sortedByDateDesc isoTimeValue
       (transactions
          (fst (handleDeleteTransaction true (str "id-2")
                  (emptyForm [tenth; spent; gift])))).
Proof.
  apply (shown_lists_are_sorted isoTimeValue true (str "id-2")
           (emptyForm [tenth; spent; gift])).
  unfold sortedByDateDesc; simpl; decide_by_computation.
Defined.

Lemma new_row_is_on_top_witness :
  transactions
    (step isoTimeValue (emptyForm [spent; gift])
       (Add (sampleEnv "id-6" "2024-03-05T08:00:00.000Z")
          (str "12.5") (str "Book") MyMoney))
  = newTransaction (sampleEnv "id-6" "2024-03-05T08:00:00.000Z")
      (fillForm (str "12.5") (str "Book") MyMoney (emptyForm [spent; gift]))
      :: [spent; gift]
  /\ rowsOf
       (TransactionList Number_toString (fun s => s)
          (byType
             (transactions
                (step isoTimeValue (emptyForm [spent; gift])
                   (Add (sampleEnv "id-6" "2024-03-05T08:00:00.000Z")
                      (str "12.5") (str "Book") MyMoney)))
             MyMoney))
     = row Number_toString (fun s => s)
         (newTransaction (sampleEnv "id-6" "2024-03-05T08:00:00.000Z")
            (fillForm (str "12.5") (str "Book") MyMoney
               (emptyForm [spent; gift])))
         :: rowsOf
              (TransactionList Number_toString (fun s => s)
                 (byType [spent; gift] MyMoney)).
Proof.
  apply (new_row_is_on_top isoTimeValue Number_toString (fun s => s)
           (sampleEnv "id-6" "2024-03-05T08:00:00.000Z")
           (fillForm (str "12.5") (str "Book") MyMoney
              (emptyForm [spent; gift]))
           _ 1709625600000%Z).
  - unfold sortedByDateDesc; simpl; decide_by_computation.
  - vm_compute; reflexivity.
  - simpl; repeat constructor;
      eexists; (split; [vm_compute; reflexivity | lia]).
  - vm_compute; reflexivity.
Defined.


(** ** Starting again *)

Lemma stringify_readBackRecord :
  forall tx, JSON_stringify (toJS (readBackRecord tx)) = JSON_stringify (toJS tx).
Proof.
  intros tx; unfold toJS, readBackRecord; cbn [id amount description date type].
  destruct (amount tx) as [s | s | | s m e]; reflexivity.
Qed.

Lemma savedText_readBack :
  forall l, savedText (List.map readBackRecord l) = savedText l.
Proof.
  intros l; unfold savedText, toJSArray; cbn [JSON_stringify].
  rewrite !map_map. do 3 f_equal.
  apply map_ext; intros tx; apply stringify_readBackRecord.
Qed.

(** X19. Starting the component on a slot that holds the text of a
    collection with finite amounts loads a collection whose text is that
    very text, which the first run of the effect writes back: a restart
    does not change what is stored. *)
Theorem restart_keeps_the_slot :
  forall S : list Transaction,
    Forall (fun tx => finiteNumber (amount tx)) S ->
    exists loaded : list Transaction,
      initialTransactions (Normal (Some (savedText S)))
      = Normal (toJSArray loaded)
      /\ setItemCalls (mount loaded) = [savedText S].
Proof.
  intros S HS; exists (List.map readBackRecord S); split.
  - unfold initialTransactions.
    assert (Ht : truthy (savedText S) = true) by reflexivity.
    rewrite Ht, JSON_parse_savedText by exact HS. reflexivity.
  - unfold mount; cbn [setItemCalls]. rewrite savedText_readBack; reflexivity.
Qed.

Lemma restart_keeps_the_slot_witness :
  exists loaded : list Transaction,
    initialTransactions (Normal (Some (savedText [gift; spent; tenth])))
    = Normal (toJSArray loaded)
    /\ setItemCalls (mount loaded) = [savedText [gift; spent; tenth]].
Proof.
  apply (restart_keeps_the_slot [gift; spent; tenth]).
  repeat constructor.
Defined.

(** X21. Two collections with finite amounts that are written as the same
    text have the same records in the same order, up to the sign of a
    zero amount: the text in the slot tells the collection. *)
Theorem savedText_tells_the_collection :
  forall S S' : list Transaction,
    Forall (fun tx => finiteNumber (amount tx)) S ->
    Forall (fun tx => finiteNumber (amount tx)) S' ->
    savedText S = savedText S' ->
    List.map readBackRecord S = List.map readBackRecord S'.
Proof.
  intros S S' HS HS' E.
  apply toJSArray_injective.
  pose proof (JSON_parse_savedText S HS) as P.
  pose proof (JSON_parse_savedText S' HS') as P'.
  rewrite E, P' in P; injection P as P.
  unfold toJSArray; rewrite P; reflexivity.
Qed.

Lemma savedText_tells_the_collection_witness :
  List.map readBackRecord
    [gift; sampleTx "id-2" "-0" "Nothing" "2024-03-02T09:30:00.000Z" MyMoney]
  = List.map readBackRecord
      [gift; sampleTx "id-2" "0" "Nothing" "2024-03-02T09:30:00.000Z" MyMoney].
Proof.
  apply (savedText_tells_the_collection
           [gift;
            sampleTx "id-2" "-0" "Nothing" "2024-03-02T09:30:00.000Z" MyMoney]
           [gift;
            sampleTx "id-2" "0" "Nothing" "2024-03-02T09:30:00.000Z" MyMoney]).
  - repeat constructor.
  - repeat constructor.
  - vm_compute; reflexivity.
Defined.


(** ** Amounts that are not finite *)

Lemma parseValue_null :
  forall fuel rest,
    parseValue (S fuel) (str "null" ++ rest) = Some (JNull, rest).
Proof. reflexivity. Qed.

Lemma stringify_record_null :
  forall tx,
    isFinite (amount tx) = false ->
    JSON_stringify (toJS tx)
    = 123%N
        :: QuoteJSONString (str "id") ++ 58%N
        :: QuoteJSONString (id tx) ++ 44%N
        :: QuoteJSONString (str "amount") ++ 58%N
        :: str "null" ++ 44%N
        :: QuoteJSONString (str "description") ++ 58%N
        :: QuoteJSONString (description tx) ++ 44%N
        :: QuoteJSONString (str "date") ++ 58%N
        :: QuoteJSONString (date tx) ++ 44%N
        :: QuoteJSONString (str "type") ++ 58%N
        :: QuoteJSONString (TransactionType_value (type tx)) ++ [125%N].
Proof.
  intros tx Hf; unfold toJS.
  cbn [JSON_stringify List.map joinComma fst snd]. rewrite Hf.
  repeat (rewrite <- app_assoc; cbn [Datatypes.app]).
  reflexivity.
Qed.

Lemma parseValue_loadedRecord :
  forall fuel tx (sep : N) more,
    valid_binary prec emax (amount tx) = true ->
    parseValue (7 + fuel) (JSON_stringify (toJS tx) ++ sep :: more)
    = Some (loadedRecord tx, sep :: more).
Proof.
  intros fuel tx sep more Hv.
  destruct (isFinite (amount tx)) eqn:Hf.
  { rewrite parseValue_record by (split; assumption).
    unfold loadedRecord, loadedAmount; rewrite Hf; reflexivity. }
  rewrite stringify_record_null by exact Hf.
  unfold loadedRecord, loadedAmount; rewrite Hf.
  cbn [Datatypes.app]; repeat (rewrite <- app_assoc; cbn [Datatypes.app]).
  change (7 + fuel)%nat with (S (S (S (S (S (S (S fuel))))))).
  cbn [parseValue skipWS]. change (isJSONWhiteSpace 123) with false.
  cbv iota. change (123 =? 123)%N with true. cbv iota.
  assert (Hq : forall k t,
    skipWS (QuoteJSONString k ++ t) = QuoteJSONString k ++ t) by reflexivity.
  rewrite Hq. unfold QuoteJSONString at 1. cbn [Datatypes.app]. cbv iota.
  fold (QuoteJSONString (str "id")).
  change (34%N :: (quoteUnits (str "id") ++ [34%N]) ++ ?t)
    with (QuoteJSONString (str "id") ++ t).
  rewrite (parseMembers_member _ (str "id") _ (JString (id tx)) 44%N _ _
             (or_introl eq_refl) (parseValue_string _ _ _)).
  change (44 =? 44)%N with true; cbv iota.
  rewrite (parseMembers_member _ (str "amount") (str "null") JNull 44%N _ _
             (or_introl eq_refl) (parseValue_null _ _)).
  change (44 =? 44)%N with true; cbv iota.
  rewrite (parseMembers_member _ (str "description") _
             (JString (description tx)) 44%N _ _
             (or_introl eq_refl) (parseValue_string _ _ _)).
  change (44 =? 44)%N with true; cbv iota.
  rewrite (parseMembers_member _ (str "date") _ (JString (date tx)) 44%N _ _
             (or_introl eq_refl) (parseValue_string _ _ _)).
  change (44 =? 44)%N with true; cbv iota.
  rewrite (parseMembers_member _ (str "type") _
             (JString (TransactionType_value (type tx))) 125%N _ _
             (or_intror eq_refl) (parseValue_string _ _ _)).
  reflexivity.
Qed.

Lemma parseElements_loadedRecords :
  forall l fuel acc more,
    Forall (fun tx => valid_binary prec emax (amount tx) = true) l ->
    l <> [] ->
    parseElements (List.length l + 7 + fuel)
      (joinComma (recordTexts l) ++ 93%N :: more) acc
    = Some (JArray (rev acc ++ List.map loadedRecord l), more).
Proof.
  induction l as [|tx l IH]; intros fuel acc more Hfin Hne; [congruence|].
  inversion Hfin as [|? ? Htx Hl]; subst.
  destruct l as [|tx2 l'].
  - change (List.length [tx] + 7 + fuel)%nat with (S (7 + fuel)).
    cbn [recordTexts List.map joinComma parseElements].
    rewrite (parseValue_loadedRecord fuel tx 93%N more Htx).
    reflexivity.
  - change (joinComma (recordTexts (tx :: tx2 :: l')))
      with (JSON_stringify (toJS tx)
              ++ 44%N :: joinComma (recordTexts (tx2 :: l'))).
    rewrite <- app_assoc. cbn [Datatypes.app].
    change (List.length (tx :: tx2 :: l') + 7 + fuel)%nat
      with (S (List.length (tx2 :: l') + 7 + fuel)).
    cbn [parseElements].
    replace (List.length (tx2 :: l') + 7 + fuel)%nat
      with (7 + (List.length (tx2 :: l') + fuel))%nat at 1 by lia.
    rewrite (parseValue_loadedRecord _ tx 44%N _ Htx).
    cbn [skipWS]. change (isJSONWhiteSpace 44) with false. cbv iota.
    rewrite (IH fuel (loadedRecord tx :: acc) more Hl) by discriminate.
    cbn [rev List.map]. rewrite <- app_assoc. reflexivity.
Qed.

Lemma JSON_parse_savedText_any :
  forall l,
    Forall (fun tx => valid_binary prec emax (amount tx) = true) l ->
    JSON_parse (savedText l) = Normal (JArray (List.map loadedRecord l)).
Proof.
  intros l Hfin; destruct l as [|tx l]; [reflexivity|].
  unfold JSON_parse, savedText, toJSArray.
  cbn [JSON_stringify]. fold (recordTexts (tx :: l)).
  remember (joinComma (recordTexts (tx :: l))) as text eqn:Etext.
  assert (Hlen : (4 * List.length (tx :: l) <= List.length text)%nat).
  { rewrite Etext.
    replace (List.length (tx :: l)) with (List.length (recordTexts (tx :: l)))
      by (unfold recordTexts; rewrite !length_map; reflexivity).
    apply joinComma_length. unfold recordTexts.
    apply Forall_map, Forall_map, Forall_forall.
    intros; apply stringify_record_length. }
  assert (Hhead : exists r, text ++ [93%N] = 123%N :: r).
  { rewrite Etext. cbn [recordTexts List.map joinComma].
    destruct (List.map _ l); unfold toJS; cbn [JSON_stringify Datatypes.app];
      eexists; reflexivity. }
  destruct Hhead as [r Hr].
  replace (2 * List.length (91%N :: text ++ [93%N]) + 2)%nat
    with (S (List.length (tx :: l) + 7
             + (2 * List.length (91%N :: text ++ [93%N]) + 1
                - (List.length (tx :: l) + 7))))
    by (cbn [List.length] in *; rewrite length_app; simpl; lia).
  cbn [parseValue skipWS].
  change (isJSONWhiteSpace 91) with false. cbv iota.
  change (91 =? 123)%N with false; change (91 =? 91)%N with true. cbv iota.
  rewrite Hr. cbn [skipWS]. change (isJSONWhiteSpace 123) with false.
  cbv iota. rewrite <- Hr, Etext.
  rewrite (parseElements_loadedRecords (tx :: l) _ [] [] Hfin) by discriminate.
  reflexivity.
Qed.

(** X22. The text of any collection of binary64 amounts is read back with
    every field of every record as it was, except that a zero amount
    comes back as [+0] and an amount that is an infinity or NaN comes
    back as [null]: such a record is no record of the collection any more
    once the component has been started again. *)
Theorem infinite_amount_is_read_back_as_null :
  forall l : list Transaction,
    Forall (fun tx => valid_binary prec emax (amount tx) = true) l ->
    initialTransactions (Normal (Some (savedText l)))
    = Normal (JArray (List.map loadedRecord l))
    /\ (forall tx,
          In tx l -> isFinite (amount tx) = true ->
          loadedRecord tx = toJS (readBackRecord tx))
    /\ (forall tx,
          In tx l -> isFinite (amount tx) = false ->
          forall tx', loadedRecord tx <> toJS tx').
Proof.
  intros l Hv; split; [|split].
  - unfold initialTransactions.
    assert (Ht : truthy (savedText l) = true) by reflexivity.
    rewrite Ht, JSON_parse_savedText_any by exact Hv. reflexivity.
  - intros tx _ Hf; unfold loadedRecord, loadedAmount; rewrite Hf.
    reflexivity.
  - intros tx _ Hf tx'; unfold loadedRecord, loadedAmount, toJS.
    rewrite Hf; discriminate.
Qed.

Lemma infinite_amount_is_read_back_as_null_witness :
  initialTransactions
    (Normal
       (Some
          (savedText
             [gift;
              sampleTx "id-8" "Infinity" "Prize" "2024-03-06T00:00:00.000Z"
                MyMoney])))
  = Normal
      (JArray
         (List.map loadedRecord
            [gift;
             sampleTx "id-8" "Infinity" "Prize" "2024-03-06T00:00:00.000Z"
               MyMoney])).
Proof.
  destruct (infinite_amount_is_read_back_as_null
              [gift;
               sampleTx "id-8" "Infinity" "Prize" "2024-03-06T00:00:00.000Z"
                 MyMoney]) as [H _].
  - repeat constructor.
  - exact H.
Defined.
